(** * Noor audio-navigation player: shallow embedding and verification

    The repository holds three revisions of one ESP32 firmware
    ([noor_v1], [noor_v2], [Noor_RTOS_version]); each is a single [main.c].
    The revisions share most of their text (helpers, directory scanning,
    debouncing, WAV parsing) and differ in how playback and announcements
    are signalled to the audio task:

    - v1   : no announcements; the audio task streams inline and loops the
             file; a play request raises [track_change_request];
    - v2   : announcements through the polled flag [announce_request];
    - RTOS : announcements and play requests through the task notification
             value of [audio_task] together with [stop_flag].

    The embedding keeps one definition for code that is textually shared and
    takes the revision as a parameter ([variant]) where the text differs.

    Conventions.
    - C [int]/[uint32_t] values are [Z]; wrap-around is written with
      [wrap_u32]/[wrap_i32]/[wrap_i16].
    - C strings are [string]s (without the terminating NUL).
    - The outside world (SD card, heap, I2S driver) is a record [World] of
      the answers the firmware receives; every step takes the world it runs
      against, so the answers may change from one step to the next.
    - The tasks run concurrently.  The audio side is observed at its polling
      points: the place where it waits for work and the top of the chunk
      loop.  One step of the audio side runs from one polling point to the
      next, reading the shared flags once at the start; one step of the
      input side is one button poll of [app_main] or one queue event of
      [encoder_task].  In the RTOS revision the return from
      [xTaskNotifyWait] is a step of its own: the task writes [stop_flag]
      only afterwards, and the input side may run in between.
    - A handler of the input side is taken from its first statement to its
      last by [sys_step]: [run] and [reachable] hold the states between
      handlers, not those in the middle of one.  The Vol+ and Vol-
      handlers store [g_volume_percent] twice; [vol_step] takes their two
      stores as two steps, with the other tasks in between. *)

From Stdlib Require Import ZArith List String Ascii Bool Lia.
From Stdlib.Strings Require Import Byte.
Import ListNotations.

Local Open Scope string_scope.
Local Open Scope list_scope.
Local Open Scope Z_scope.

(* ------------------------------------------------------------------ *)
(** ** Settings (the #define block) *)

Definition DEBOUNCE_MS : Z := 50.
Definition ENC_STEP_DEBOUNCE_MS : Z := 60.
Definition MAX_WAV_FILES : nat := 64.
Definition MAX_FOLDERS : nat := 32.
Definition ENC_QUEUE_LEN : nat := 16.
Definition ANNOUNCE_PATH_MAX : nat := 256.
(** [NOTIFY_ANNOUNCE_BIT] is [1u<<31] (RTOS revision). *)
Definition NOTIFY_ANNOUNCE_BIT : Z := Z.shiftl 1 31.

(* ------------------------------------------------------------------ *)
(** ** Machine integers *)

Definition wrap_u32 (z : Z) : Z := z mod 2 ^ 32.
Definition wrap_i32 (z : Z) : Z := (z + 2 ^ 31) mod 2 ^ 32 - 2 ^ 31.
Definition wrap_u16 (z : Z) : Z := z mod 2 ^ 16.
Definition wrap_i16 (z : Z) : Z := (z + 2 ^ 15) mod 2 ^ 16 - 2 ^ 15.

Definition in_i16 (z : Z) : Prop := -32768 <= z <= 32767.
Definition in_i32 (z : Z) : Prop := - 2 ^ 31 <= z <= 2 ^ 31 - 1.

(** [clip16]: saturate an [int32_t] to [int16_t]. *)
Definition clip16 (s : Z) : Z :=
  if s >? 32767 then 32767
  else if s <? -32768 then -32768
  else wrap_i16 s.

(** The body of the volume loop:
    [scaled = ((int32_t)samps[i] * vol) / 100; samps[i] = clip16(scaled)].
    C division truncates toward zero ([Z.quot]). *)
Definition scale_sample (vol s : Z) : Z :=
  clip16 (Z.quot (wrap_i32 (s * vol)) 100).

(** The value that Vol+ and Vol- leave in [g_volume_percent]:
    [v += 10; if (v > 200) v = 200;] and [v -= 10; if (v < 0) v = 0;]. *)
Definition vol_up (v : Z) : Z :=
  let v1 := wrap_i32 (v + 10) in if v1 >? 200 then 200 else v1.
Definition vol_down (v : Z) : Z :=
  let v1 := wrap_i32 (v - 10) in if v1 <? 0 then 0 else v1.

(* ------------------------------------------------------------------ *)
(** ** Bytes and little-endian fields *)

Definition byte_z (b : byte) : Z := Z.of_N (Byte.to_N b).
Definition z_byte (z : Z) : byte :=
  match Byte.of_N (Z.to_N (z mod 256)) with
  | Some b => b
  | None => x00
  end.

Definition u16_le (b0 b1 : byte) : Z := byte_z b0 + 256 * byte_z b1.
Definition u32_le (b0 b1 b2 b3 : byte) : Z :=
  byte_z b0 + 256 * byte_z b1 + 65536 * byte_z b2 + 16777216 * byte_z b3.

(** The sample loop over a chunk viewed as [int16_t*]; [ns = bytes_read / 2],
    so an odd trailing byte is left as it is. *)
Fixpoint scale_samples (vol : Z) (buf : list byte) : list byte :=
  match buf with
  | b0 :: b1 :: rest =>
      let s := scale_sample vol (wrap_i16 (u16_le b0 b1)) in
      z_byte s :: z_byte (wrap_u16 s / 256) :: scale_samples vol rest
  | _ => buf
  end.

(** [if (g_volume_percent != 100) {...}]: the multiply is skipped at 100. *)
Definition apply_volume (vol : Z) (buf : list byte) : list byte :=
  if vol =? 100 then buf else scale_samples vol buf.

(* ------------------------------------------------------------------ *)
(** ** C string helpers *)

Fixpoint string_take (n : nat) (s : string) : string :=
  match n, s with
  | S n', String c r => String c (string_take n' r)
  | _, _ => EmptyString
  end.

Fixpoint string_drop (n : nat) (s : string) : string :=
  match n, s with
  | S n', String _ r => string_drop n' r
  | _, _ => s
  end.

(** [s[i]]; reading at the end of the string yields the NUL. *)
Definition char_at (s : string) (i : nat) : ascii :=
  match String.get i s with
  | Some c => c
  | None => zero
  end.

(** [strrchr(s, c)] as the offset of the last occurrence. *)
Fixpoint strrchr (s : string) (c : ascii) : option nat :=
  match s with
  | EmptyString => None
  | String a r =>
      match strrchr r c with
      | Some i => Some (S i)
      | None => if Ascii.eqb a c then Some O else None
      end
  end.

(** [p = strrchr(path,'/'); name = p ? p+1 : path]. *)
Definition basename (path : string) : string :=
  match strrchr path "/" with
  | Some i => string_drop (S i) path
  | None => path
  end.

Definition tolower (c : ascii) : ascii :=
  let n := nat_of_ascii c in
  if (Nat.leb 65 n && Nat.leb n 90)%bool then ascii_of_nat (n + 32) else c.

Fixpoint strlower (s : string) : string :=
  match s with
  | EmptyString => EmptyString
  | String c r => String (tolower c) (strlower r)
  end.

(** [strcasecmp(a, b) == 0]. *)
Definition strcasecmp_eq (a b : string) : bool :=
  String.eqb (strlower a) (strlower b).

Definition isdigit (c : ascii) : bool :=
  let n := nat_of_ascii c in (Nat.leb 48 n && Nat.leb n 57)%bool.

(** [strncpy(dst, src, size-1); dst[size-1] = 0] into a buffer of [size]
    bytes: the buffer then holds the first [size-1] characters. *)
Definition strncpy_buf (size : nat) (src : string) : string :=
  string_take (size - 1) src.

(** [snprintf(buf, size, ...)] of an already formatted text. *)
Definition snprintf_buf (size : nat) (text : string) : string :=
  string_take (size - 1) text.

(** ["%d"] for the value [b[1] - '0'] of a decimal digit character. *)
Definition fmt_digit (n : nat) : string :=
  String (ascii_of_nat (48 + n)) EmptyString.

(* ------------------------------------------------------------------ *)
(** ** The outside world *)

Inductive d_type_t := DT_UNKNOWN | DT_REG | DT_DIR | DT_OTHER.
Record dirent := { d_name : string; d_type : d_type_t }.

Inductive st_mode_t := S_IFREG | S_IFDIR | S_IFOTHER.

Record World := {
  (** [init_sd()] succeeds *)
  sd_ok : bool;
  (** [access(path, F_OK) == 0] *)
  file_exists : string -> bool;
  (** [fopen(path,"rb")] and the bytes then read; [None]: not found *)
  file_bytes : string -> option (list byte);
  (** [opendir]/[readdir]: the entries in the order [readdir] yields them *)
  list_dir : string -> option (list dirent);
  (** [stat(path,&sb)]: [None] when it fails *)
  stat_mode : string -> option st_mode_t;
  (** [malloc(n) != NULL] *)
  malloc_ok : nat -> bool;
  (** [i2s_driver_install(...) == ESP_OK] and the like *)
  i2s_install_ok : bool;
  i2s_set_pin_ok : bool;
  i2s_set_clk_ok : bool;
  i2s_write_ok : bool
}.

(** [make_path]: [malloc(strlen(dir)+1+strlen(name)+1)], then
    [sprintf(p, "%s/%s", dir, name)]; [None] is the NULL result. *)
Definition make_path (w : World) (dir name : string) : option string :=
  let need := (String.length dir + 1 + String.length name + 1)%nat in
  if malloc_ok w need then Some (dir ++ "/" ++ name)%string else None.

(* ------------------------------------------------------------------ *)
(** ** Directory scanning *)

Definition is_dot_entry (e : dirent) : bool :=
  (String.eqb (d_name e) "." || String.eqb (d_name e) "..")%bool.

(** The [while ((entry = readdir(d)) != NULL && found < MAX_FOLDERS)] loop
    of [scan_root_folders]; [found] is the filled prefix of [folder_list]. *)
Fixpoint scan_root_loop (w : World) (path : string) (entries : list dirent)
    (found : list string) : list string :=
  match entries with
  | [] => found
  | entry :: rest =>
      if negb (Nat.ltb (List.length found) MAX_FOLDERS) then found
      else if is_dot_entry entry then scan_root_loop w path rest found
      else
        let probe :=  (* Some is_dir, or None for the [break] on NULL *)
          match d_type entry with
          | DT_DIR => Some true
          | DT_UNKNOWN =>
              match make_path w path (d_name entry) with
              | None => None
              | Some full =>
                  Some (match stat_mode w full with
                        | Some S_IFDIR => true
                        | _ => false
                        end)
              end
          | _ => Some false
          end in
        match probe with
        | None => found
        | Some false => scan_root_loop w path rest found
        | Some true =>
            match make_path w path (d_name entry) with
            | None => found
            | Some full => scan_root_loop w path rest (found ++ [full])
            end
        end
  end.

(** [scan_root_folders(path)]: the new contents of [folder_list]
    ([num_folders] is its length). *)
Definition scan_root_folders (w : World) (path : string) : list string :=
  match list_dir w path with
  | None => []
  | Some entries => scan_root_loop w path entries []
  end.

(** [n > 4 && !strcasecmp(name + (n - 4), ".wav")]. *)
Definition has_wav_ext (name : string) : bool :=
  let n := String.length name in
  if Nat.leb n 4 then false
  else strcasecmp_eq (string_drop (n - 4) name) ".wav".

Fixpoint scan_wavs_loop (w : World) (path : string) (entries : list dirent)
    (found : list string) : list string :=
  match entries with
  | [] => found
  | entry :: rest =>
      if negb (Nat.ltb (List.length found) MAX_WAV_FILES) then found
      else if is_dot_entry entry then scan_wavs_loop w path rest found
      else
        let probe :=
          match d_type entry with
          | DT_REG => Some true
          | DT_UNKNOWN =>
              match make_path w path (d_name entry) with
              | None => None
              | Some full =>
                  Some (match stat_mode w full with
                        | Some S_IFREG => true
                        | _ => false
                        end)
              end
          | _ => Some false
          end in
        match probe with
        | None => found
        | Some false => scan_wavs_loop w path rest found
        | Some true =>
            if has_wav_ext (d_name entry) then
              match make_path w path (d_name entry) with
              | None => found
              | Some full => scan_wavs_loop w path rest (found ++ [full])
              end
            else scan_wavs_loop w path rest found
        end
  end.

(** [scan_wavs_in_folder(path)]: the new contents of [wav_list]. *)
Definition scan_wavs_in_folder (w : World) (path : string) : list string :=
  match list_dir w path with
  | None => []
  | Some entries => scan_wavs_loop w path entries []
  end.

(* ------------------------------------------------------------------ *)
(** ** Shared state: the file-scope variables

    The record holds the file-scope variables of all three revisions; the
    comment of a field names the revisions that declare it when it is not
    declared by all of them.  A revision never touches a field it does not
    declare.  [folder_list] and [wav_list] stand for the array together
    with its count ([num_folders], [num_tracks]). *)

Inductive variant := V1 | V2 | RTOS.

Inductive nav_state_t := NAV_HOME | NAV_FOLDER_VIEW | NAV_FILE_VIEW.

Definition nav_eqb (a b : nav_state_t) : bool :=
  match a, b with
  | NAV_HOME, NAV_HOME | NAV_FOLDER_VIEW, NAV_FOLDER_VIEW
  | NAV_FILE_VIEW, NAV_FILE_VIEW => true
  | _, _ => false
  end.

Record shared := {
  nav_state : nav_state_t  (* current screen *);
  g_pause : bool  (* pause toggle *);
  g_playing : bool  (* playing state *);
  playing_track : Z  (* which track is considered playing, -1 for none *);
  g_volume_percent : Z  (* volume, 0..200 percent *);
  folder_list : list string  (* folder_list[0..num_folders) *);
  selected_folder : Z  (* selection index among the folders *);
  wav_list : list string  (* wav_list[0..num_tracks) *);
  current_track : Z  (* selection index inside the folder *);
  track_change_request : bool  (* v1, v2 *);
  g_stop_and_rewind : bool  (* v1, v2 *);
  announce_request : bool  (* v2: announcement pending *);
  announce_path : string  (* v2, RTOS: the 256-byte path buffer *);
  stop_flag : bool  (* RTOS: interrupts the current stream *);
  notify : Z  (* RTOS: notification value of audio_task *);
  audio_task_handle : bool  (* RTOS: audio_task_handle != NULL *)
}.

Definition set_nav_state (x : nav_state_t) (st : shared) : shared :=
  {| nav_state := x; g_pause := g_pause st; g_playing := g_playing st;
     playing_track := playing_track st;
     g_volume_percent := g_volume_percent st;
     folder_list := folder_list st; selected_folder := selected_folder st;
     wav_list := wav_list st; current_track := current_track st;
     track_change_request := track_change_request st;
     g_stop_and_rewind := g_stop_and_rewind st;
     announce_request := announce_request st;
     announce_path := announce_path st; stop_flag := stop_flag st;
     notify := notify st; audio_task_handle := audio_task_handle st |}.
Definition set_g_pause (x : bool) (st : shared) : shared :=
  {| nav_state := nav_state st; g_pause := x; g_playing := g_playing st;
     playing_track := playing_track st;
     g_volume_percent := g_volume_percent st;
     folder_list := folder_list st; selected_folder := selected_folder st;
     wav_list := wav_list st; current_track := current_track st;
     track_change_request := track_change_request st;
     g_stop_and_rewind := g_stop_and_rewind st;
     announce_request := announce_request st;
     announce_path := announce_path st; stop_flag := stop_flag st;
     notify := notify st; audio_task_handle := audio_task_handle st |}.
Definition set_g_playing (x : bool) (st : shared) : shared :=
  {| nav_state := nav_state st; g_pause := g_pause st; g_playing := x;
     playing_track := playing_track st;
     g_volume_percent := g_volume_percent st;
     folder_list := folder_list st; selected_folder := selected_folder st;
     wav_list := wav_list st; current_track := current_track st;
     track_change_request := track_change_request st;
     g_stop_and_rewind := g_stop_and_rewind st;
     announce_request := announce_request st;
     announce_path := announce_path st; stop_flag := stop_flag st;
     notify := notify st; audio_task_handle := audio_task_handle st |}.
Definition set_playing_track (x : Z) (st : shared) : shared :=
  {| nav_state := nav_state st; g_pause := g_pause st;
     g_playing := g_playing st; playing_track := x;
     g_volume_percent := g_volume_percent st;
     folder_list := folder_list st; selected_folder := selected_folder st;
     wav_list := wav_list st; current_track := current_track st;
     track_change_request := track_change_request st;
     g_stop_and_rewind := g_stop_and_rewind st;
     announce_request := announce_request st;
     announce_path := announce_path st; stop_flag := stop_flag st;
     notify := notify st; audio_task_handle := audio_task_handle st |}.
Definition set_g_volume_percent (x : Z) (st : shared) : shared :=
  {| nav_state := nav_state st; g_pause := g_pause st;
     g_playing := g_playing st; playing_track := playing_track st;
     g_volume_percent := x; folder_list := folder_list st;
     selected_folder := selected_folder st; wav_list := wav_list st;
     current_track := current_track st;
     track_change_request := track_change_request st;
     g_stop_and_rewind := g_stop_and_rewind st;
     announce_request := announce_request st;
     announce_path := announce_path st; stop_flag := stop_flag st;
     notify := notify st; audio_task_handle := audio_task_handle st |}.
Definition set_folder_list (x : list string) (st : shared) : shared :=
  {| nav_state := nav_state st; g_pause := g_pause st;
     g_playing := g_playing st; playing_track := playing_track st;
     g_volume_percent := g_volume_percent st; folder_list := x;
     selected_folder := selected_folder st; wav_list := wav_list st;
     current_track := current_track st;
     track_change_request := track_change_request st;
     g_stop_and_rewind := g_stop_and_rewind st;
     announce_request := announce_request st;
     announce_path := announce_path st; stop_flag := stop_flag st;
     notify := notify st; audio_task_handle := audio_task_handle st |}.
Definition set_selected_folder (x : Z) (st : shared) : shared :=
  {| nav_state := nav_state st; g_pause := g_pause st;
     g_playing := g_playing st; playing_track := playing_track st;
     g_volume_percent := g_volume_percent st;
     folder_list := folder_list st; selected_folder := x;
     wav_list := wav_list st; current_track := current_track st;
     track_change_request := track_change_request st;
     g_stop_and_rewind := g_stop_and_rewind st;
     announce_request := announce_request st;
     announce_path := announce_path st; stop_flag := stop_flag st;
     notify := notify st; audio_task_handle := audio_task_handle st |}.
Definition set_wav_list (x : list string) (st : shared) : shared :=
  {| nav_state := nav_state st; g_pause := g_pause st;
     g_playing := g_playing st; playing_track := playing_track st;
     g_volume_percent := g_volume_percent st;
     folder_list := folder_list st; selected_folder := selected_folder st;
     wav_list := x; current_track := current_track st;
     track_change_request := track_change_request st;
     g_stop_and_rewind := g_stop_and_rewind st;
     announce_request := announce_request st;
     announce_path := announce_path st; stop_flag := stop_flag st;
     notify := notify st; audio_task_handle := audio_task_handle st |}.
Definition set_current_track (x : Z) (st : shared) : shared :=
  {| nav_state := nav_state st; g_pause := g_pause st;
     g_playing := g_playing st; playing_track := playing_track st;
     g_volume_percent := g_volume_percent st;
     folder_list := folder_list st; selected_folder := selected_folder st;
     wav_list := wav_list st; current_track := x;
     track_change_request := track_change_request st;
     g_stop_and_rewind := g_stop_and_rewind st;
     announce_request := announce_request st;
     announce_path := announce_path st; stop_flag := stop_flag st;
     notify := notify st; audio_task_handle := audio_task_handle st |}.
Definition set_track_change_request (x : bool) (st : shared) : shared :=
  {| nav_state := nav_state st; g_pause := g_pause st;
     g_playing := g_playing st; playing_track := playing_track st;
     g_volume_percent := g_volume_percent st;
     folder_list := folder_list st; selected_folder := selected_folder st;
     wav_list := wav_list st; current_track := current_track st;
     track_change_request := x; g_stop_and_rewind := g_stop_and_rewind st;
     announce_request := announce_request st;
     announce_path := announce_path st; stop_flag := stop_flag st;
     notify := notify st; audio_task_handle := audio_task_handle st |}.
Definition set_g_stop_and_rewind (x : bool) (st : shared) : shared :=
  {| nav_state := nav_state st; g_pause := g_pause st;
     g_playing := g_playing st; playing_track := playing_track st;
     g_volume_percent := g_volume_percent st;
     folder_list := folder_list st; selected_folder := selected_folder st;
     wav_list := wav_list st; current_track := current_track st;
     track_change_request := track_change_request st;
     g_stop_and_rewind := x; announce_request := announce_request st;
     announce_path := announce_path st; stop_flag := stop_flag st;
     notify := notify st; audio_task_handle := audio_task_handle st |}.
Definition set_announce_request (x : bool) (st : shared) : shared :=
  {| nav_state := nav_state st; g_pause := g_pause st;
     g_playing := g_playing st; playing_track := playing_track st;
     g_volume_percent := g_volume_percent st;
     folder_list := folder_list st; selected_folder := selected_folder st;
     wav_list := wav_list st; current_track := current_track st;
     track_change_request := track_change_request st;
     g_stop_and_rewind := g_stop_and_rewind st; announce_request := x;
     announce_path := announce_path st; stop_flag := stop_flag st;
     notify := notify st; audio_task_handle := audio_task_handle st |}.
Definition set_announce_path (x : string) (st : shared) : shared :=
  {| nav_state := nav_state st; g_pause := g_pause st;
     g_playing := g_playing st; playing_track := playing_track st;
     g_volume_percent := g_volume_percent st;
     folder_list := folder_list st; selected_folder := selected_folder st;
     wav_list := wav_list st; current_track := current_track st;
     track_change_request := track_change_request st;
     g_stop_and_rewind := g_stop_and_rewind st;
     announce_request := announce_request st; announce_path := x;
     stop_flag := stop_flag st; notify := notify st;
     audio_task_handle := audio_task_handle st |}.
Definition set_stop_flag (x : bool) (st : shared) : shared :=
  {| nav_state := nav_state st; g_pause := g_pause st;
     g_playing := g_playing st; playing_track := playing_track st;
     g_volume_percent := g_volume_percent st;
     folder_list := folder_list st; selected_folder := selected_folder st;
     wav_list := wav_list st; current_track := current_track st;
     track_change_request := track_change_request st;
     g_stop_and_rewind := g_stop_and_rewind st;
     announce_request := announce_request st;
     announce_path := announce_path st; stop_flag := x;
     notify := notify st; audio_task_handle := audio_task_handle st |}.
Definition set_notify (x : Z) (st : shared) : shared :=
  {| nav_state := nav_state st; g_pause := g_pause st;
     g_playing := g_playing st; playing_track := playing_track st;
     g_volume_percent := g_volume_percent st;
     folder_list := folder_list st; selected_folder := selected_folder st;
     wav_list := wav_list st; current_track := current_track st;
     track_change_request := track_change_request st;
     g_stop_and_rewind := g_stop_and_rewind st;
     announce_request := announce_request st;
     announce_path := announce_path st; stop_flag := stop_flag st;
     notify := x; audio_task_handle := audio_task_handle st |}.
Definition set_audio_task_handle (x : bool) (st : shared) : shared :=
  {| nav_state := nav_state st; g_pause := g_pause st;
     g_playing := g_playing st; playing_track := playing_track st;
     g_volume_percent := g_volume_percent st;
     folder_list := folder_list st; selected_folder := selected_folder st;
     wav_list := wav_list st; current_track := current_track st;
     track_change_request := track_change_request st;
     g_stop_and_rewind := g_stop_and_rewind st;
     announce_request := announce_request st;
     announce_path := announce_path st; stop_flag := stop_flag st;
     notify := notify st; audio_task_handle := x |}.

(** [num_folders] and [num_tracks].  The source keeps the counts in
    variables of their own: a scan stores the count once it has filled the
    entries, and [free_folder_list] and [free_wav_list] zero it once they
    have freed and cleared them.  When one of these functions has returned
    the count is the number of entries, and it is kept so here; inside them
    count and entries differ, and no step of this model stops there. *)
Definition num_folders (st : shared) : Z := Z.of_nat (List.length (folder_list st)).
Definition num_tracks (st : shared) : Z := Z.of_nat (List.length (wav_list st)).

(** [arr[i]] for an index inside the array. *)
Definition at_index (l : list string) (i : Z) : string :=
  nth (Z.to_nat i) l EmptyString.

(** The initialisers of the file-scope variables. *)
Definition initial_shared : shared :=
  {| nav_state := NAV_HOME; g_pause := false; g_playing := false;
     playing_track := -1; g_volume_percent := 100;
     folder_list := []; selected_folder := 0;
     wav_list := []; current_track := 0;
     track_change_request := false; g_stop_and_rewind := false;
     announce_request := false; announce_path := EmptyString;
     stop_flag := false; notify := 0; audio_task_handle := false |}.

Definition free_folder_list (st : shared) : shared :=
  set_selected_folder 0 (set_folder_list [] st).
Definition free_wav_list (st : shared) : shared :=
  set_current_track 0 (set_wav_list [] st).

(* ------------------------------------------------------------------ *)
(** ** Announcement requests *)

(** [xTaskNotify(audio_task_handle, value, eSetBits)] and
    [... eSetValueWithOverwrite], both behind [if (audio_task_handle)]. *)
Definition notify_set_bits (value : Z) (st : shared) : shared :=
  if audio_task_handle st then set_notify (Z.lor (notify st) value) st else st.
Definition notify_overwrite (value : Z) (st : shared) : shared :=
  if audio_task_handle st then set_notify value st else st.

(** [request_announcement(path)]; [None] is the NULL path.
    - v2:   copy the path, then [announce_request = true];
    - RTOS: copy the path, then [stop_flag = true] and notify the audio task
            with [NOTIFY_ANNOUNCE_BIT];
    - v1 has no such function (and no caller of it). *)
Definition request_announcement (v : variant) (path : option string)
    (st : shared) : shared :=
  match path with
  | None => st
  | Some p =>
      let st1 := set_announce_path (strncpy_buf ANNOUNCE_PATH_MAX p) st in
      match v with
      | V1 => st
      | V2 => set_announce_request true st1
      | RTOS => notify_set_bits NOTIFY_ANNOUNCE_BIT (set_stop_flag true st1)
      end
  end.

(** The block that announces the stories folder ("01" or "stories"):
    [/sdcard/stories.wav] first, else [stories.wav] inside the folder.
    It occurs three times in v2 and in RTOS (rotary step, rotary switch,
    Play/Pause) with the same text; v1 has no such block. *)
Definition announce_stories (v : variant) (w : World) (fp : string)
    (st : shared) : shared :=
  match v with
  | V1 => st
  | _ =>
      let name := basename fp in
      if (strcasecmp_eq name "01" || strcasecmp_eq name "stories")%bool then
        if file_exists w "/sdcard/stories.wav"
        then request_announcement v (Some "/sdcard/stories.wav") st
        else
          match make_path w fp "stories.wav" with
          | Some in_folder =>
              if file_exists w in_folder
              then request_announcement v (Some in_folder) st
              else st
          | None => st
          end
      else st
  end.

(** [(b[0]=='S' || b[0]=='s') && isdigit((unsigned char)b[1])]. *)
Definition is_story_name (b : string) : bool :=
  ((Ascii.eqb (char_at b 0) "S" || Ascii.eqb (char_at b 0) "s")
   && isdigit (char_at b 1))%bool.

(** [n = b[1] - '0']. *)
Definition story_number (b : string) : nat :=
  (nat_of_ascii (char_at b 1) - 48)%nat.

(** The block that announces a story track [S<n>...]: [/sdcard/story<n>.wav]
    first, else [story<n>.wav] in the directory part of the track's path
    (tried only when that part is shorter than [ANNOUNCE_PATH_MAX]).
    It occurs three times in v2 and in RTOS with the same text. *)
Definition announce_story (v : variant) (w : World) (fullname : string)
    (st : shared) : shared :=
  match v with
  | V1 => st
  | _ =>
      let b := basename fullname in
      if is_story_name b then
        let n := story_number b in
        let candidate_root :=
          snprintf_buf ANNOUNCE_PATH_MAX
            ("/sdcard/story" ++ fmt_digit n ++ ".wav")%string in
        if file_exists w candidate_root
        then request_announcement v (Some candidate_root) st
        else
          match strrchr fullname "/" with
          | Some folder_len =>
              if Nat.ltb folder_len ANNOUNCE_PATH_MAX then
                let folder_dir := string_take folder_len fullname in
                let storyname :=
                  snprintf_buf 32 ("story" ++ fmt_digit n ++ ".wav")%string in
                match make_path w folder_dir storyname with
                | Some candidate2 =>
                    if file_exists w candidate2
                    then request_announcement v (Some candidate2) st
                    else st
                | None => st
                end
              else st
          | None => st
          end
      else st
  end.

(* ------------------------------------------------------------------ *)
(** ** Navigation handlers *)

(** How a play request reaches the audio task:
    v1, v2: [track_change_request = true];
    RTOS:   [stop_flag = true] and the notification value is overwritten
            with [current_track + 1]. *)
Definition signal_play (v : variant) (st : shared) : shared :=
  match v with
  | V1 | V2 => set_track_change_request true st
  | RTOS =>
      notify_overwrite (wrap_u32 (current_track st + 1)) (set_stop_flag true st)
  end.

(** Play/Pause (or rotary switch) in [NAV_FILE_VIEW]. *)
Definition play_pause_file_view (v : variant) (st : shared) : shared :=
  if negb (g_playing st) then
    if num_tracks st >? 0 then
      signal_play v
        (set_g_pause false
           (set_g_playing true (set_playing_track (current_track st) st)))
    else st
  else if playing_track st =? current_track st then
    set_g_pause (negb (g_pause st)) st
  else
    signal_play v
      (set_g_pause false (set_playing_track (current_track st) st)).

(** Play/Pause (or rotary switch) in [NAV_FOLDER_VIEW]: enter the folder. *)
Definition enter_folder (v : variant) (w : World) (st : shared) : shared :=
  if num_folders st >? 0 then
    let folder_path := at_index (folder_list st) (selected_folder st) in
    let st1 := announce_stories v w folder_path st in
    let st2 := set_wav_list (scan_wavs_in_folder w folder_path)
                 (free_wav_list st1) in
    let st3 := set_g_pause false
                 (set_g_playing false
                    (set_playing_track (-1)
                       (set_current_track 0
                          (set_nav_state NAV_FILE_VIEW st2)))) in
    if num_tracks st3 >? 0
    then announce_story v w (at_index (wav_list st3) (current_track st3)) st3
    else st3
  else st.

(** [if (read_button_press(&btn_play)) {...}]. *)
Definition on_play_pause (v : variant) (w : World) (st : shared) : shared :=
  match nav_state st with
  | NAV_HOME =>
      if num_folders st >? 0 then set_nav_state NAV_FOLDER_VIEW st else st
  | NAV_FOLDER_VIEW => enter_folder v w st
  | NAV_FILE_VIEW => play_pause_file_view v st
  end.

(** [if (read_button_press(&btn_home)) {...}]. *)
Definition on_home (v : variant) (w : World) (st : shared) : shared :=
  match nav_state st with
  | NAV_FILE_VIEW =>
      let st1 :=
        if g_playing st then
          let st0 := set_g_pause false (set_g_playing false st) in
          match v with
          | V1 | V2 => set_g_stop_and_rewind true st0
          | RTOS => set_stop_flag true st0
          end
        else st in
      set_nav_state NAV_FOLDER_VIEW (free_wav_list st1)
  | NAV_FOLDER_VIEW =>
      let st1 := set_nav_state NAV_HOME st in
      match v with
      | V1 => st1
      | _ =>
          if file_exists w "/sdcard/home.wav"
          then request_announcement v (Some "/sdcard/home.wav") st1
          else st1
      end
  | NAV_HOME => st
  end.

(** The Vol+ and Vol- handlers.  [g_volume_percent] is a [volatile int]
    and each handler writes it twice: [g_volume_percent += 10;] (or
    [-= 10;]) stores the sum, and the clamp
    [if (g_volume_percent > 200) g_volume_percent = 200;] (or
    [if (g_volume_percent < 0) g_volume_percent = 0;]) stores again when
    the sum is out of range. *)
Definition vol_up_add (st : shared) : shared :=
  set_g_volume_percent (wrap_i32 (g_volume_percent st + 10)) st.
Definition vol_up_clamp (st : shared) : shared :=
  if g_volume_percent st >? 200 then set_g_volume_percent 200 st else st.
Definition vol_down_add (st : shared) : shared :=
  set_g_volume_percent (wrap_i32 (g_volume_percent st - 10)) st.
Definition vol_down_clamp (st : shared) : shared :=
  if g_volume_percent st <? 0 then set_g_volume_percent 0 st else st.

(** A handler run from its first statement to its last. *)
Definition on_vol_up (st : shared) : shared := vol_up_clamp (vol_up_add st).
Definition on_vol_down (st : shared) : shared :=
  vol_down_clamp (vol_down_add st).

(** ** Buttons *)

Record btn_t := { last_time : Z; last_state : bool }.

(** [read_button_press(b)] with [lvl = gpio_get_level(b->gpio)] and
    [t = xTaskGetTickCount() * portTICK_PERIOD_MS] (a [uint32_t]). *)
Definition read_button_press (lvl : bool) (t : Z) (b : btn_t) : bool * btn_t :=
  if (lvl && negb (last_state b))%bool then
    if wrap_u32 (t - last_time b) >? DEBOUNCE_MS
    then (true, {| last_time := t; last_state := lvl |})
    else (false, {| last_time := last_time b; last_state := lvl |})
  else (false, {| last_time := last_time b; last_state := lvl |}).

(** ** Rotary encoder *)

Inductive enc_evt_type_t := ENC_EVT_CLK | ENC_EVT_SW.
Record enc_evt_t := { ev_type : enc_evt_type_t; dt_level : Z }.

(** The locals [last_step_time] and [last_sw_time] of [encoder_task]. *)
Record enc_local := { last_step_time : Z; last_sw_time : Z }.

(** The test [now - last_step_time < ENC_STEP_DEBOUNCE_MS] on [uint32_t];
    [true] when the step passes it. *)
Definition step_accepted (last now : Z) : bool :=
  negb (wrap_u32 (now - last) <? ENC_STEP_DEBOUNCE_MS).
Definition switch_accepted (last now : Z) : bool :=
  negb (wrap_u32 (now - last) <? DEBOUNCE_MS).

(** An accepted rotary step. *)
Definition on_enc_step (v : variant) (w : World) (dt : Z) (st : shared)
    : shared :=
  match nav_state st with
  | NAV_HOME | NAV_FOLDER_VIEW =>
      if num_folders st >? 0 then
        let sel :=
          if dt =? 0
          then Z.rem (selected_folder st + 1) (num_folders st)
          else Z.rem (selected_folder st - 1 + num_folders st) (num_folders st) in
        let st1 := set_selected_folder sel st in
        announce_stories v w (at_index (folder_list st1) sel) st1
      else st
  | NAV_FILE_VIEW =>
      if num_tracks st >? 0 then
        let cur :=
          if dt =? 0
          then Z.rem (current_track st + 1) (num_tracks st)
          else Z.rem (current_track st - 1 + num_tracks st) (num_tracks st) in
        let st1 := set_current_track cur st in
        announce_story v w (at_index (wav_list st1) cur) st1
      else st
  end.

(** An accepted rotary switch press: the text of the Play/Pause handler is
    repeated in [encoder_task]. *)
Definition on_enc_switch (v : variant) (w : World) (st : shared) : shared :=
  on_play_pause v w st.

(** One iteration of [encoder_task]: the event [ev] is received at time
    [now = xTaskGetTickCount() * portTICK_PERIOD_MS]. *)
Definition encoder_task (v : variant) (w : World) (ev : enc_evt_t) (now : Z)
    (el : enc_local) (st : shared) : enc_local * shared :=
  match ev_type ev with
  | ENC_EVT_CLK =>
      if step_accepted (last_step_time el) now then
        ({| last_step_time := now; last_sw_time := last_sw_time el |},
         on_enc_step v w (dt_level ev) st)
      else (el, st)
  | ENC_EVT_SW =>
      if switch_accepted (last_sw_time el) now then
        ({| last_step_time := last_step_time el; last_sw_time := now |},
         on_enc_switch v w st)
      else (el, st)
  end.

(* ------------------------------------------------------------------ *)
(** ** WAV header *)

Record wav_info_t := {
  sample_rate : Z;
  bits_per_sample : Z;
  channels : Z;
  data_size : Z;
  data_offset : nat
}.

Definition byte_at (l : list byte) (i : nat) : byte := nth i l x00.

(** ["RIFF"] at 0 and ["WAVE"] at 8. *)
Definition riff_wave_ok (h : list byte) : bool :=
  (Byte.eqb (byte_at h 0) "R" && Byte.eqb (byte_at h 1) "I"
   && Byte.eqb (byte_at h 2) "F" && Byte.eqb (byte_at h 3) "F"
   && Byte.eqb (byte_at h 8) "W" && Byte.eqb (byte_at h 9) "A"
   && Byte.eqb (byte_at h 10) "V" && Byte.eqb (byte_at h 11) "E")%bool%byte.

(** [parse_wav_header(f, &info)] on the bytes of the file. *)
Definition parse_wav_header (f : list byte) : option wav_info_t :=
  let header := firstn 44 f in
  if negb (Nat.eqb (List.length header) 44) then None
  else if negb (riff_wave_ok header) then None
  else
    Some {| channels := u16_le (byte_at header 22) (byte_at header 23);
            sample_rate := u32_le (byte_at header 24) (byte_at header 25)
                             (byte_at header 26) (byte_at header 27);
            bits_per_sample := u16_le (byte_at header 34) (byte_at header 35);
            data_size := u32_le (byte_at header 40) (byte_at header 41)
                           (byte_at header 42) (byte_at header 43);
            data_offset := 44 |}.

(* ------------------------------------------------------------------ *)
(** ** What the audio side does, as events *)

(** Who called the stream: [app_main] at boot (welcome, home), or
    [audio_task] for an announcement or for the track [idx]. *)
Inductive caller := CWelcome | CHome | CAnn | CTrk (idx : Z).

Inductive stream_error :=
  | E_NULL_PATH | E_NOT_FOUND | E_BAD_HEADER | E_NOT_16BIT
  | E_I2S_INSTALL | E_I2S_SET_PIN | E_NO_MEM.

(** How a stream ended.  [stream_file_interruptible] returns [false] for
    [SFailed] and [true] for the other two; the [break] on the stop flag
    ([SAborted]) and the [break] on [bytes_read == 0] ([SCompleted]) are
    told apart by the log line of the first. *)
Inductive stream_result :=
  | SFailed (e : stream_error) | SAborted | SCompleted.

Definition stream_returns (r : stream_result) : bool :=
  match r with SFailed _ => false | _ => true end.

Inductive log_level := LOGI | LOGW | LOGE.
Inductive log_msg :=
  | MsgStreamError (e : stream_error)
  | MsgSetClk | MsgI2SWrite | MsgInterrupted
  | MsgInvalidIndex (idx : Z)
  | MsgAnnounce (path : string)
  | MsgStartTrack (idx : Z)
  | MsgPlaybackInterrupted | MsgPlaybackFinished (idx : Z)
  | MsgTrackChange | MsgStopRewind
  | MsgSdFailed | MsgNoFolders.

Inductive event :=
  | EvCall (who : caller) (path : option string)
  | EvReturn (who : caller) (r : stream_result)
  | EvI2SInstall (rate : Z) (mono : bool) (ok : bool)
  | EvI2SSetPin (ok : bool)
  | EvI2SSetClk (rate ch : Z) (ok : bool)
  | EvI2SWrite (data : list byte) (ok : bool)
  | EvI2SUninstall
  | EvLog (lvl : log_level) (msg : log_msg).

(** An opened stream: the parsed header, the data after the header (kept
    for [fseek(f, data_offset, SEEK_SET)]), what is left to read, and
    [chunk_bytes]. *)
Record open_stream := {
  os_info : wav_info_t;
  os_data : list byte;
  os_pos : list byte;
  os_chunk : nat
}.

Definition rewind (os : open_stream) : open_stream :=
  {| os_info := os_info os; os_data := os_data os;
     os_pos := os_data os; os_chunk := os_chunk os |}.

Definition advance (os : open_stream) : open_stream :=
  {| os_info := os_info os; os_data := os_data os;
     os_pos := skipn (os_chunk os) (os_pos os); os_chunk := os_chunk os |}.

(** [chunk_bytes = 1024 * (bits_per_sample / 8) * channels]. *)
Definition chunk_bytes (wi : wav_info_t) : nat :=
  Z.to_nat (1024 * (bits_per_sample wi / 8) * channels wi).

Definition failed (who : caller) (lvl : log_level) (e : stream_error)
    : list event :=
  [EvLog lvl (MsgStreamError e); EvReturn who (SFailed e)].

(** [stream_file_interruptible] from its entry to the [while (1)]: open,
    parse, configure the I2S output, allocate the buffer.  [None] when the
    function has returned [false]; the events say why and show that the
    driver is uninstalled on the paths that installed it.  The inline
    streaming of v1's [audio_task] runs the same sequence (it logs a failed
    [fopen] as an error, the function as a warning). *)
Definition stream_open (v : variant) (w : World) (who : caller)
    (fullpath : option string) : list event * option open_stream :=
  match fullpath with
  | None => ([EvCall who None; EvReturn who (SFailed E_NULL_PATH)], None)
  | Some p =>
      let call := EvCall who (Some p) in
      match file_bytes w p with
      | None =>
          (call :: failed who (match v with V1 => LOGE | _ => LOGW end)
                     E_NOT_FOUND, None)
      | Some f =>
          match parse_wav_header f with
          | None => (call :: failed who LOGE E_BAD_HEADER, None)
          | Some winfo =>
              if negb (bits_per_sample winfo =? 16) then
                (call :: failed who LOGE E_NOT_16BIT, None)
              else
                let inst := EvI2SInstall (wrap_i32 (sample_rate winfo))
                              (channels winfo =? 1) (i2s_install_ok w) in
                if negb (i2s_install_ok w) then
                  (call :: inst :: failed who LOGE E_I2S_INSTALL, None)
                else if negb (i2s_set_pin_ok w) then
                  (call :: inst :: EvI2SSetPin false ::
                     EvLog LOGE (MsgStreamError E_I2S_SET_PIN) ::
                     EvI2SUninstall ::
                     [EvReturn who (SFailed E_I2S_SET_PIN)], None)
                else
                  let clk := EvI2SSetClk (sample_rate winfo) (channels winfo)
                               (i2s_set_clk_ok w) in
                  let pre := call :: inst :: EvI2SSetPin true :: clk ::
                               (if i2s_set_clk_ok w then []
                                else [EvLog LOGW MsgSetClk]) in
                  if negb (malloc_ok w (chunk_bytes winfo)) then
                    (pre ++ [EvLog LOGE (MsgStreamError E_NO_MEM);
                             EvI2SUninstall;
                             EvReturn who (SFailed E_NO_MEM)], None)
                  else
                    (pre, Some {| os_info := winfo;
                                  os_data := skipn (data_offset winfo) f;
                                  os_pos := skipn (data_offset winfo) f;
                                  os_chunk := chunk_bytes winfo |})
          end
      end
  end.

(** [fread(buf, 1, chunk_bytes, f)]. *)
Definition fread_chunk (os : open_stream) : list byte :=
  firstn (os_chunk os) (os_pos os).

(** Volume scaling and [i2s_write] of one chunk. *)
Definition write_chunk (w : World) (vol : Z) (chunk : list byte)
    : list event :=
  EvI2SWrite (apply_volume vol chunk) (i2s_write_ok w) ::
  (if i2s_write_ok w then [] else [EvLog LOGW MsgI2SWrite]).

(** The end of [stream_file_interruptible]:
    [free(buf); fclose(f); i2s_driver_uninstall(I2S_NUM_0); return true]. *)
Definition stream_close (who : caller) (r : stream_result) : list event :=
  [EvI2SUninstall; EvReturn who r].

Inductive iter_result :=
  | IterNext (os : open_stream)
  | IterExit (r : stream_result).

(** One pass through the [while (1)] body of [stream_file_interruptible].
    [stop] and [pause] are [None] for a NULL flag pointer and the value read
    through the pointer otherwise (v2 has no pause pointer). *)
Definition stream_iter (w : World) (stop pause : option bool) (vol : Z)
    (os : open_stream) : list event * iter_result :=
  match stop with
  | Some true => ([EvLog LOGI MsgInterrupted], IterExit SAborted)
  | _ =>
      match pause with
      | Some true => ([], IterNext os)
      | _ =>
          match fread_chunk os with
          | [] => ([], IterExit SCompleted)
          | chunk => (write_chunk w vol chunk, IterNext (advance os))
          end
      end
  end.

(* ------------------------------------------------------------------ *)
(** ** The system: shared variables, task locals, audio-side position *)

(** Where the audio side stands between two of its steps:
    - [PBoot]: [app_main] has not started yet;
    - [PLoop who os]: at the top of the chunk loop of the stream called by
      [who] (for [CWelcome] and [CHome] the caller is [app_main] during
      boot, before the tasks exist);
    - [PIdle]: [audio_task] at the top of its loop (v1, v2) or waiting in
      [xTaskNotifyWait] (RTOS);
    - [PTaken val] (RTOS): [xTaskNotifyWait] has returned [val] and cleared
      the notification value; the task is about to clear [stop_flag] and to
      start what [val] asks for.  The input side sets the flag that the
      task is about to clear, so the two statements are not taken as one
      step: a request may arrive between them. *)
Inductive audio_pc :=
  | PBoot
  | PIdle
  | PTaken (val : Z)
  | PLoop (who : caller) (os : open_stream).

Record system := {
  sh : shared;
  btn_play : btn_t;
  btn_home : btn_t;
  btn_volp : btn_t;
  btn_volm : btn_t;
  enc : enc_local;
  pc : audio_pc
}.

Definition with_audio (s : system) (st : shared) (p : audio_pc) : system :=
  {| sh := st; btn_play := btn_play s; btn_home := btn_home s;
     btn_volp := btn_volp s; btn_volm := btn_volm s; enc := enc s; pc := p |}.

Definition with_sh (s : system) (st : shared) : system :=
  with_audio s st (pc s).

Definition initial_system : system :=
  {| sh := initial_shared;
     btn_play := {| last_time := 0; last_state := false |};
     btn_home := {| last_time := 0; last_state := false |};
     btn_volp := {| last_time := 0; last_state := false |};
     btn_volm := {| last_time := 0; last_state := false |};
     enc := {| last_step_time := 0; last_sw_time := 0 |};
     pc := PBoot |}.

(** The result of a piece of the audio side: new shared state, new
    position, events emitted. *)
Definition outcome : Type := shared * audio_pc * list event.

Definition o_sh (o : outcome) : shared := fst (fst o).
Definition o_pc (o : outcome) : audio_pc := snd (fst o).
Definition o_evs (o : outcome) : list event := snd o.

Definition emit (evs : list event) (o : outcome) : outcome :=
  let '(st, p, evs') := o in (st, p, evs ++ evs').

(** ** Boot: the part of [app_main] before the main loop *)

(** The default folder: "01", else "audios", else index 0. *)
Fixpoint default_folder_loop (l : list string) (i found_idx : Z) : Z :=
  match l with
  | [] => found_idx
  | p :: rest =>
      let name := basename p in
      if strcasecmp_eq name "01" then i
      else if ((found_idx <? 0) && strcasecmp_eq name "audios")%bool
      then default_folder_loop rest (i + 1) i
      else default_folder_loop rest (i + 1) found_idx
  end.

Definition default_folder (l : list string) : Z :=
  let found_idx := default_folder_loop l 0 (-1) in
  if found_idx >=? 0 then found_idx else 0.

(** The tasks are created; RTOS stores the handle of [audio_task]. *)
Definition boot_finish (v : variant) (st : shared) : outcome :=
  match v with
  | RTOS => (set_audio_task_handle true st, PIdle, [])
  | _ => (st, PIdle, [])
  end.

(** [if (access("/sdcard/home.wav", F_OK) == 0)
      stream_file_interruptible("/sdcard/home.wav", NULL, NULL);] *)
Definition boot_home (v : variant) (w : World) (st : shared) : outcome :=
  if file_exists w "/sdcard/home.wav" then
    match stream_open v w CHome (Some "/sdcard/home.wav") with
    | (evs, Some os) => (st, PLoop CHome os, evs)
    | (evs, None) => emit evs (boot_finish v st)
    end
  else boot_finish v st.

Definition boot_welcome (v : variant) (w : World) (st : shared) : outcome :=
  if file_exists w "/sdcard/welcome.wav" then
    match stream_open v w CWelcome (Some "/sdcard/welcome.wav") with
    | (evs, Some os) => (st, PLoop CWelcome os, evs)
    | (evs, None) => emit evs (boot_home v w st)
    end
  else boot_home v w st.

(** [app_main] up to its first polling point. *)
Definition app_main_boot (v : variant) (w : World) (st : shared) : outcome :=
  if negb (sd_ok w) then emit [EvLog LOGE MsgSdFailed] (boot_finish v st)
  else
    let st1 := set_folder_list (scan_root_folders w "/sdcard")
                 (free_folder_list st) in
    let '(st2, evs) :=
      if num_folders st1 >? 0
      then (set_selected_folder (default_folder (folder_list st1)) st1, [])
      else (st1, [EvLog LOGW MsgNoFolders]) in
    match v with
    | V1 => emit evs (boot_finish v st2)
    | _ => emit evs (boot_welcome v w st2)
    end.

(** ** After a stream has returned *)

(** What the caller does once its stream call is over, up to its next
    polling point. *)
Definition after_stream (v : variant) (w : World) (who : caller)
    (st : shared) : outcome :=
  match who with
  | CWelcome => boot_home v w st
  | CHome => boot_finish v st
  | CAnn => (st, PIdle, [])
  | CTrk idx =>
      match v with
      | V1 => (st, PIdle, [])
      | V2 =>
          if announce_request st
          then (set_playing_track (-1) (set_g_playing false st), PIdle, [])
          else (st, PIdle, [])
      | RTOS =>
          (set_playing_track (-1) (set_g_playing false st), PIdle,
           [EvLog LOGI (if stop_flag st then MsgPlaybackInterrupted
                        else MsgPlaybackFinished idx)])
      end
  end.

(** A call of [stream_file_interruptible] up to the first polling point:
    either the top of its loop, or (when it returned [false]) the next
    polling point of the caller. *)
Definition call_stream (v : variant) (w : World) (who : caller)
    (path : option string) (st : shared) : outcome :=
  match stream_open v w who path with
  | (evs, Some os) => (st, PLoop who os, evs)
  | (evs, None) => emit evs (after_stream v w who st)
  end.

(** The flags a stream polls, by caller: the values behind
    [stop_flag_ptr] and [pause_flag_ptr], [None] for NULL. *)
Definition stop_value (v : variant) (who : caller) (st : shared)
    : option bool :=
  match who with
  | CWelcome | CHome => None
  | _ =>
      match v with
      | V1 => None
      | V2 => Some (announce_request st)
      | RTOS => Some (stop_flag st)
      end
  end.

Definition pause_value (v : variant) (who : caller) (st : shared)
    : option bool :=
  match v, who with
  | RTOS, CTrk _ => Some (g_pause st)
  | _, _ => None
  end.

(** One pass through the chunk loop of [stream_file_interruptible] (v2,
    RTOS), followed by the return to the caller when the loop ends. *)
Definition stream_step (v : variant) (w : World) (who : caller)
    (os : open_stream) (st : shared) : outcome :=
  match stream_iter w (stop_value v who st) (pause_value v who st)
          (g_volume_percent st) os with
  | (evs, IterNext os') => (st, PLoop who os', evs)
  | (evs, IterExit r) =>
      emit (evs ++ stream_close who r) (after_stream v w who st)
  end.

(** ** [audio_task], v1: inline streaming that loops the file *)

Definition v1_idle (w : World) (st : shared) : outcome :=
  if negb (g_playing st) then (st, PIdle, [])
  else if negb (nav_eqb (nav_state st) NAV_FILE_VIEW) then
    (set_playing_track (-1) (set_g_playing false st), PIdle, [])
  else if num_tracks st =? 0 then (st, PIdle, [])
  else
    let idx := playing_track st in
    if ((idx <? 0) || (idx >=? num_tracks st))%bool then
      (set_playing_track (-1) (set_g_playing false st), PIdle,
       [EvLog LOGW (MsgInvalidIndex idx)])
    else
      match stream_open V1 w (CTrk idx)
              (Some (at_index (wav_list st) idx)) with
      | (evs, Some os) => (st, PLoop (CTrk idx) os, evs)
      | (evs, None) => (st, PIdle, evs)
      end.

(** One pass through [while (g_playing) {...}] of v1. *)
Definition v1_loop (w : World) (who : caller) (os : open_stream)
    (st : shared) : outcome :=
  if negb (g_playing st) then (st, PIdle, stream_close who SAborted)
  else if track_change_request st then
    (set_track_change_request false st, PIdle,
     EvLog LOGI MsgTrackChange :: stream_close who SAborted)
  else
    let '(st1, os1, evs1) :=
      if g_stop_and_rewind st
      then (set_g_stop_and_rewind false st, rewind os, [EvLog LOGI MsgStopRewind])
      else (st, os, []) in
    if g_pause st1 then (st1, PLoop who os1, evs1)
    else
      match fread_chunk os1 with
      | [] => (st1, PLoop who (rewind os1), evs1)
      | chunk =>
          (st1, PLoop who (advance os1),
           evs1 ++ write_chunk w (g_volume_percent st1) chunk)
      end.

(** ** [audio_task], v2: announcements first, polled through
       [announce_request] *)

Definition v2_idle (w : World) (st : shared) : outcome :=
  if announce_request st then
    let local_ann := strncpy_buf ANNOUNCE_PATH_MAX (announce_path st) in
    let st1 := set_g_playing false
                 (set_track_change_request false
                    (set_announce_request false st)) in
    emit [EvLog LOGI (MsgAnnounce local_ann)]
      (call_stream V2 w CAnn (Some local_ann) st1)
  else if g_playing st then
    if negb (nav_eqb (nav_state st) NAV_FILE_VIEW) then
      (set_playing_track (-1) (set_g_playing false st), PIdle, [])
    else if num_tracks st =? 0 then (set_g_playing false st, PIdle, [])
    else
      let idx := playing_track st in
      if ((idx <? 0) || (idx >=? num_tracks st))%bool then
        (set_playing_track (-1) (set_g_playing false st), PIdle,
         [EvLog LOGW (MsgInvalidIndex idx)])
      else
        emit [EvLog LOGI (MsgStartTrack idx)]
          (call_stream V2 w (CTrk idx) (Some (at_index (wav_list st) idx)) st)
  else (st, PIdle, []).

(** ** [audio_task], RTOS: driven by the notification value *)

Definition rtos_idle (w : World) (st : shared) : outcome :=
  let val := notify st in
  if val =? 0 then (st, PIdle, [])       (* still blocked in xTaskNotifyWait *)
  else (set_notify 0 st, PTaken val, []). (* ulBitsToClearOnExit = 0xFFFFFFFF *)

(** The body of the loop once [xTaskNotifyWait] has returned [val]. *)
Definition rtos_taken (w : World) (val : Z) (st : shared) : outcome :=
  if negb (Z.land val NOTIFY_ANNOUNCE_BIT =? 0) then
    let local_ann := strncpy_buf ANNOUNCE_PATH_MAX (announce_path st) in
    let st1 := set_stop_flag false st in
    emit [EvLog LOGI (MsgAnnounce local_ann)]
      (call_stream RTOS w CAnn (Some local_ann) st1)
  else
    let idx := wrap_i32 val - 1 in
    if ((idx <? 0) || (idx >=? num_tracks st))%bool then
      (st, PIdle, [EvLog LOGW (MsgInvalidIndex idx)])
    else
      let st1 := set_g_pause false
                   (set_g_playing true
                      (set_playing_track idx (set_stop_flag false st))) in
      emit [EvLog LOGI (MsgStartTrack idx)]
        (call_stream RTOS w (CTrk idx)
           (Some (at_index (wav_list st1) idx)) st1).

(** ** One step of the audio side *)

Definition audio_outcome (v : variant) (w : World) (s : system) : outcome :=
  match pc s with
  | PBoot => app_main_boot v w (sh s)
  | PIdle =>
      match v with
      | V1 => v1_idle w (sh s)
      | V2 => v2_idle w (sh s)
      | RTOS => rtos_idle w (sh s)
      end
  | PTaken val =>
      match v with
      | RTOS => rtos_taken w val (sh s)
      | _ => (sh s, PIdle, [])
      end
  | PLoop who os =>
      match v, who with
      | V1, CTrk _ => v1_loop w who os (sh s)
      | _, _ => stream_step v w who os (sh s)
      end
  end.

Definition audio_step (v : variant) (w : World) (s : system)
    : system * list event :=
  let o := audio_outcome v w s in
  (with_audio s (o_sh o) (o_pc o), o_evs o).

(** ** One step of the input side *)

Inductive button := BTN_PLAY_PAUSE | BTN_HOME | BTN_VOL_UP | BTN_VOL_DOWN.

(** The main loop and [encoder_task] run once [app_main] has created the
    tasks, that is after the boot streams. *)
Definition booted (s : system) : bool :=
  match pc s with
  | PBoot | PLoop CWelcome _ | PLoop CHome _ => false
  | _ => true
  end.

(** One [if (read_button_press(&btn)) {...}] of the main loop. *)
Definition poll_button (v : variant) (w : World) (b : button) (lvl : bool)
    (t : Z) (s : system) : system :=
  match b with
  | BTN_PLAY_PAUSE =>
      let '(pressed, b') := read_button_press lvl t (btn_play s) in
      {| sh := if pressed then on_play_pause v w (sh s) else sh s;
         btn_play := b'; btn_home := btn_home s; btn_volp := btn_volp s;
         btn_volm := btn_volm s; enc := enc s; pc := pc s |}
  | BTN_HOME =>
      let '(pressed, b') := read_button_press lvl t (btn_home s) in
      {| sh := if pressed then on_home v w (sh s) else sh s;
         btn_play := btn_play s; btn_home := b'; btn_volp := btn_volp s;
         btn_volm := btn_volm s; enc := enc s; pc := pc s |}
  | BTN_VOL_UP =>
      let '(pressed, b') := read_button_press lvl t (btn_volp s) in
      {| sh := if pressed then on_vol_up (sh s) else sh s;
         btn_play := btn_play s; btn_home := btn_home s; btn_volp := b';
         btn_volm := btn_volm s; enc := enc s; pc := pc s |}
  | BTN_VOL_DOWN =>
      let '(pressed, b') := read_button_press lvl t (btn_volm s) in
      {| sh := if pressed then on_vol_down (sh s) else sh s;
         btn_play := btn_play s; btn_home := btn_home s;
         btn_volp := btn_volp s; btn_volm := b'; enc := enc s; pc := pc s |}
  end.

Definition encoder_step (v : variant) (w : World) (ev : enc_evt_t) (now : Z)
    (s : system) : system :=
  let '(el, st) := encoder_task v w ev now (enc s) (sh s) in
  {| sh := st; btn_play := btn_play s; btn_home := btn_home s;
     btn_volp := btn_volp s; btn_volm := btn_volm s; enc := el; pc := pc s |}.

(** ** Interleavings *)

Inductive label :=
  | LAudio (w : World)
  | LButton (w : World) (b : button) (lvl : bool) (t : Z)
  | LEncoder (w : World) (ev : enc_evt_t) (now : Z).

(** One step of the system.  A button poll or a queue event runs its
    handler from the first statement to the last; what another task reads
    or writes in the middle of a handler is not a step here (for the
    volume handlers see [vol_step]). *)
Definition sys_step (v : variant) (l : label) (s : system)
    : system * list event :=
  match l with
  | LAudio w => audio_step v w s
  | LButton w b lvl t =>
      if booted s then (poll_button v w b lvl t s, []) else (s, [])
  | LEncoder w ev now =>
      if booted s then (encoder_step v w ev now s, []) else (s, [])
  end.

Fixpoint run (v : variant) (ls : list label) (s : system)
    : system * list event :=
  match ls with
  | [] => (s, [])
  | l :: rest =>
      let '(s1, evs1) := sys_step v l s in
      let '(s2, evs2) := run v rest s1 in
      (s2, evs1 ++ evs2)
  end.

Definition reachable (v : variant) (s : system) : Prop :=
  exists ls, fst (run v ls initial_system) = s.

(** ** Interleavings inside the volume handlers

    [sys_step] runs a handler of the input side from its first statement
    to its last.  The audio task (priority 5, any core) can run between
    two statements of a handler of the main loop (priority 1), and it
    reads [g_volume_percent] for every chunk.  The steps below stop a
    volume handler between its two stores:
    - [MLoop]: the main loop is between two handlers;
    - [MVolUp], [MVolDown]: a press of Vol+ (Vol-) was detected and the
      sum is stored; the clamp has not run yet.
    While the main loop stands inside a handler it polls no button; the
    audio task and [encoder_task] run as before. *)
Inductive main_pc := MLoop | MVolUp | MVolDown.

Record vsystem := { vsys : system; vpc : main_pc }.

Definition at_loop (s : system) : vsystem := {| vsys := s; vpc := MLoop |}.

Inductive vlabel :=
  | VStep (l : label)
  | VClamp.

(** A poll of Vol+ or Vol- up to the first store of the handler. *)
Definition poll_volume_add (b : button) (lvl : bool) (t : Z) (s : system)
    : option vsystem :=
  match b with
  | BTN_VOL_UP =>
      let '(pressed, b') := read_button_press lvl t (btn_volp s) in
      if pressed then
        Some {| vsys :=
                  {| sh := vol_up_add (sh s);
                     btn_play := btn_play s; btn_home := btn_home s;
                     btn_volp := b'; btn_volm := btn_volm s; enc := enc s;
                     pc := pc s |};
                vpc := MVolUp |}
      else None
  | BTN_VOL_DOWN =>
      let '(pressed, b') := read_button_press lvl t (btn_volm s) in
      if pressed then
        Some {| vsys :=
                  {| sh := vol_down_add (sh s);
                     btn_play := btn_play s; btn_home := btn_home s;
                     btn_volp := btn_volp s; btn_volm := b'; enc := enc s;
                     pc := pc s |};
                vpc := MVolDown |}
      else None
  | _ => None
  end.

Definition vol_step (v : variant) (l : vlabel) (s : vsystem)
    : vsystem * list event :=
  match l with
  | VStep (LButton w b lvl t) =>
      match vpc s with
      | MLoop =>
          if booted (vsys s) then
            match poll_volume_add b lvl t (vsys s) with
            | Some s' => (s', [])
            | None => (at_loop (poll_button v w b lvl t (vsys s)), [])
            end
          else (s, [])
      | _ => (s, [])
      end
  | VStep l =>
      let '(s', evs) := sys_step v l (vsys s) in
      ({| vsys := s'; vpc := vpc s |}, evs)
  | VClamp =>
      match vpc s with
      | MLoop => (s, [])
      | MVolUp => (at_loop (with_sh (vsys s) (vol_up_clamp (sh (vsys s)))), [])
      | MVolDown =>
          (at_loop (with_sh (vsys s) (vol_down_clamp (sh (vsys s)))), [])
      end
  end.

Fixpoint vol_run (v : variant) (ls : list vlabel) (s : vsystem)
    : vsystem * list event :=
  match ls with
  | [] => (s, [])
  | l :: rest =>
      let '(s1, evs1) := vol_step v l s in
      let '(s2, evs2) := vol_run v rest s1 in
      (s2, evs1 ++ evs2)
  end.

Definition vol_reachable (v : variant) (s : vsystem) : Prop :=
  exists ls, fst (vol_run v ls (at_loop initial_system)) = s.

(** A run of [sys_step] as a run of [vol_step]: every handler is followed
    at once by its clamp. *)
Definition whole_handlers (ls : list label) : list vlabel :=
  flat_map (fun l => [VStep l; VClamp]) ls.

(** The range of the volume at each position of the main loop. *)
Definition volume_bounds (s : vsystem) : Prop :=
  match vpc s with
  | MLoop => 0 <= g_volume_percent (sh (vsys s)) <= 200
  | MVolUp => 10 <= g_volume_percent (sh (vsys s)) <= 210
  | MVolDown => -10 <= g_volume_percent (sh (vsys s)) <= 190
  end.

(** A volume button pressed and released [n] times from [t0] on, one press
    every 100 ms, each handler run whole. *)
Fixpoint volume_presses (w : World) (b : button) (n : nat) (t0 : Z)
    : list vlabel :=
  match n with
  | O => []
  | S n' =>
      VStep (LButton w b true t0) :: VClamp
      :: VStep (LButton w b false (t0 + 50))
      :: volume_presses w b n' (t0 + 100)
  end.

(** Boot, ten presses of the volume button [b], then folder "01" is entered
    and track 0 requested; the audio task takes the request and opens the
    stream, and stands at the top of the chunk loop.  There the main loop
    detects one more press of [b] and executes the first statement of its
    handler. *)
Definition volume_press_while_playing (w : World) (b : button)
    : list vlabel :=
  VStep (LAudio w) :: volume_presses w b 10 100
  ++ map VStep
       [LButton w BTN_PLAY_PAUSE true 1100; LButton w BTN_PLAY_PAUSE false 1150;
        LButton w BTN_PLAY_PAUSE true 1200; LButton w BTN_PLAY_PAUSE false 1250;
        LButton w BTN_PLAY_PAUSE true 1300;
        LAudio w; LAudio w;
        LButton w b true 1400].

(* ------------------------------------------------------------------ *)
(** ** Observers used by the statements *)

(** *** The audio output as a test double

    The double tracks which stream call is open and whether the I2S driver
    is installed, and refuses (answers [None] to) any event that overlaps
    another stream: a call while a call is open, an install while
    installed, a write or an uninstall while not installed, a return with
    the driver still installed. *)
Record dev_state := { in_call : option caller; installed : bool }.

Definition dev_idle : dev_state := {| in_call := None; installed := false |}.
Definition dev_busy (who : caller) : dev_state :=
  {| in_call := Some who; installed := true |}.

Definition caller_eqb (a b : caller) : bool :=
  match a, b with
  | CWelcome, CWelcome | CHome, CHome | CAnn, CAnn => true
  | CTrk i, CTrk j => i =? j
  | _, _ => false
  end.

Definition monitor_step (d : dev_state) (e : event) : option dev_state :=
  match e with
  | EvCall who _ =>
      match in_call d with
      | None => if installed d then None
                else Some {| in_call := Some who; installed := false |}
      | Some _ => None
      end
  | EvReturn who _ =>
      match in_call d with
      | Some who' =>
          if (caller_eqb who who' && negb (installed d))%bool
          then Some dev_idle else None
      | None => None
      end
  | EvI2SInstall _ _ ok =>
      match in_call d with
      | Some who => if installed d then None
                    else Some {| in_call := Some who; installed := ok |}
      | None => None
      end
  | EvI2SSetPin _ | EvI2SSetClk _ _ _ | EvI2SWrite _ _ =>
      if installed d then Some d else None
  | EvI2SUninstall =>
      if installed d
      then Some {| in_call := in_call d; installed := false |}
      else None
  | EvLog _ _ => Some d
  end.

Fixpoint monitor (d : dev_state) (tr : list event) : option dev_state :=
  match tr with
  | [] => Some d
  | e :: rest =>
      match monitor_step d e with
      | Some d' => monitor d' rest
      | None => None
      end
  end.

(** What the double must show at a polling point. *)
Definition dev_of_pc (p : audio_pc) : dev_state :=
  match p with
  | PLoop who _ => dev_busy who
  | _ => dev_idle
  end.

(** *** Announcements and playback in a trace *)

(** An announcement is pending: the flag of v2, the notification bit of
    RTOS. *)
Definition announce_pending (v : variant) (st : shared) : bool :=
  match v with
  | V1 => false
  | V2 => announce_request st
  | RTOS => Z.testbit (notify st) 31
  end.

Definition is_track (who : caller) : bool :=
  match who with CTrk _ => true | _ => false end.

Definition is_call (e : event) : bool :=
  match e with EvCall _ _ => true | _ => false end.
Definition is_track_call (e : event) : bool :=
  match e with EvCall (CTrk _) _ => true | _ => false end.
Definition is_write (e : event) : bool :=
  match e with EvI2SWrite _ _ => true | _ => false end.

Definition in_track_stream (s : system) : bool :=
  match pc s with PLoop (CTrk _) _ => true | _ => false end.

(** A step of the audio side starts or continues playback of a track: it
    calls the stream for a track, or writes a chunk of a track's stream. *)
Definition plays_track (s : system) (evs : list event) : bool :=
  (existsb is_track_call evs
   || (in_track_stream s && existsb is_write evs))%bool.

(** At this poll the chunk loop reaches its [fread] (it is neither stopped
    nor paused). *)
Definition reads_chunk (v : variant) (who : caller) (st : shared) : bool :=
  match v, who with
  | V1, CTrk _ =>
      (g_playing st && negb (track_change_request st) && negb (g_pause st))%bool
  | _, _ =>
      (match stop_value v who st with Some true => false | _ => true end
       && match pause_value v who st with Some true => false | _ => true end)%bool
  end.





(** *** Bursts of rotary steps *)

(** The rotary steps received at the times [times], in order, by
    [encoder_task]; [dt] is their direction bit. *)
Fixpoint rotary_burst (v : variant) (w : World) (dt : Z) (times : list Z)
    (el : enc_local) (st : shared) : enc_local * shared :=
  match times with
  | [] => (el, st)
  | now :: rest =>
      let '(el1, st1) :=
        encoder_task v w {| ev_type := ENC_EVT_CLK; dt_level := dt |} now el st in
      rotary_burst v w dt rest el1 st1
  end.

(** How many of them pass the debounce test. *)
Fixpoint accepted_steps (last : Z) (times : list Z) : nat :=
  match times with
  | [] => O
  | now :: rest =>
      if step_accepted last now then S (accepted_steps now rest)
      else accepted_steps last rest
  end.

(** The times lie in one window of [ENC_STEP_DEBOUNCE_MS]: they are in
    order and the last one is less than 60 ms after the first. *)
Fixpoint in_window (t0 prev : Z) (times : list Z) : Prop :=
  match times with
  | [] => True
  | t :: rest => prev <= t /\ t - t0 < ENC_STEP_DEBOUNCE_MS /\ in_window t0 t rest
  end.

(** *** The story clip, in the words of the specification (section 4.4)

    A track file name whose first character is 'S' or 's' followed by a
    decimal digit [n] identifies the clip [story<n>.wav], looked up first
    at the storage root, then inside the track's own folder; the first that
    exists is requested, otherwise none. *)
Definition story_clip_spec (w : World) (folder name : string)
    : option string :=
  match name with
  | String c0 (String c1 _) =>
      if ((Ascii.eqb c0 "S" || Ascii.eqb c0 "s") && isdigit c1)%bool then
        let clip := ("story" ++ String c1 ".wav")%string in
        List.find (file_exists w)
          [("/sdcard/" ++ clip)%string; (folder ++ "/" ++ clip)%string]
      else None
  | _ => None
  end.

(** *** The story clip that the announcement block requests

    C8 as amended: the clip at the storage root is requested whenever it
    exists; the clip in the track's own folder is looked for only when the
    root has none, the folder path is shorter than [ANNOUNCE_PATH_MAX]
    bytes and the buffer of the candidate path (the folder path, the
    separator, the twelve bytes of [story<n>.wav] with its NUL) can be
    allocated. *)
Definition story_clip_found (w : World) (folder name : string)
    : option string :=
  match name with
  | String c0 (String c1 _) =>
      if ((Ascii.eqb c0 "S" || Ascii.eqb c0 "s") && isdigit c1)%bool then
        let clip := ("story" ++ String c1 ".wav")%string in
        if file_exists w ("/sdcard/" ++ clip)%string
        then Some ("/sdcard/" ++ clip)%string
        else if (Nat.ltb (String.length folder) 256
                 && malloc_ok w (String.length folder + 12))%bool
        then if file_exists w (folder ++ "/" ++ clip)%string
             then Some (folder ++ "/" ++ clip)%string
             else None
        else None
      else None
  | _ => None
  end.

(* ------------------------------------------------------------------ *)
(** ** Fixtures for the worked examples *)

Definition le_bytes (n : nat) (z : Z) : list byte :=
  map (fun i => z_byte (z / 256 ^ Z.of_nat i)) (seq 0 n).

(** A 44-byte RIFF/WAVE header, 8000 Hz. *)
Definition wav_header (chans bits size : Z) : list byte :=
  ["R"; "I"; "F"; "F"]%byte ++ le_bytes 4 (36 + size) ++
  ["W"; "A"; "V"; "E"; "f"; "m"; "t"; " "]%byte ++ le_bytes 4 16 ++
  le_bytes 2 1 ++ le_bytes 2 chans ++ le_bytes 4 8000 ++
  le_bytes 4 (8000 * chans * (bits / 8)) ++ le_bytes 2 (chans * (bits / 8)) ++
  le_bytes 2 bits ++ ["d"; "a"; "t"; "a"]%byte ++ le_bytes 4 size.

Definition wav_file (chans bits : Z) (data : list byte) : list byte :=
  wav_header chans bits (Z.of_nat (List.length data)) ++ data.

Fixpoint lookup {A : Type} (k : string) (l : list (string * A)) : option A :=
  match l with
  | [] => None
  | (k', a) :: rest => if String.eqb k k' then Some a else lookup k rest
  end.

(** A card with the given files and directories; the heap and the I2S
    driver never fail. *)
Definition card (files : list (string * list byte))
    (dirs : list (string * list dirent)) : World :=
  {| sd_ok := true;
     file_exists := fun p => match lookup p files with Some _ => true | None => false end;
     file_bytes := fun p => lookup p files;
     list_dir := fun p => lookup p dirs;
     stat_mode := fun _ => None;
     malloc_ok := fun _ => true;
     i2s_install_ok := true; i2s_set_pin_ok := true;
     i2s_set_clk_ok := true; i2s_write_ok := true |}.

Definition no_heap (w : World) : World :=
  {| sd_ok := sd_ok w; file_exists := file_exists w;
     file_bytes := file_bytes w; list_dir := list_dir w;
     stat_mode := stat_mode w; malloc_ok := fun _ => false;
     i2s_install_ok := i2s_install_ok w; i2s_set_pin_ok := i2s_set_pin_ok w;
     i2s_set_clk_ok := i2s_set_clk_ok w; i2s_write_ok := i2s_write_ok w |}.

Definition reg (name : string) : dirent := {| d_name := name; d_type := DT_REG |}.
Definition dir (name : string) : dirent := {| d_name := name; d_type := DT_DIR |}.

Definition four_bytes : list byte := ["1"; "2"; "3"; "4"]%byte.

(** A card with one folder "01" holding S1.wav, S2.wav (8-bit, so not
    playable) and other.wav, and the clip story1.wav at the root. *)
Definition demo_card : World :=
  card [("/sdcard/01/S1.wav", wav_file 1 16 four_bytes);
        ("/sdcard/01/S2.wav", wav_file 1 8 four_bytes);
        ("/sdcard/01/other.wav", wav_file 1 16 four_bytes);
        ("/sdcard/story1.wav", wav_file 1 16 four_bytes)]
       [("/sdcard", [dir "00"; dir "01"]);
        ("/sdcard/01", [reg "S1.wav"; reg "S2.wav"; reg "other.wav"])].

Definition clk (dt : Z) : enc_evt_t := {| ev_type := ENC_EVT_CLK; dt_level := dt |}.
Definition sw : enc_evt_t := {| ev_type := ENC_EVT_SW; dt_level := 0 |}.

(* ------------------------------------------------------------------ *)
(** ** Further vocabulary of the statements, and fixtures *)

(** The catalog: both lists. *)
Definition catalog (st : shared) : list string * list string :=
  (folder_list st, wav_list st).

Definition catalog_bounded (st : shared) : Prop :=
  (List.length (folder_list st) <= MAX_FOLDERS)%nat
  /\ (List.length (wav_list st) <= MAX_WAV_FILES)%nat.

Definition many_dirs (n : nat) : list dirent :=
  map (fun i => dir (String (ascii_of_nat (48 + i)) EmptyString)) (seq 0 n).

(** The shared variables other than the announcement path and the words
    that signal the audio task. *)
Definition other_fields (st : shared) :=
  (nav_state st, g_pause st, g_playing st, playing_track st,
   g_volume_percent st, folder_list st, selected_folder st, wav_list st,
   current_track st, track_change_request st, g_stop_and_rewind st,
   audio_task_handle st).

Fixpoint string_repeat (c : ascii) (n : nat) : string :=
  match n with
  | O => EmptyString
  | S n' => String c (string_repeat c n')
  end.

(** A card that has [story1.wav] only inside a folder whose path is 256
    bytes long. *)
Definition long_folder : string := string_repeat "a" 256.
Definition long_folder_card : World :=
  card [((long_folder ++ "/story1.wav")%string, wav_file 1 16 four_bytes)] [].

(** A card that has [story1.wav] only inside the folder "/sdcard/02". *)
Definition folder_clip_card : World :=
  card [("/sdcard/02/story1.wav", wav_file 1 16 four_bytes)] [].

(** The card [long_folder_card] with [story1.wav] at the root as well. *)
Definition long_folder_root_card : World :=
  card [("/sdcard/story1.wav", wav_file 1 16 four_bytes);
        ((long_folder ++ "/story1.wav")%string, wav_file 1 16 four_bytes)] [].

(** A card that has [story1.wav] only inside a folder whose path is 250
    bytes long: the path of the clip has 261 bytes. *)
Definition mid_folder : string :=
  ("/sdcard/" ++ string_repeat "a" 242)%string.
Definition mid_folder_card : World :=
  card [((mid_folder ++ "/story1.wav")%string, wav_file 1 16 four_bytes)] [].

Definition is_abort (e : event) : bool :=
  match e with EvReturn _ SAborted => true | _ => false end.

(** The stream in progress has not been told to stop. *)
Definition not_stopped (v : variant) (st : shared) : Prop :=
  match v with
  | V1 => g_playing st = true /\ track_change_request st = false
  | V2 => announce_request st = false
  | RTOS => stop_flag st = false
  end.

(** The RTOS system after boot on the demo card, in the folder "01", with
    track 0 playing: Play/Pause pressed at 100 ms, 200 ms and 300 ms; the
    last press stops the announcement of the track and starts the track. *)
Definition demo_playing : system :=
  fst (run RTOS [LAudio demo_card;
                 LButton demo_card BTN_PLAY_PAUSE true 100;
                 LButton demo_card BTN_PLAY_PAUSE false 150;
                 LButton demo_card BTN_PLAY_PAUSE true 200;
                 LAudio demo_card; LAudio demo_card;
                 LButton demo_card BTN_PLAY_PAUSE false 250;
                 LButton demo_card BTN_PLAY_PAUSE true 300;
                 LAudio demo_card; LAudio demo_card; LAudio demo_card]
         initial_system).

(** At a poll where the chunk loop reads and the read yields no byte, the
    step ends the stream: it returns [SCompleted] (the function returns
    [true]), writes nothing more, and the audio side is no longer in the
    loop of that stream. *)
Definition eof_ends_stream (v : variant) : Prop :=
  forall w s who os,
    pc s = PLoop who os ->
    reads_chunk v who (sh s) = true ->
    fread_chunk os = [] ->
    In (EvReturn who SCompleted) (snd (audio_step v w s))
    /\ existsb is_write (snd (audio_step v w s)) = false
    /\ (forall os', pc (fst (audio_step v w s)) <> PLoop who os').

(** Boot on the demo card, enter the folder "01" and request track 0:
    Play/Pause at 100 ms, 200 ms and 300 ms.  Then the audio side runs
    until the four data bytes of S1.wav have been written once and it
    stands at the top of the chunk loop. *)
Definition enter_and_play (w : World) : list label :=
  [LAudio w;
   LButton w BTN_PLAY_PAUSE true 100; LButton w BTN_PLAY_PAUSE false 150;
   LButton w BTN_PLAY_PAUSE true 200; LButton w BTN_PLAY_PAUSE false 250;
   LButton w BTN_PLAY_PAUSE true 300].

(** Folder 01 is entered and its first clip plays out; the rotary encoder
    steps back to other.wav (track 2) and Play/Pause requests it; the audio
    task returns from [xTaskNotifyWait] with that request. *)
Definition wake_then_request (w : World) : list label :=
  [LAudio w;
   LButton w BTN_PLAY_PAUSE true 100; LButton w BTN_PLAY_PAUSE false 150;
   LButton w BTN_PLAY_PAUSE true 200; LButton w BTN_PLAY_PAUSE false 250;
   LAudio w; LAudio w; LAudio w; LAudio w;
   LEncoder w (clk 1) 400;
   LButton w BTN_PLAY_PAUSE true 500;
   LAudio w].

Definition rtos_woken : system :=
  fst (run RTOS (wake_then_request demo_card) initial_system).

(** The stream of S1.wav on the demo card, with [pos] left to read. *)
Definition demo_stream (pos : list byte) : open_stream :=
  {| os_info := {| sample_rate := 8000; bits_per_sample := 16; channels := 1;
                   data_size := 4; data_offset := 44 |};
     os_data := four_bytes; os_pos := pos; os_chunk := 2048 |}.

Definition v1_at_eof : system :=
  fst (run V1 (enter_and_play demo_card ++
               [LAudio demo_card; LAudio demo_card; LAudio demo_card;
                LAudio demo_card]) initial_system).

Definition rtos_at_eof : system :=
  fst (run RTOS (enter_and_play demo_card ++
                 [LAudio demo_card; LAudio demo_card; LAudio demo_card])
         initial_system).





(** From the state [d] the events of the outcome are accepted and leave the
    double in the state that goes with the new position. *)
Definition accepted_from (d : dev_state) (o : outcome) : Prop :=
  monitor d (o_evs o) = Some (dev_of_pc (o_pc o)).

(** The words through which an announcement is requested and a stream is
    stopped. *)
Definition signals (st : shared) : bool * bool * Z * string :=
  (announce_request st, stop_flag st, notify st, announce_path st).

(** What the input side may do to them: it never clears
    [announce_request], and it never clears [stop_flag]; when it leaves
    [stop_flag] clear it leaves the notification value alone. *)
Definition input_rel (st st' : shared) : Prop :=
  (announce_request st' = true \/ announce_request st' = announce_request st)
  /\ (stop_flag st' = true
      \/ (stop_flag st' = stop_flag st /\ notify st' = notify st)).

Definition inputs_only (ls : list label) : bool :=
  forallb (fun l => match l with LAudio _ => false | _ => true end) ls.
(* ------------------------------------------------------------------ *)
(** ** Runs of one input source *)

(** Successive calls of [read_button_press] on one button: each sample is
    the level and the tick time read by one call. *)
Fixpoint button_polls (samples : list (bool * Z)) (b : btn_t)
    : list bool * btn_t :=
  match samples with
  | [] => ([], b)
  | (lvl, t) :: rest =>
      let '(pressed, b1) := read_button_press lvl t b in
      let '(ps, b2) := button_polls rest b1 in
      (pressed :: ps, b2)
  end.

(** The tick times of the calls that reported a press. *)
Fixpoint press_times (samples : list (bool * Z)) (b : btn_t) : list Z :=
  match samples with
  | [] => []
  | (lvl, t) :: rest =>
      let '(pressed, b1) := read_button_press lvl t b in
      if pressed then t :: press_times rest b1 else press_times rest b1
  end.

(** The tick clock does not run backwards, and stays within one period
    ([2^32] ms) of [t0]. *)
Fixpoint ticks_from (t0 prev : Z) (samples : list (bool * Z)) : Prop :=
  match samples with
  | [] => True
  | (_, t) :: rest => prev <= t /\ t - t0 < 2 ^ 32 /\ ticks_from t0 t rest
  end.

(** Each time is more than [gap] after the one before. *)
Fixpoint spaced (gap prev : Z) (ts : list Z) : Prop :=
  match ts with
  | [] => True
  | t :: rest => gap < t - prev /\ spaced gap t rest
  end.

(** Successive iterations of [encoder_task]: each item is the event
    received and the tick time read after [xQueueReceive]. *)
Fixpoint encoder_events (v : variant) (w : World)
    (evs : list (enc_evt_t * Z)) (el : enc_local) (st : shared)
    : enc_local * shared :=
  match evs with
  | [] => (el, st)
  | (ev, now) :: rest =>
      let '(el1, st1) := encoder_task v w ev now el st in
      encoder_events v w rest el1 st1
  end.

Definition is_clk (x : enc_evt_t * Z) : bool :=
  match ev_type (fst x) with ENC_EVT_CLK => true | ENC_EVT_SW => false end.

(* ------------------------------------------------------------------ *)
(** ** What a scan lists *)

(** [path/name] of a directory entry. *)
Definition entry_path (path : string) (e : dirent) : string :=
  (path ++ "/" ++ d_name e)%string.

(** The entry counts as a directory (a regular file): by its [d_type], or
    by [stat] when the type is [DT_UNKNOWN]. *)
Definition entry_is_dir (w : World) (path : string) (e : dirent) : bool :=
  match d_type e with
  | DT_DIR => true
  | DT_UNKNOWN =>
      match stat_mode w (entry_path path e) with
      | Some S_IFDIR => true
      | _ => false
      end
  | _ => false
  end.

Definition entry_is_file (w : World) (path : string) (e : dirent) : bool :=
  match d_type e with
  | DT_REG => true
  | DT_UNKNOWN =>
      match stat_mode w (entry_path path e) with
      | Some S_IFREG => true
      | _ => false
      end
  | _ => false
  end.

Definition listed_folder (w : World) (path : string) (e : dirent) : bool :=
  (negb (is_dot_entry e) && entry_is_dir w path e)%bool.

Definition listed_wav (w : World) (path : string) (e : dirent) : bool :=
  (negb (is_dot_entry e) && entry_is_file w path e
   && has_wav_ext (d_name e))%bool.

(* ------------------------------------------------------------------ *)
(** ** Vocabulary for the default folder *)

(** The index of the first element that satisfies [p]. *)
Fixpoint find_index {A : Type} (p : A -> bool) (l : list A) : option nat :=
  match l with
  | [] => None
  | a :: rest => if p a then Some O else option_map S (find_index p rest)
  end.

(** The last component of the folder's path is [name], in any letter
    case. *)
Definition folder_named (name : string) (p : string) : bool :=
  strcasecmp_eq (basename p) name.

(* ------------------------------------------------------------------ *)
(** ** Navigation state and selection indices *)

(** The variables the navigation is made of. *)
Definition nav_view (st : shared) :=
  (nav_state st, g_playing st, playing_track st, folder_list st,
   selected_folder st, wav_list st, current_track st).

(** [i] indexes an element of the array, or is 0 when the array is
    empty. *)
Definition index_ok (i : Z) (l : list string) : Prop :=
  0 <= i < Z.max 1 (Z.of_nat (List.length l)).

Definition nav_inv (st : shared) : Prop :=
  index_ok (selected_folder st) (folder_list st)
  /\ index_ok (current_track st) (wav_list st)
  /\ (nav_state st <> NAV_FILE_VIEW -> wav_list st = [])
  /\ (nav_state st <> NAV_HOME -> folder_list st <> [])
  /\ (g_playing st = true ->
      nav_state st = NAV_FILE_VIEW /\ 0 <= playing_track st < num_tracks st).

Definition sys_inv (s : system) : Prop :=
  nav_inv (sh s) /\ (pc s = PBoot -> nav_state (sh s) = NAV_HOME).

(** The effect of an accepted rotary step on the navigation variables:
    the selection of the current screen moves by one, modulo the length of
    its list ([dt_level] 0 forwards, anything else backwards). *)
Definition rotate (dt i n : Z) : Z :=
  if dt =? 0 then Z.rem (i + 1) n else Z.rem (i - 1 + n) n.


(* ------------------------------------------------------------------ *)
(** ** A whole stream *)

(** The chunks that successive [fread(buf, 1, n, f)] yield from the bytes
    [l] left in the file, up to the first empty read. *)
Fixpoint chunks_fuel (fuel n : nat) (l : list byte) : list (list byte) :=
  match fuel with
  | O => []
  | S fuel' =>
      match firstn n l with
      | [] => []
      | c => c :: chunks_fuel fuel' n (skipn n l)
      end
  end.

Definition chunks (n : nat) (l : list byte) : list (list byte) :=
  chunks_fuel (List.length l) n l.

(** The bytes handed to [i2s_write], in order. *)
Fixpoint written_bytes (evs : list event) : list byte :=
  match evs with
  | [] => []
  | EvI2SWrite data _ :: rest => data ++ written_bytes rest
  | _ :: rest => written_bytes rest
  end.

(** v1 on the demo card: S1.wav (track 0) has been started and has written
    its data once; the rotary encoder then steps back to other.wav
    (track 2). *)
Definition switch_demo : system :=
  fst (run V1 (enter_and_play demo_card ++
               [LAudio demo_card; LAudio demo_card; LAudio demo_card;
                LAudio demo_card; LAudio demo_card;
                LEncoder demo_card (clk 1) 400])
         initial_system).

(** v2 on the demo card with S1.wav (track 0) streaming: the clip
    story1.wav has played out, Play/Pause has requested the track, and the
    stream has been called; and the same one step later, with the data
    written and the end of the file reached. *)
Definition v2_playing : system :=
  fst (run V2 (enter_and_play demo_card ++
               [LAudio demo_card; LAudio demo_card; LAudio demo_card;
                LButton demo_card BTN_PLAY_PAUSE false 550;
                LButton demo_card BTN_PLAY_PAUSE true 600;
                LAudio demo_card])
         initial_system).

Definition v2_at_eof : system :=
  fst (run V2 [LAudio demo_card] v2_playing).

Definition is_ann_call (e : event) : bool :=
  match e with EvCall CAnn _ => true | _ => false end.

(** RTOS on the demo card, in the track list of folder 01 with other.wav
    (track 2) selected, nothing playing and the audio task waiting for a
    notification. *)
Definition rtos_idle_demo : system :=
  fst (run RTOS [LAudio demo_card;
                 LButton demo_card BTN_PLAY_PAUSE true 100;
                 LButton demo_card BTN_PLAY_PAUSE false 150;
                 LButton demo_card BTN_PLAY_PAUSE true 200;
                 LButton demo_card BTN_PLAY_PAUSE false 250;
                 LAudio demo_card; LAudio demo_card; LAudio demo_card;
                 LAudio demo_card;
                 LEncoder demo_card (clk 1) 400]
         initial_system).

(** The device after a boot that found no folder (or no card): idle on the
    home screen, nothing requested. *)
Definition inert (s : system) : Prop :=
  pc s = PIdle /\ folder_list (sh s) = [] /\ nav_state (sh s) = NAV_HOME
  /\ g_playing (sh s) = false /\ announce_request (sh s) = false
  /\ notify (sh s) = 0.

(** The same world with [init_sd] failing. *)
Definition no_card (w : World) : World :=
  {| sd_ok := false; file_exists := file_exists w;
     file_bytes := file_bytes w; list_dir := list_dir w;
     stat_mode := stat_mode w; malloc_ok := malloc_ok w;
     i2s_install_ok := i2s_install_ok w; i2s_set_pin_ok := i2s_set_pin_ok w;
     i2s_set_clk_ok := i2s_set_clk_ok w; i2s_write_ok := i2s_write_ok w |}.

(** v2 on the demo card with the clip story1.wav streaming: folder 01 has
    just been entered. *)
Definition v2_announcing : system :=
  fst (run V2 [LAudio demo_card;
               LButton demo_card BTN_PLAY_PAUSE true 100;
               LButton demo_card BTN_PLAY_PAUSE false 150;
               LButton demo_card BTN_PLAY_PAUSE true 200;
               LAudio demo_card]
         initial_system).

(** v1 on the demo card, in the track list of folder 01 with S1.wav
    selected and nothing playing. *)
Definition v1_selected : system :=
  fst (run V1 [LAudio demo_card;
               LButton demo_card BTN_PLAY_PAUSE true 100;
               LButton demo_card BTN_PLAY_PAUSE false 150;
               LButton demo_card BTN_PLAY_PAUSE true 200;
               LAudio demo_card]
         initial_system).

(* ================================================================== *)
(** * Verification *)

(** ** Machine integers and volume *)

Lemma wrap_i32_id (z : Z) : in_i32 z -> wrap_i32 z = z.
Proof.
  unfold in_i32, wrap_i32. intros H.
  rewrite Z.mod_small; lia.
Qed.

Lemma wrap_i16_id (z : Z) : in_i16 z -> wrap_i16 z = z.
Proof.
  unfold in_i16, wrap_i16. intros H.
  rewrite Z.mod_small; lia.
Qed.

Lemma wrap_i16_range (z : Z) : in_i16 (wrap_i16 z).
Proof.
  unfold in_i16, wrap_i16.
  pose proof (Z.mod_pos_bound (z + 2 ^ 15) (2 ^ 16) ltac:(lia)). lia.
Qed.

Lemma clip16_range (s : Z) : in_i16 (clip16 s).
Proof.
  unfold clip16.
  destruct (s >? 32767) eqn:Hhi; [unfold in_i16; lia|].
  destruct (s <? -32768) eqn:Hlo; [unfold in_i16; lia|].
  apply wrap_i16_range.
Qed.

(** [clip16] is the clamp to the int16 range. *)
Lemma clip16_clamp (s : Z) : clip16 s = Z.max (-32768) (Z.min s 32767).
Proof.
  unfold clip16.
  destruct (s >? 32767) eqn:Hhi; [lia|].
  destruct (s <? -32768) eqn:Hlo; [lia|].
  rewrite wrap_i16_id; unfold in_i16; lia.
Qed.

Lemma scale_product_fits (s vol : Z) :
  in_i16 s -> 0 <= vol <= 200 -> in_i32 (s * vol).
Proof.
  unfold in_i16, in_i32. intros Hs Hv. nia.
Qed.

Lemma vol_up_min (v : Z) : 0 <= v <= 200 -> vol_up v = Z.min 200 (v + 10).
Proof.
  intros H. unfold vol_up.
  rewrite wrap_i32_id by (unfold in_i32; lia).
  destruct (v + 10 >? 200) eqn:E; lia.
Qed.

Lemma vol_down_max (v : Z) : 0 <= v <= 200 -> vol_down v = Z.max 0 (v - 10).
Proof.
  intros H. unfold vol_down.
  rewrite wrap_i32_id by (unfold in_i32; lia).
  destruct (v - 10 <? 0) eqn:E; lia.
Qed.

(** ** Frame: what the handlers leave alone *)

(** Case analysis on every test of a handler. *)
Ltac split_tests :=
  repeat match goal with
         | |- context [if ?b then _ else _] => destruct b eqn:?
         | |- context [match ?x with _ => _ end] => destruct x eqn:?
         end.

Lemma request_announcement_volume v path st :
  g_volume_percent (request_announcement v path st) = g_volume_percent st.
Proof.
  unfold request_announcement, notify_set_bits.
  destruct path, v; simpl; split_tests; reflexivity.
Qed.

Lemma announce_stories_volume v w fp st :
  g_volume_percent (announce_stories v w fp st) = g_volume_percent st.
Proof.
  unfold announce_stories.
  split_tests; auto using request_announcement_volume.
Qed.

Lemma announce_story_volume v w f st :
  g_volume_percent (announce_story v w f st) = g_volume_percent st.
Proof.
  unfold announce_story.
  split_tests; auto using request_announcement_volume.
Qed.

Lemma signal_play_volume v st :
  g_volume_percent (signal_play v st) = g_volume_percent st.
Proof.
  unfold signal_play, notify_overwrite. destruct v; simpl; split_tests; reflexivity.
Qed.

Lemma on_play_pause_volume v w st :
  g_volume_percent (on_play_pause v w st) = g_volume_percent st.
Proof.
  unfold on_play_pause, enter_folder, play_pause_file_view.
  split_tests;
    rewrite ?announce_story_volume, ?signal_play_volume; simpl;
    rewrite ?announce_stories_volume; reflexivity.
Qed.

Lemma on_home_volume v w st :
  g_volume_percent (on_home v w st) = g_volume_percent st.
Proof.
  unfold on_home.
  split_tests; rewrite ?request_announcement_volume; reflexivity.
Qed.

Lemma on_enc_step_volume v w dt st :
  g_volume_percent (on_enc_step v w dt st) = g_volume_percent st.
Proof.
  unfold on_enc_step.
  destruct (nav_state st); destruct (_ >? 0);
    rewrite ?announce_stories_volume, ?announce_story_volume; reflexivity.
Qed.

Lemma encoder_task_volume v w ev now el st :
  g_volume_percent (snd (encoder_task v w ev now el st)) = g_volume_percent st.
Proof.
  unfold encoder_task, on_enc_switch.
  split_tests; simpl; auto using on_enc_step_volume, on_play_pause_volume.
Qed.

(** ** Projections of an outcome *)

Lemma emit_sh evs o : o_sh (emit evs o) = o_sh o.
Proof. destruct o as [[st p] e]; reflexivity. Qed.
Lemma emit_pc evs o : o_pc (emit evs o) = o_pc o.
Proof. destruct o as [[st p] e]; reflexivity. Qed.
Lemma emit_evs evs o : o_evs (emit evs o) = evs ++ o_evs o.
Proof. destruct o as [[st p] e]; reflexivity. Qed.

(** ** The audio side never writes the volume *)

Lemma boot_finish_volume v st :
  g_volume_percent (o_sh (boot_finish v st)) = g_volume_percent st.
Proof. destruct v; reflexivity. Qed.

Lemma boot_home_volume v w st :
  g_volume_percent (o_sh (boot_home v w st)) = g_volume_percent st.
Proof.
  unfold boot_home.
  destruct (file_exists w _); [|apply boot_finish_volume].
  destruct (stream_open _ _ _ _) as [evs [os|]]; [reflexivity|].
  rewrite emit_sh. apply boot_finish_volume.
Qed.

Lemma boot_welcome_volume v w st :
  g_volume_percent (o_sh (boot_welcome v w st)) = g_volume_percent st.
Proof.
  unfold boot_welcome.
  destruct (file_exists w _); [|apply boot_home_volume].
  destruct (stream_open _ _ _ _) as [evs [os|]]; [reflexivity|].
  rewrite emit_sh. apply boot_home_volume.
Qed.

Lemma app_main_boot_volume v w st :
  g_volume_percent (o_sh (app_main_boot v w st)) = g_volume_percent st.
Proof.
  unfold app_main_boot.
  destruct (negb (sd_ok w)).
  - rewrite emit_sh. apply boot_finish_volume.
  - destruct (num_folders _ >? 0); destruct v; rewrite emit_sh;
      rewrite ?boot_finish_volume, ?boot_welcome_volume; reflexivity.
Qed.

Lemma after_stream_volume v w who st :
  g_volume_percent (o_sh (after_stream v w who st)) = g_volume_percent st.
Proof.
  unfold after_stream.
  destruct who; [apply boot_home_volume | apply boot_finish_volume | reflexivity |].
  destruct v; [reflexivity | | reflexivity].
  destruct (announce_request st); reflexivity.
Qed.

Lemma call_stream_volume v w who path st :
  g_volume_percent (o_sh (call_stream v w who path st)) = g_volume_percent st.
Proof.
  unfold call_stream.
  destruct (stream_open _ _ _ _) as [evs [os|]]; [reflexivity|].
  rewrite emit_sh. apply after_stream_volume.
Qed.

Lemma stream_step_volume v w who os st :
  g_volume_percent (o_sh (stream_step v w who os st)) = g_volume_percent st.
Proof.
  unfold stream_step.
  destruct (stream_iter _ _ _ _ _) as [evs [os'|r]]; [reflexivity|].
  rewrite emit_sh. apply after_stream_volume.
Qed.

Lemma v1_idle_volume w st :
  g_volume_percent (o_sh (v1_idle w st)) = g_volume_percent st.
Proof.
  unfold v1_idle.
  repeat match goal with
         | |- context [if ?b then _ else _] => destruct b
         end; try reflexivity.
  destruct (stream_open _ _ _ _) as [evs [os|]]; reflexivity.
Qed.

Lemma v1_loop_volume w who os st :
  g_volume_percent (o_sh (v1_loop w who os st)) = g_volume_percent st.
Proof.
  unfold v1_loop.
  destruct (negb (g_playing st)); [reflexivity|].
  destruct (track_change_request st); [reflexivity|].
  destruct (g_stop_and_rewind st); simpl;
    destruct (g_pause st); try reflexivity;
    destruct (fread_chunk _); reflexivity.
Qed.

Lemma v2_idle_volume w st :
  g_volume_percent (o_sh (v2_idle w st)) = g_volume_percent st.
Proof.
  unfold v2_idle.
  repeat match goal with
         | |- context [if ?b then _ else _] => destruct b
         end; rewrite ?emit_sh, ?call_stream_volume; reflexivity.
Qed.

Lemma rtos_idle_volume w st :
  g_volume_percent (o_sh (rtos_idle w st)) = g_volume_percent st.
Proof. unfold rtos_idle. destruct (notify st =? 0); reflexivity. Qed.

Lemma rtos_taken_volume w val st :
  g_volume_percent (o_sh (rtos_taken w val st)) = g_volume_percent st.
Proof.
  unfold rtos_taken.
  repeat match goal with
         | |- context [if ?b then _ else _] => destruct b
         end; rewrite ?emit_sh, ?call_stream_volume; reflexivity.
Qed.

Lemma audio_step_volume v w s :
  g_volume_percent (sh (fst (audio_step v w s))) = g_volume_percent (sh s).
Proof.
  unfold audio_step, audio_outcome. cbv zeta. cbn [fst with_audio sh].
  destruct (pc s) as [| |val|who os].
  - apply app_main_boot_volume.
  - destruct v; [apply v1_idle_volume | apply v2_idle_volume | apply rtos_idle_volume].
  - destruct v; [reflexivity | reflexivity | apply rtos_taken_volume].
  - destruct v; try apply stream_step_volume.
    destruct who; try apply stream_step_volume. apply v1_loop_volume.
Qed.

(** A volume handler run whole stores the clamped sum. *)
Lemma on_vol_up_eq (st : shared) :
  on_vol_up st = set_g_volume_percent (vol_up (g_volume_percent st)) st.
Proof.
  unfold on_vol_up, vol_up_clamp, vol_up_add, vol_up. cbn.
  destruct (wrap_i32 (g_volume_percent st + 10) >? 200); reflexivity.
Qed.

Lemma on_vol_down_eq (st : shared) :
  on_vol_down st = set_g_volume_percent (vol_down (g_volume_percent st)) st.
Proof.
  unfold on_vol_down, vol_down_clamp, vol_down_add, vol_down. cbn.
  destruct (wrap_i32 (g_volume_percent st - 10) <? 0); reflexivity.
Qed.

(** Only a Vol+ or Vol- poll changes the volume, and a handler run whole
    changes it by [vol_up] or [vol_down]. *)
Lemma sys_step_volume v l s :
  let vol := g_volume_percent (sh s) in
  let vol' := g_volume_percent (sh (fst (sys_step v l s))) in
  vol' = vol
  \/ (exists w lvl t, l = LButton w BTN_VOL_UP lvl t /\ vol' = vol_up vol)
  \/ (exists w lvl t, l = LButton w BTN_VOL_DOWN lvl t /\ vol' = vol_down vol).
Proof.
  cbv zeta. destruct l as [w|w b lvl t|w ev now]; cbn [sys_step].
  - left. apply audio_step_volume.
  - destruct (booted s); [|left; reflexivity]. cbn [fst].
    unfold poll_button.
    destruct b; destruct (read_button_press _ _ _) as [[|] b']; cbn [sh];
      try (left; reflexivity).
    + left. apply on_play_pause_volume.
    + left. apply on_home_volume.
    + right; left. exists w, lvl, t.
      split; [reflexivity | rewrite on_vol_up_eq; reflexivity].
    + right; right. exists w, lvl, t.
      split; [reflexivity | rewrite on_vol_down_eq; reflexivity].
  - left. destruct (booted s); [|reflexivity]. cbn [fst].
    unfold encoder_step.
    pose proof (encoder_task_volume v w ev now (enc s) (sh s)) as H.
    destruct (encoder_task _ _ _ _ _ _) as [el st]. exact H.
Qed.

Lemma run_app v ls1 ls2 s :
  run v (ls1 ++ ls2) s =
  (let '(s1, e1) := run v ls1 s in
   let '(s2, e2) := run v ls2 s1 in (s2, e1 ++ e2)).
Proof.
  revert s. induction ls1 as [|l ls1 IH]; intros s; cbn [run app].
  - destruct (run v ls2 s); reflexivity.
  - destruct (sys_step v l s) as [s1 e1]. rewrite IH.
    destruct (run v ls1 s1) as [s2 e2]. destruct (run v ls2 s2) as [s3 e3].
    rewrite app_assoc. reflexivity.
Qed.

(** Induction over the runs from the initial system, last step last. *)
Lemma reachable_ind (v : variant) (P : system -> Prop) :
  P initial_system ->
  (forall l s, reachable v s -> P s -> P (fst (sys_step v l s))) ->
  forall s, reachable v s -> P s.
Proof.
  intros H0 Hstep s [ls Hls]. subst s.
  induction ls as [|l ls IH] using rev_ind.
  - exact H0.
  - rewrite run_app.
    destruct (run v ls initial_system) as [s1 e1] eqn:E1. cbn [run].
    destruct (sys_step v l s1) as [s2 e2] eqn:E2. cbn [fst] in *.
    replace s2 with (fst (sys_step v l s1)) by (rewrite E2; reflexivity).
    apply Hstep; [|exact IH].
    exists ls. rewrite E1. reflexivity.
Qed.

(** ** The volume between the handlers and inside them *)

Lemma vol_reachable_ind (v : variant) (P : vsystem -> Prop) :
  P (at_loop initial_system) ->
  (forall l s, vol_reachable v s -> P s -> P (fst (vol_step v l s))) ->
  forall s, vol_reachable v s -> P s.
Proof.
  intros H0 Hstep s [ls Hls]. subst s.
  induction ls as [|l ls IH] using rev_ind.
  - exact H0.
  - assert (Happ : forall l1 l2 s,
               fst (vol_run v (l1 ++ l2) s)
               = fst (vol_run v l2 (fst (vol_run v l1 s)))).
    { clear. induction l1 as [|a l1 IH]; intros l2 s; cbn [vol_run app].
      - reflexivity.
      - destruct (vol_step v a s) as [s1 e1]. specialize (IH l2 s1).
        destruct (vol_run v (l1 ++ l2) s1) as [s2 e2].
        destruct (vol_run v l1 s1) as [s3 e3]. cbn [fst] in *.
        exact IH. }
    rewrite Happ. cbn [vol_run].
    destruct (vol_step v l (fst (vol_run v ls (at_loop initial_system))))
      as [s2 e2] eqn:E2. cbn [fst].
    replace s2
      with (fst (vol_step v l (fst (vol_run v ls (at_loop initial_system)))))
      by (rewrite E2; reflexivity).
    apply Hstep; [|exact IH]. exists ls. reflexivity.
Qed.

(** A handler followed at once by its clamp is the handler of [sys_step]. *)
Lemma vol_step_whole_handler v l s :
  vol_run v [VStep l; VClamp] (at_loop s)
  = (at_loop (fst (sys_step v l s)), snd (sys_step v l s)).
Proof.
  cbn [vol_run]. destruct l as [w|w b lvl t|w ev now].
  - cbn [vol_step at_loop vsys vpc].
    destruct (sys_step v (LAudio w) s) as [s1 e1]. cbn [vol_step vpc fst snd].
    rewrite app_nil_r. reflexivity.
  - cbn [vol_step at_loop vsys vpc sys_step].
    destruct (booted s); [|reflexivity].
    unfold poll_volume_add, poll_button, on_vol_up, on_vol_down.
    destruct b; try reflexivity;
      destruct (read_button_press _ _ _) as [[|] b']; reflexivity.
  - cbn [vol_step at_loop vsys vpc].
    destruct (sys_step v (LEncoder w ev now) s) as [s1 e1].
    cbn [vol_step vpc fst snd]. rewrite app_nil_r. reflexivity.
Qed.

(** Every run of [sys_step] is the run of [vol_step] in which no other
    task runs between the two stores of a volume handler. *)
Lemma vol_run_whole_handlers v ls s :
  vol_run v (whole_handlers ls) (at_loop s)
  = (at_loop (fst (run v ls s)), snd (run v ls s)).
Proof.
  revert s. induction ls as [|l ls IH]; intros s; [reflexivity|].
  unfold whole_handlers in *. cbn [flat_map app].
  pose proof (vol_step_whole_handler v l s) as H. cbn [vol_run] in H |- *.
  destruct (vol_step v (VStep l) (at_loop s)) as [s1 e1].
  destruct (vol_step v VClamp s1) as [s2 e2].
  rewrite app_nil_r in H. injection H as H1 H2. subst s2.
  rewrite IH. cbn [run].
  destruct (sys_step v l s) as [s3 e3]. cbn [fst snd] in *.
  destruct (run v ls s3) as [s4 e4]. cbn [fst snd].
  rewrite <- H2, <- app_assoc. reflexivity.
Qed.


Lemma reachable_vol_reachable v s :
  reachable v s -> vol_reachable v (at_loop s).
Proof.
  intros [ls Hls]. exists (whole_handlers ls).
  rewrite vol_run_whole_handlers. cbn [fst]. rewrite Hls. reflexivity.
Qed.

Lemma vol_step_bounds v l s :
  volume_bounds s -> volume_bounds (fst (vol_step v l s)).
Proof.
  unfold volume_bounds. intros Hb.
  destruct l as [[w|w b lvl t|w ev now]|]; cbn [vol_step].
  - pose proof (audio_step_volume v w (vsys s)) as Hv. cbn [sys_step].
    destruct (audio_step v w (vsys s)) as [s1 e1]. cbn [fst vsys vpc] in *.
    rewrite Hv. exact Hb.
  - destruct (vpc s) eqn:Hpc; try (cbn [fst]; rewrite Hpc; exact Hb).
    destruct (booted (vsys s)); [|cbn [fst]; rewrite Hpc; exact Hb].
    unfold poll_volume_add, poll_button, vol_up_add, vol_down_add.
    destruct b; destruct (read_button_press _ _ _) as [[|] b'];
      cbn [fst at_loop vsys vpc sh g_volume_percent set_g_volume_percent];
      rewrite ?on_play_pause_volume, ?on_home_volume; try exact Hb.
    + rewrite wrap_i32_id by (unfold in_i32; lia). lia.
    + rewrite wrap_i32_id by (unfold in_i32; lia). lia.
  - pose proof (sys_step_volume v (LEncoder w ev now) (vsys s)) as Hv.
    cbv zeta in Hv.
    destruct (sys_step v (LEncoder w ev now) (vsys s)) as [s1 e1].
    cbn [fst vsys vpc] in *.
    destruct Hv as [Hv|[(w' & lvl & t & Hl & _)|(w' & lvl & t & Hl & _)]];
      try discriminate.
    rewrite Hv. exact Hb.
  - unfold vol_up_clamp, vol_down_clamp.
    destruct (vpc s) eqn:Hpc; cbn [fst]; [rewrite Hpc; exact Hb| |].
    + destruct (Z.gtb_spec (g_volume_percent (sh (vsys s))) 200);
        cbn [at_loop vsys vpc with_sh with_audio sh g_volume_percent
             set_g_volume_percent]; lia.
    + destruct (Z.ltb_spec (g_volume_percent (sh (vsys s))) 0);
        cbn [at_loop vsys vpc with_sh with_audio sh g_volume_percent
             set_g_volume_percent]; lia.
Qed.

Lemma vol_reachable_bounds v s : vol_reachable v s -> volume_bounds s.
Proof.
  revert s. apply (vol_reachable_ind v).
  - unfold volume_bounds. cbn. lia.
  - intros l s _ IH. apply vol_step_bounds, IH.
Qed.

Lemma scale_product_fits_wide (s vol : Z) :
  in_i16 s -> -10 <= vol <= 210 -> in_i32 (s * vol).
Proof.
  unfold in_i16, in_i32. intros Hs Hv. nia.
Qed.

Lemma on_vol_up_iter (n : nat) (st : shared) :
  0 <= g_volume_percent st <= 200 ->
  g_volume_percent (Nat.iter n on_vol_up st)
  = Z.min 200 (g_volume_percent st + 10 * Z.of_nat n).
Proof.
  intros Hv. induction n as [|n IH].
  - simpl. lia.
  - rewrite Nat.iter_succ, on_vol_up_eq.
    cbn [g_volume_percent set_g_volume_percent].
    rewrite IH, vol_up_min by lia. lia.
Qed.

Lemma on_vol_down_iter (n : nat) (st : shared) :
  0 <= g_volume_percent st <= 200 ->
  g_volume_percent (Nat.iter n on_vol_down st)
  = Z.max 0 (g_volume_percent st - 10 * Z.of_nat n).
Proof.
  intros Hv. induction n as [|n IH].
  - simpl. lia.
  - rewrite Nat.iter_succ, on_vol_down_eq.
    cbn [g_volume_percent set_g_volume_percent].
    rewrite IH, vol_down_max by lia. lia.
Qed.

(** What holds of the volume (the parts of C3 that the code keeps).
    - An accepted press of Vol+ (Vol-), its handler run whole, leaves
      [min 200 (vol + 10)] ([max 0 (vol - 10)]) in [g_volume_percent], and
      [n] handlers in a row leave [min 200 (vol + 10 n)]
      ([max 0 (vol - 10 n)]): the volume saturates at 200 and at 0.
    - No step other than a Vol+ or Vol- poll, or the clamp of the handler
      in progress, changes the volume.
    - In every state of every interleaving the volume is in [0,200] while
      the main loop is between two handlers, in [10,210] between the two
      stores of the Vol+ handler and in [-10,190] between the two stores
      of the Vol- handler.
    - For every int16 sample [s] and every volume in [-10,210] the product
      [s * vol] fits an [int32_t] and the scaled sample is
      [clamp(s * vol / 100)], inside [-32768, 32767]. *)
Theorem volume_handlers_and_scaling :
  (forall v w lvl t s,
     booted s = true ->
     0 <= g_volume_percent (sh s) <= 200 ->
     (fst (read_button_press lvl t (btn_volp s)) = true ->
      g_volume_percent (sh (fst (sys_step v (LButton w BTN_VOL_UP lvl t) s)))
      = Z.min 200 (g_volume_percent (sh s) + 10))
     /\ (fst (read_button_press lvl t (btn_volm s)) = true ->
         g_volume_percent
           (sh (fst (sys_step v (LButton w BTN_VOL_DOWN lvl t) s)))
         = Z.max 0 (g_volume_percent (sh s) - 10)))
  /\ (forall n st, 0 <= g_volume_percent st <= 200 ->
        g_volume_percent (Nat.iter n on_vol_up st)
        = Z.min 200 (g_volume_percent st + 10 * Z.of_nat n)
        /\ g_volume_percent (Nat.iter n on_vol_down st)
           = Z.max 0 (g_volume_percent st - 10 * Z.of_nat n))
  /\ (forall v l s,
        g_volume_percent (sh (vsys (fst (vol_step v l s))))
        <> g_volume_percent (sh (vsys s)) ->
        l = VClamp
        \/ exists w lvl t,
             l = VStep (LButton w BTN_VOL_UP lvl t)
             \/ l = VStep (LButton w BTN_VOL_DOWN lvl t))
  /\ (forall v s, vol_reachable v s ->
        match vpc s with
        | MLoop => 0 <= g_volume_percent (sh (vsys s)) <= 200
        | MVolUp => 10 <= g_volume_percent (sh (vsys s)) <= 210
        | MVolDown => -10 <= g_volume_percent (sh (vsys s)) <= 190
        end)
  /\ (forall s vol, in_i16 s -> -10 <= vol <= 210 ->
        in_i32 (s * vol)
        /\ scale_sample vol s = Z.max (-32768) (Z.min (Z.quot (s * vol) 100) 32767)
        /\ in_i16 (scale_sample vol s)).
Proof.
  split.
  { intros v w lvl t s Hb Hv. cbn [sys_step]. rewrite Hb. cbn [fst].
    unfold poll_button. split; intros Hp.
    - destruct (read_button_press lvl t (btn_volp s)) as [p b'].
      cbn [fst] in Hp. subst p. cbn [sh]. rewrite on_vol_up_eq.
      cbn [g_volume_percent set_g_volume_percent]. apply vol_up_min, Hv.
    - destruct (read_button_press lvl t (btn_volm s)) as [p b'].
      cbn [fst] in Hp. subst p. cbn [sh]. rewrite on_vol_down_eq.
      cbn [g_volume_percent set_g_volume_percent]. apply vol_down_max, Hv. }
  split.
  { intros n st Hv. split; [apply on_vol_up_iter | apply on_vol_down_iter];
      exact Hv. }
  split.
  { intros v l s Hne.
    destruct l as [l|]; [right | left; reflexivity].
    destruct l as [w|w b lvl t|w ev now].
    - exfalso. apply Hne. cbn [vol_step sys_step].
      pose proof (audio_step_volume v w (vsys s)) as Hv.
      destruct (audio_step v w (vsys s)) as [s1 e1]. exact Hv.
    - destruct b.
      + exfalso. apply Hne. cbn [vol_step].
        destruct (vpc s); try reflexivity.
        destruct (booted (vsys s)); [|reflexivity].
        cbn [poll_volume_add fst at_loop vsys]. unfold poll_button.
        destruct (read_button_press _ _ _) as [[|] b']; cbn [sh];
          [apply on_play_pause_volume | reflexivity].
      + exfalso. apply Hne. cbn [vol_step].
        destruct (vpc s); try reflexivity.
        destruct (booted (vsys s)); [|reflexivity].
        cbn [poll_volume_add fst at_loop vsys]. unfold poll_button.
        destruct (read_button_press _ _ _) as [[|] b']; cbn [sh];
          [apply on_home_volume | reflexivity].
      + exists w, lvl, t. left. reflexivity.
      + exists w, lvl, t. right. reflexivity.
    - exfalso. apply Hne. cbn [vol_step].
      pose proof (sys_step_volume v (LEncoder w ev now) (vsys s)) as Hv.
      cbv zeta in Hv.
      destruct (sys_step v (LEncoder w ev now) (vsys s)) as [s1 e1].
      cbn [fst vsys] in *.
      destruct Hv as [Hv|[(w' & lvl & t & Hl & _)|(w' & lvl & t & Hl & _)]];
        try discriminate.
      exact Hv. }
  split; [exact vol_reachable_bounds|].
  intros s vol Hs Hv.
  pose proof (scale_product_fits_wide s vol Hs Hv) as Hfit.
  split; [exact Hfit|].
  unfold scale_sample. rewrite (wrap_i32_id _ Hfit).
  split; [apply clip16_clamp | apply clip16_range].
Qed.

Example volume_saturates :
  g_volume_percent (Nat.iter 25 on_vol_up initial_shared) = 200
  /\ g_volume_percent (Nat.iter 25 on_vol_down initial_shared) = 0
  /\ scale_sample 200 32767 = 32767
  /\ scale_sample 200 (-32768) = -32768
  /\ scale_sample 210 32767 = 32767
  /\ scale_sample (-10) (-32768) = 3276.
Proof. vm_compute. repeat split; reflexivity. Qed.

(** C3 at the schedules [volume_press_while_playing] on the RTOS revision.
    The volume stands at 200 and track 0 is at the top of its chunk loop
    when the main loop detects a press of Vol+ and executes
    [g_volume_percent += 10]: the shared variable holds 210.  The audio
    task now runs one pass of the chunk loop: it reads 210 and writes the
    chunk scaled by 210 percent, which differs from the chunk at 200
    percent.  Only then does the clamp store 200.  In the same way a press
    of Vol- at volume 0 stores -10, and the chunk is written scaled by -10
    percent, the samples inverted.  So the volume does not always stay
    within [0,200], and the audio output shows it. *)
Theorem volume_sum_reaches_audio_before_clamp :
  let up := fst (vol_run RTOS (volume_press_while_playing demo_card BTN_VOL_UP)
                   (at_loop initial_system)) in
  let down := fst (vol_run RTOS
                     (volume_press_while_playing demo_card BTN_VOL_DOWN)
                     (at_loop initial_system)) in
  (vpc up = MVolUp
   /\ g_volume_percent (sh (vsys up)) = 210
   /\ snd (vol_step RTOS (VStep (LAudio demo_card)) up)
      = [EvI2SWrite (apply_volume 210 four_bytes) true]
   /\ apply_volume 210 four_bytes <> apply_volume 200 four_bytes
   /\ g_volume_percent
        (sh (vsys (fst (vol_run RTOS [VStep (LAudio demo_card); VClamp] up))))
      = 200)
  /\ (vpc down = MVolDown
      /\ g_volume_percent (sh (vsys down)) = -10
      /\ snd (vol_step RTOS (VStep (LAudio demo_card)) down)
         = [EvI2SWrite (apply_volume (-10) four_bytes) true]
      /\ apply_volume (-10) four_bytes <> apply_volume 0 four_bytes
      /\ g_volume_percent
           (sh (vsys (fst (vol_run RTOS [VStep (LAudio demo_card); VClamp]
                             down))))
         = 0).
Proof.
  vm_compute. repeat split; try reflexivity; discriminate.
Qed.

(** ** Directory scanning: the caps *)

Lemma scan_root_loop_full w path entries found :
  (MAX_FOLDERS <= List.length found)%nat ->
  scan_root_loop w path entries found = found.
Proof.
  intros H. destruct entries as [|e rest]; [reflexivity|].
  cbn [scan_root_loop].
  destruct (Nat.ltb_spec (List.length found) MAX_FOLDERS); [lia|reflexivity].
Qed.

Lemma scan_wavs_loop_full w path entries found :
  (MAX_WAV_FILES <= List.length found)%nat ->
  scan_wavs_loop w path entries found = found.
Proof.
  intros H. destruct entries as [|e rest]; [reflexivity|].
  cbn [scan_wavs_loop].
  destruct (Nat.ltb_spec (List.length found) MAX_WAV_FILES); [lia|reflexivity].
Qed.

Lemma scan_root_loop_length w path entries :
  forall found,
    (List.length found <= MAX_FOLDERS)%nat ->
    (List.length (scan_root_loop w path entries found) <= MAX_FOLDERS)%nat.
Proof.
  induction entries as [|e rest IH]; intros found Hlen; cbn [scan_root_loop].
  - exact Hlen.
  - destruct (Nat.ltb_spec (List.length found) MAX_FOLDERS) as [Hlt|Hge];
      cbn [negb]; [|exact Hlen].
    destruct (is_dot_entry e); [apply IH; exact Hlen|].
    assert (Hgrow : forall full,
               (List.length (found ++ [full]) <= MAX_FOLDERS)%nat)
      by (intros full; rewrite length_app; simpl; lia).
    destruct (d_type e);
      repeat match goal with
             | |- context [match ?x with _ => _ end] => destruct x
             end; auto.
Qed.

Lemma scan_wavs_loop_length w path entries :
  forall found,
    (List.length found <= MAX_WAV_FILES)%nat ->
    (List.length (scan_wavs_loop w path entries found) <= MAX_WAV_FILES)%nat.
Proof.
  induction entries as [|e rest IH]; intros found Hlen; cbn [scan_wavs_loop].
  - exact Hlen.
  - destruct (Nat.ltb_spec (List.length found) MAX_WAV_FILES) as [Hlt|Hge];
      cbn [negb]; [|exact Hlen].
    destruct (is_dot_entry e); [apply IH; exact Hlen|].
    assert (Hgrow : forall full,
               (List.length (found ++ [full]) <= MAX_WAV_FILES)%nat)
      by (intros full; rewrite length_app; simpl; lia).
    destruct (d_type e);
      repeat match goal with
             | |- context [match ?x with _ => _ end] => destruct x
             | |- context [if ?b then _ else _] => destruct b
             end; auto.
Qed.

(** Once the cap is reached, whatever [readdir] would still yield is not
    looked at. *)
Lemma scan_root_loop_ignores w path entries more :
  forall found,
    List.length (scan_root_loop w path entries found) = MAX_FOLDERS ->
    scan_root_loop w path (entries ++ more) found
    = scan_root_loop w path entries found.
Proof.
  induction entries as [|e rest IH]; intros found Hlen.
  - cbn [scan_root_loop app] in *. apply scan_root_loop_full. lia.
  - cbn [scan_root_loop app] in *.
    destruct (negb (Nat.ltb (List.length found) MAX_FOLDERS)) eqn:Hcap;
      [reflexivity|].
    apply negb_false_iff, Nat.ltb_lt in Hcap.
    destruct (is_dot_entry e); [apply IH; exact Hlen|].
    destruct (d_type e);
      repeat match goal with
             | H : context [match ?x with _ => _ end] |- _ => destruct x
             end; auto; lia.
Qed.

Lemma scan_wavs_loop_ignores w path entries more :
  forall found,
    List.length (scan_wavs_loop w path entries found) = MAX_WAV_FILES ->
    scan_wavs_loop w path (entries ++ more) found
    = scan_wavs_loop w path entries found.
Proof.
  induction entries as [|e rest IH]; intros found Hlen.
  - cbn [scan_wavs_loop app] in *. apply scan_wavs_loop_full. lia.
  - cbn [scan_wavs_loop app] in *.
    destruct (negb (Nat.ltb (List.length found) MAX_WAV_FILES)) eqn:Hcap;
      [reflexivity|].
    apply negb_false_iff, Nat.ltb_lt in Hcap.
    destruct (is_dot_entry e); [apply IH; exact Hlen|].
    destruct (d_type e);
      repeat match goal with
             | H : context [match ?x with _ => _ end] |- _ => destruct x
             | H : context [if ?b then _ else _] |- _ => destruct b
             end; auto; lia.
Qed.

Lemma scan_root_folders_length w path :
  (List.length (scan_root_folders w path) <= MAX_FOLDERS)%nat.
Proof.
  unfold scan_root_folders. destruct (list_dir w path) as [entries|].
  - apply scan_root_loop_length. simpl. unfold MAX_FOLDERS. lia.
  - simpl. lia.
Qed.

Lemma scan_wavs_in_folder_length w path :
  (List.length (scan_wavs_in_folder w path) <= MAX_WAV_FILES)%nat.
Proof.
  unfold scan_wavs_in_folder. destruct (list_dir w path) as [entries|].
  - apply scan_wavs_loop_length. simpl. unfold MAX_WAV_FILES. lia.
  - simpl. lia.
Qed.

(** The two announcement blocks do nothing but call
    [request_announcement], at most once. *)
Lemma announce_stories_request v w fp st :
  exists q, announce_stories v w fp st = request_announcement v q st.
Proof.
  unfold announce_stories.
  split_tests; try (eexists; reflexivity); exists None; reflexivity.
Qed.

Lemma announce_story_request v w f st :
  exists q, announce_story v w f st = request_announcement v q st.
Proof.
  unfold announce_story.
  split_tests; try (eexists; reflexivity); exists None; reflexivity.
Qed.

Lemma request_announcement_catalog v q st :
  catalog (request_announcement v q st) = catalog st.
Proof.
  unfold request_announcement, notify_set_bits.
  destruct q, v; simpl; split_tests; reflexivity.
Qed.

Lemma announce_stories_catalog v w fp st :
  catalog (announce_stories v w fp st) = catalog st.
Proof.
  destruct (announce_stories_request v w fp st) as [q ->].
  apply request_announcement_catalog.
Qed.

Lemma announce_story_catalog v w f st :
  catalog (announce_story v w f st) = catalog st.
Proof.
  destruct (announce_story_request v w f st) as [q ->].
  apply request_announcement_catalog.
Qed.

Lemma signal_play_catalog v st : catalog (signal_play v st) = catalog st.
Proof.
  unfold signal_play, notify_overwrite.
  destruct v; simpl; split_tests; reflexivity.
Qed.

Lemma catalog_bounded_eq st st' :
  catalog st' = catalog st -> catalog_bounded st -> catalog_bounded st'.
Proof.
  unfold catalog, catalog_bounded. intros H. injection H as -> ->. auto.
Qed.

Lemma enter_folder_bounded v w st :
  catalog_bounded st -> catalog_bounded (enter_folder v w st).
Proof.
  intros Hb. unfold enter_folder.
  destruct (num_folders st >? 0); [|exact Hb].
  match goal with
  | |- catalog_bounded (if _ then announce_story _ _ _ ?st3 else ?st3) =>
      assert (H3 : catalog_bounded st3)
  end.
  { unfold catalog_bounded. cbn.
    pose proof (announce_stories_catalog v w
                  (at_index (folder_list st) (selected_folder st)) st) as Hc.
    unfold catalog in Hc. injection Hc as Hf _. rewrite Hf.
    split; [apply Hb | apply scan_wavs_in_folder_length]. }
  destruct (_ >? 0); [|exact H3].
  eapply catalog_bounded_eq; [apply announce_story_catalog | exact H3].
Qed.

Lemma on_play_pause_bounded v w st :
  catalog_bounded st -> catalog_bounded (on_play_pause v w st).
Proof.
  intros Hb. unfold on_play_pause.
  destruct (nav_state st).
  - destruct (_ >? 0); exact Hb.
  - apply enter_folder_bounded, Hb.
  - unfold play_pause_file_view.
    split_tests; try exact Hb;
      (eapply catalog_bounded_eq; [rewrite signal_play_catalog; reflexivity | exact Hb]).
Qed.

Lemma on_home_bounded v w st :
  catalog_bounded st -> catalog_bounded (on_home v w st).
Proof.
  intros [Hf Hw]. unfold on_home.
  destruct (nav_state st).
  - split; assumption.
  - assert (Hb1 : catalog_bounded (set_nav_state NAV_HOME st)) by (split; assumption).
    destruct v; [exact Hb1| |];
      (destruct (file_exists w _); [|exact Hb1];
       eapply catalog_bounded_eq; [apply request_announcement_catalog | exact Hb1]).
  - unfold catalog_bounded. split_tests; cbn; (split; [exact Hf | lia]).
Qed.

Lemma on_enc_step_bounded v w dt st :
  catalog_bounded st -> catalog_bounded (on_enc_step v w dt st).
Proof.
  intros Hb. unfold on_enc_step.
  destruct (nav_state st); destruct (_ >? 0); try exact Hb;
    (eapply catalog_bounded_eq;
     [first [apply announce_stories_catalog | apply announce_story_catalog]
     | exact Hb]).
Qed.

Lemma encoder_task_bounded v w ev now el st :
  catalog_bounded st -> catalog_bounded (snd (encoder_task v w ev now el st)).
Proof.
  intros Hb. unfold encoder_task, on_enc_switch.
  split_tests; cbn [snd]; auto using on_enc_step_bounded, on_play_pause_bounded.
Qed.

(** The audio side leaves the catalog alone, except for the boot scan. *)
Lemma boot_finish_catalog v st : catalog (o_sh (boot_finish v st)) = catalog st.
Proof. destruct v; reflexivity. Qed.

Lemma boot_home_catalog v w st : catalog (o_sh (boot_home v w st)) = catalog st.
Proof.
  unfold boot_home.
  destruct (file_exists w _); [|apply boot_finish_catalog].
  destruct (stream_open _ _ _ _) as [evs [os|]]; [reflexivity|].
  rewrite emit_sh. apply boot_finish_catalog.
Qed.

Lemma boot_welcome_catalog v w st :
  catalog (o_sh (boot_welcome v w st)) = catalog st.
Proof.
  unfold boot_welcome.
  destruct (file_exists w _); [|apply boot_home_catalog].
  destruct (stream_open _ _ _ _) as [evs [os|]]; [reflexivity|].
  rewrite emit_sh. apply boot_home_catalog.
Qed.

Lemma after_stream_catalog v w who st :
  catalog (o_sh (after_stream v w who st)) = catalog st.
Proof.
  unfold after_stream.
  destruct who; [apply boot_home_catalog | apply boot_finish_catalog | reflexivity |].
  destruct v; [reflexivity | | reflexivity].
  destruct (announce_request st); reflexivity.
Qed.

Lemma call_stream_catalog v w who path st :
  catalog (o_sh (call_stream v w who path st)) = catalog st.
Proof.
  unfold call_stream.
  destruct (stream_open _ _ _ _) as [evs [os|]]; [reflexivity|].
  rewrite emit_sh. apply after_stream_catalog.
Qed.

Lemma app_main_boot_bounded v w st :
  catalog_bounded st -> catalog_bounded (o_sh (app_main_boot v w st)).
Proof.
  intros Hb. unfold app_main_boot.
  destruct (negb (sd_ok w)).
  - rewrite emit_sh.
    eapply catalog_bounded_eq; [apply boot_finish_catalog | exact Hb].
  - match goal with
    | |- context [set_folder_list ?l (free_folder_list st)] =>
        assert (H1 : catalog_bounded (set_folder_list l (free_folder_list st)))
          by (split; cbn; [apply scan_root_folders_length | apply Hb]);
        set (st1 := set_folder_list l (free_folder_list st)) in *
    end.
    destruct (num_folders st1 >? 0); destruct v; rewrite emit_sh;
      (eapply catalog_bounded_eq;
       [first [apply boot_finish_catalog | apply boot_welcome_catalog]
       | first [exact H1 | split; cbn; apply H1]]).
Qed.

Lemma audio_outcome_bounded v w s :
  catalog_bounded (sh s) -> catalog_bounded (o_sh (audio_outcome v w s)).
Proof.
  intros Hb. unfold audio_outcome.
  destruct (pc s) as [| |val|who os].
  - apply app_main_boot_bounded, Hb.
  - destruct v.
    + unfold v1_idle.
      repeat match goal with
             | |- context [if ?b then _ else _] => destruct b
             end; try exact Hb.
      destruct (stream_open _ _ _ _) as [evs [os|]]; exact Hb.
    + unfold v2_idle.
      repeat match goal with
             | |- context [if ?b then _ else _] => destruct b
             end; rewrite ?emit_sh; try exact Hb;
        (eapply catalog_bounded_eq; [apply call_stream_catalog|]; exact Hb).
    + unfold rtos_idle. destruct (notify (sh s) =? 0); exact Hb.
  - destruct v; try exact Hb. unfold rtos_taken.
    repeat match goal with
           | |- context [if ?b then _ else _] => destruct b
           end; rewrite ?emit_sh; try exact Hb;
      (eapply catalog_bounded_eq; [apply call_stream_catalog|]; exact Hb).
  - assert (Hs : catalog_bounded (o_sh (stream_step v w who os (sh s)))).
    { unfold stream_step.
      destruct (stream_iter _ _ _ _ _) as [evs [os'|r]]; [exact Hb|].
      rewrite emit_sh.
      eapply catalog_bounded_eq; [apply after_stream_catalog | exact Hb]. }
    destruct v; try exact Hs. destruct who; try exact Hs.
    unfold v1_loop.
    destruct (negb (g_playing (sh s))); [exact Hb|].
    destruct (track_change_request (sh s)); [exact Hb|].
    destruct (g_stop_and_rewind (sh s)); simpl; split_tests; exact Hb.
Qed.

Lemma sys_step_bounded v l s :
  catalog_bounded (sh s) -> catalog_bounded (sh (fst (sys_step v l s))).
Proof.
  intros Hb. destruct l as [w|w b lvl t|w ev now]; cbn [sys_step].
  - apply audio_outcome_bounded, Hb.
  - destruct (booted s); [|exact Hb]. cbn [fst]. unfold poll_button.
    destruct b; destruct (read_button_press _ _ _) as [[|] b']; cbn [sh];
      rewrite ?on_vol_up_eq, ?on_vol_down_eq;
      auto using on_play_pause_bounded, on_home_bounded.
  - destruct (booted s); [|exact Hb]. cbn [fst]. unfold encoder_step.
    pose proof (encoder_task_bounded v w ev now (enc s) (sh s) Hb) as H.
    destruct (encoder_task _ _ _ _ _ _) as [el st]. exact H.
Qed.

(** C10: [scan_root_folders] yields at most 32 folders and
    [scan_wavs_in_folder] at most 64 tracks, whatever the directory holds;
    once a scan has filled its array, entries that [readdir] yields later
    change nothing; and in every reachable state of each revision the
    catalog has at most 32 folders and 64 tracks. *)
Theorem scan_caps :
  (forall w path, (List.length (scan_root_folders w path) <= 32)%nat)
  /\ (forall w path, (List.length (scan_wavs_in_folder w path) <= 64)%nat)
  /\ (forall w path entries more,
        List.length (scan_root_loop w path entries []) = 32%nat ->
        scan_root_loop w path (entries ++ more) []
        = scan_root_loop w path entries [])
  /\ (forall w path entries more,
        List.length (scan_wavs_loop w path entries []) = 64%nat ->
        scan_wavs_loop w path (entries ++ more) []
        = scan_wavs_loop w path entries [])
  /\ (forall v s, reachable v s ->
        num_folders (sh s) <= 32 /\ num_tracks (sh s) <= 64).
Proof.
  split; [exact scan_root_folders_length|].
  split; [exact scan_wavs_in_folder_length|].
  split; [intros; apply scan_root_loop_ignores; assumption|].
  split; [intros; apply scan_wavs_loop_ignores; assumption|].
  intros v s Hr.
  assert (Hb : catalog_bounded (sh s)).
  { revert s Hr. apply (reachable_ind v).
    - split; simpl; lia.
    - intros l s _ IH. apply sys_step_bounded, IH. }
  destruct Hb as [Hf Hw]. unfold num_folders, num_tracks, MAX_FOLDERS, MAX_WAV_FILES in *.
  lia.
Qed.

Lemma scan_caps_witness :
  List.length (scan_root_loop demo_card "/sdcard" (many_dirs 32) []) = 32%nat
  /\ scan_root_loop demo_card "/sdcard" (many_dirs 32 ++ many_dirs 8) []
     = scan_root_loop demo_card "/sdcard" (many_dirs 32) [].
Proof.
  assert (H : List.length (scan_root_loop demo_card "/sdcard" (many_dirs 32) [])
              = 32%nat) by (vm_compute; reflexivity).
  split; [exact H|].
  exact (proj1 (proj2 (proj2 scan_caps)) demo_card "/sdcard"
           (many_dirs 32) (many_dirs 8) H).
Defined.

(** ** Debouncing the rotary steps *)

Lemma step_accepted_spec (last now : Z) :
  step_accepted last now = true <-> 60 <= wrap_u32 (now - last).
Proof.
  unfold step_accepted, ENC_STEP_DEBOUNCE_MS.
  rewrite negb_true_iff, Z.ltb_ge. reflexivity.
Qed.

(** On the tick clock: [t_last] and [t_now] are the times in milliseconds
    since the scheduler started, less than 2^32 ms apart; the firmware
    holds them modulo 2^32. *)
Lemma step_accepted_elapsed (t_last t_now : Z) :
  0 <= t_now - t_last < 2 ^ 32 ->
  (step_accepted (wrap_u32 t_last) (wrap_u32 t_now) = true
   <-> 60 <= t_now - t_last).
Proof.
  intros H. rewrite step_accepted_spec. unfold wrap_u32.
  rewrite <- Zminus_mod, Z.mod_small by exact H. reflexivity.
Qed.

(** After a step accepted at [tacc], the later steps of the window that
    began at [t0 <= tacc] are all refused. *)
Lemma accepted_steps_window_0 (times : list Z) :
  forall t0 tacc prev,
    t0 <= tacc <= prev -> in_window t0 prev times ->
    accepted_steps tacc times = O.
Proof.
  induction times as [|t rest IH]; intros t0 tacc prev Hord Hwin;
    cbn [accepted_steps in_window] in *; [reflexivity|].
  destruct Hwin as (Hle & Hlt & Hrest). unfold ENC_STEP_DEBOUNCE_MS in Hlt.
  destruct (step_accepted tacc t) eqn:Hacc.
  - apply step_accepted_spec in Hacc. unfold wrap_u32 in Hacc.
    rewrite Z.mod_small in Hacc by lia. lia.
  - apply (IH t0 tacc t); [lia | exact Hrest].
Qed.

Lemma accepted_steps_window_le1 (times : list Z) :
  forall t0 last prev,
    t0 <= prev -> in_window t0 prev times ->
    (accepted_steps last times <= 1)%nat.
Proof.
  induction times as [|t rest IH]; intros t0 last prev Hord Hwin;
    cbn [accepted_steps in_window] in *; [lia|].
  destruct Hwin as (Hle & Hlt & Hrest).
  destruct (step_accepted last t).
  - rewrite (accepted_steps_window_0 rest t0 t t); [lia | lia | exact Hrest].
  - apply (IH t0 last t); [lia | exact Hrest].
Qed.

(** A refused step leaves the task and the shared state as they were. *)
Lemma encoder_task_refused v w dt now el st :
  step_accepted (last_step_time el) now = false ->
  encoder_task v w (clk dt) now el st = (el, st).
Proof.
  intros H. unfold encoder_task. cbn. rewrite H. reflexivity.
Qed.

Lemma encoder_task_accepted v w dt now el st :
  step_accepted (last_step_time el) now = true ->
  encoder_task v w (clk dt) now el st
  = ({| last_step_time := now; last_sw_time := last_sw_time el |},
     on_enc_step v w dt st).
Proof.
  intros H. unfold encoder_task. cbn. rewrite H. reflexivity.
Qed.

Lemma rotary_burst_refused v w dt (times : list Z) :
  forall el st,
    accepted_steps (last_step_time el) times = O ->
    rotary_burst v w dt times el st = (el, st).
Proof.
  induction times as [|t rest IH]; intros el st H;
    cbn [rotary_burst accepted_steps] in *; [reflexivity|].
  destruct (step_accepted (last_step_time el) t) eqn:Hacc; [discriminate|].
  fold (clk dt). rewrite (encoder_task_refused _ _ _ _ _ _ Hacc).
  apply IH, H.
Qed.

(** C9 (as amended): a rotary step is accepted exactly when the tick clock
    has advanced by at least 60 ms since [last_step_time] (the time of the
    last accepted step, 0 before the first one), and a refused step changes
    nothing.  Of the steps received within one 60 ms window at most one is
    accepted; when the first step of the window is accepted, it is the only
    one, and the task ends in the state the first step alone leaves. *)
Theorem rotary_step_debounce :
  (forall t_last t_now, 0 <= t_now - t_last < 2 ^ 32 ->
     (step_accepted (wrap_u32 t_last) (wrap_u32 t_now) = true
      <-> 60 <= t_now - t_last))
  /\ (forall v w dt now el st,
        encoder_task v w (clk dt) now el st =
        if step_accepted (last_step_time el) now
        then ({| last_step_time := now; last_sw_time := last_sw_time el |},
              on_enc_step v w dt st)
        else (el, st))
  /\ (forall last t0 times, in_window t0 t0 times ->
        (accepted_steps last (t0 :: times) <= 1)%nat)
  /\ (forall v w dt el st t0 times,
        in_window t0 t0 times ->
        step_accepted (last_step_time el) t0 = true ->
        accepted_steps (last_step_time el) (t0 :: times) = 1%nat
        /\ rotary_burst v w dt (t0 :: times) el st
           = encoder_task v w (clk dt) t0 el st).
Proof.
  split; [exact step_accepted_elapsed|].
  split.
  { intros v w dt now el st.
    destruct (step_accepted (last_step_time el) now) eqn:H.
    - apply encoder_task_accepted, H.
    - apply encoder_task_refused, H. }
  split.
  { intros last t0 times Hwin.
    apply (accepted_steps_window_le1 (t0 :: times) t0 last t0); [lia|].
    cbn [in_window]. unfold ENC_STEP_DEBOUNCE_MS. repeat split; try lia.
    exact Hwin. }
  intros v w dt el st t0 times Hwin Hacc.
  assert (H0 : accepted_steps t0 times = O)
    by (apply (accepted_steps_window_0 times t0 t0 t0); [lia | exact Hwin]).
  split.
  - cbn [accepted_steps]. rewrite Hacc, H0. reflexivity.
  - cbn [rotary_burst]. fold (clk dt).
    rewrite (encoder_task_accepted _ _ _ _ _ _ Hacc).
    apply rotary_burst_refused. exact H0.
Qed.

Lemma rotary_step_debounce_witness :
  accepted_steps 0 [1000; 1010; 1059] = 1%nat
  /\ rotary_burst RTOS demo_card 0 [1000; 1010; 1059]
       (enc initial_system) initial_shared
     = encoder_task RTOS demo_card (clk 0) 1000
         (enc initial_system) initial_shared.
Proof.
  apply (proj2 (proj2 (proj2 rotary_step_debounce)) RTOS demo_card 0
           (enc initial_system) initial_shared 1000 [1010; 1059]).
  - cbn. unfold ENC_STEP_DEBOUNCE_MS. lia.
  - reflexivity.
Defined.

(** C9 as stated fails: a burst that starts 30 ms after an accepted step
    and lasts 10 ms lies within one 60 ms window, and none of its steps is
    accepted. *)
Lemma burst_after_accepted_step_is_dropped :
  in_window 1030 1030 [1040]
  /\ accepted_steps 1000 [1030; 1040] = O
  /\ ~ (forall last t0 times, in_window t0 t0 times ->
          accepted_steps last (t0 :: times) = 1%nat).
Proof.
  assert (Hwin : in_window 1030 1030 [1040])
    by (cbn; unfold ENC_STEP_DEBOUNCE_MS; lia).
  split; [exact Hwin|]. split; [reflexivity|].
  intros H. specialize (H 1000 1030 [1040] Hwin). discriminate H.
Qed.

(** ** [request_announcement] *)

Lemma string_take_all (n : nat) (s : string) :
  (String.length s <= n)%nat -> string_take n s = s.
Proof.
  revert n. induction s as [|c r IH]; intros n H.
  - destruct n; reflexivity.
  - destruct n as [|n]; cbn in *; [lia|]. rewrite IH by lia. reflexivity.
Qed.

Lemma string_take_take (n : nat) (s : string) :
  string_take n (string_take n s) = string_take n s.
Proof.
  revert s. induction n as [|n IH]; intros s; [reflexivity|].
  destruct s as [|c r]; cbn; [reflexivity|]. rewrite IH. reflexivity.
Qed.

Lemma lor_announce_bit_idem (n : Z) :
  Z.lor (Z.lor n NOTIFY_ANNOUNCE_BIT) NOTIFY_ANNOUNCE_BIT
  = Z.lor n NOTIFY_ANNOUNCE_BIT.
Proof. rewrite <- Z.lor_assoc, Z.lor_diag. reflexivity. Qed.

(** C5 (as amended): for a non-NULL path [p], [request_announcement] stores
    the first 255 bytes of [p] (all of [p] when it is that short) as the
    pending path, whatever was pending before, and raises the request:
    - v2: it sets [announce_request] and changes nothing else;
    - RTOS: it sets [stop_flag], the flag that stops the stream in progress,
      and, when the audio task exists, the announce bit of its notification
      value, and changes nothing else.
    A second request overwrites the first (last writer wins); a NULL path
    changes nothing. *)
Theorem request_announcement_effect :
  forall (p : string) (st : shared),
    (let st' := request_announcement V2 (Some p) st in
     announce_path st' = string_take 255 p
     /\ announce_request st' = true
     /\ other_fields st' = other_fields st
     /\ stop_flag st' = stop_flag st /\ notify st' = notify st)
    /\ (let st' := request_announcement RTOS (Some p) st in
        announce_path st' = string_take 255 p
        /\ stop_flag st' = true
        /\ notify st' = (if audio_task_handle st
                         then Z.lor (notify st) NOTIFY_ANNOUNCE_BIT
                         else notify st)
        /\ other_fields st' = other_fields st
        /\ announce_request st' = announce_request st)
    /\ ((String.length p <= 255)%nat -> string_take 255 p = p)
    /\ (forall v q,
          request_announcement v (Some q) (request_announcement v (Some p) st)
          = request_announcement v (Some q) st)
    /\ (forall v, request_announcement v None st = st).
Proof.
  intros p st.
  split; [cbn -[string_take]; repeat split|].
  split.
  { unfold request_announcement, notify_set_bits. cbn -[string_take Z.lor].
    destruct (audio_task_handle st); cbn -[string_take Z.lor]; repeat split. }
  split; [apply string_take_all|].
  split; [|reflexivity].
  intros v q. unfold request_announcement, notify_set_bits.
  destruct v; cbn -[string_take Z.lor]; try reflexivity.
  destruct (audio_task_handle st) eqn:Hh; cbn -[string_take Z.lor];
    rewrite Hh; cbn -[string_take Z.lor]; [|reflexivity].
  rewrite lor_announce_bit_idem. reflexivity.
Qed.

Lemma request_announcement_effect_witness :
  string_take 255 "/sdcard/home.wav" = "/sdcard/home.wav".
Proof.
  apply (proj1 (proj2 (proj2
          (request_announcement_effect "/sdcard/home.wav" initial_shared)))).
  cbn. lia.
Defined.

(** C5 as stated fails on two counts: the RTOS revision sets [stop_flag]
    itself, and a path of 256 bytes or more is not stored as it is. *)
Lemma request_announcement_sets_stop_flag_and_truncates :
  stop_flag initial_shared = false
  /\ stop_flag (request_announcement RTOS (Some "/sdcard/home.wav")
                  initial_shared) = true
  /\ announce_path (request_announcement V2
                      (Some (string_repeat "a" 300)) initial_shared)
     <> string_repeat "a" 300.
Proof.
  split; [reflexivity|]. split; [reflexivity|].
  intros H. apply (f_equal String.length) in H. vm_compute in H. discriminate H.
Qed.

(** ** The story announcement *)

Lemma strrchr_make_path (folder name : string) :
  strrchr name "/" = None ->
  strrchr (folder ++ "/" ++ name)%string "/" = Some (String.length folder).
Proof.
  intros Hn. induction folder as [|c r IH]; cbn [append strrchr String.length].
  - rewrite Hn. reflexivity.
  - cbn [append] in IH. rewrite IH. reflexivity.
Qed.

Lemma string_drop_make_path (folder name : string) :
  string_drop (S (String.length folder)) (folder ++ "/" ++ name)%string = name.
Proof.
  induction folder as [|c r IH]; [reflexivity|]. exact IH.
Qed.

Lemma string_take_make_path (folder rest : string) :
  string_take (String.length folder) (folder ++ rest)%string = folder.
Proof.
  induction folder as [|c r IH]; cbn [append String.length string_take].
  - destruct rest; reflexivity.
  - rewrite IH. reflexivity.
Qed.

Lemma basename_make_path (folder name : string) :
  strrchr name "/" = None ->
  basename (folder ++ "/" ++ name)%string = name.
Proof.
  intros Hn. unfold basename. rewrite (strrchr_make_path _ _ Hn).
  apply string_drop_make_path.
Qed.

Lemma fmt_digit_of_char (c : ascii) :
  isdigit c = true -> fmt_digit (nat_of_ascii c - 48) = String c EmptyString.
Proof.
  unfold isdigit, fmt_digit. intros H.
  apply andb_true_iff in H. destruct H as [H _]. apply Nat.leb_le in H.
  replace (48 + (nat_of_ascii c - 48))%nat with (nat_of_ascii c) by lia.
  rewrite ascii_nat_embedding. reflexivity.
Qed.

Lemma append_length (a b : string) :
  String.length (a ++ b)%string = (String.length a + String.length b)%nat.
Proof.
  induction a as [|c r IH]; [reflexivity|]. cbn [append String.length].
  rewrite IH. reflexivity.
Qed.

Lemma string_take_length (n : nat) (s : string) :
  (String.length (string_take n s) <= n)%nat.
Proof.
  revert s. induction n as [|n IH]; intros [|c r]; cbn; try lia.
  specialize (IH r). lia.
Qed.

(** What the announcement block does with a track [folder/name], on every
    card and heap. *)
Lemma announce_story_found v w folder name st :
  v <> V1 ->
  strrchr name "/" = None ->
  announce_story v w (folder ++ "/" ++ name)%string st
  = match story_clip_found w folder name with
    | Some clip => request_announcement v (Some clip) st
    | None => st
    end.
Proof.
  intros Hv Hname. unfold announce_story.
  rewrite (basename_make_path _ _ Hname), (strrchr_make_path _ _ Hname).
  rewrite string_take_make_path.
  assert (Hmk : forall c,
             make_path w folder ("story" ++ String c ".wav")%string
             = if malloc_ok w (String.length folder + 12)
               then Some (folder ++ "/" ++ "story" ++ String c ".wav")%string
               else None).
  { intros c. unfold make_path. cbn [String.length append].
    replace (String.length folder + 1 + 10 + 1)%nat
      with (String.length folder + 12)%nat by lia.
    reflexivity. }
  destruct v; [contradiction| |];
    (destruct name as [|c0 [|c1 r]];
     [reflexivity
     | unfold is_story_name, char_at; cbn [String.get];
       rewrite andb_false_r; reflexivity
     | unfold is_story_name, story_number, char_at, story_clip_found;
       cbn [String.get];
       destruct ((Ascii.eqb c0 "S" || Ascii.eqb c0 "s") && isdigit c1)%bool
         eqn:Hpat; [|reflexivity];
       apply andb_true_iff in Hpat; destruct Hpat as [_ Hd];
       rewrite (fmt_digit_of_char _ Hd);
       unfold snprintf_buf, ANNOUNCE_PATH_MAX;
       cbn [append Nat.sub string_take];
       specialize (Hmk c1); cbn [append] in Hmk;
       rewrite Hmk; cbn [append];
       destruct (file_exists w _); [reflexivity|];
       destruct (Nat.ltb (String.length folder) 256); cbn [andb];
       [|reflexivity];
       destruct (malloc_ok w _); [|reflexivity];
       destruct (file_exists w _); reflexivity]).
Qed.

(** C8 (as amended).  When the selected track is [folder/name]:
    - the announcement block requests the clip that [story_clip_found]
      names, and nothing when it names none: for [name] starting with 'S'
      or 's' and a digit [n], [/sdcard/story<n>.wav] whenever it exists,
      whatever the folder and the heap; else [folder/story<n>.wav] when it
      exists, the folder path is shorter than 256 bytes and the buffer of
      the candidate path is allocated;
    - a clip that is requested is the one the specification names, and the
      two lookups agree except when the specification names the clip in
      the folder and one of the two guards fails, where nothing is
      requested;
    - the request stores the first 255 bytes of the clip's path; the path
      has 18 bytes at the root and 11 bytes more than the folder path in
      the folder, so it is stored whole exactly when it has at most 255
      bytes (a folder path of at most 244 bytes);
    - a rotary step in the track list runs this block on the newly
      selected track. *)
Theorem story_announcement_on_selection :
  (forall v w folder name st,
     v <> V1 ->
     strrchr name "/" = None ->
     announce_story v w (folder ++ "/" ++ name)%string st
     = match story_clip_found w folder name with
       | Some clip => request_announcement v (Some clip) st
       | None => st
       end)
  /\ (forall w folder name,
        (forall clip, story_clip_found w folder name = Some clip ->
                      story_clip_spec w folder name = Some clip)
        /\ (story_clip_found w folder name = story_clip_spec w folder name
            \/ (story_clip_found w folder name = None
                /\ ((256 <= String.length folder)%nat
                    \/ malloc_ok w (String.length folder + 12) = false)
                /\ exists c,
                     story_clip_spec w folder name
                     = Some (folder ++ "/story" ++ String c ".wav")%string
                     /\ file_exists w
                          ("/sdcard/story" ++ String c ".wav")%string
                        = false)))
  /\ (forall v w folder name clip st,
        v <> V1 ->
        story_clip_found w folder name = Some clip ->
        announce_path (request_announcement v (Some clip) st)
        = string_take 255 clip
        /\ (String.length clip = 18%nat
            \/ String.length clip = (String.length folder + 11)%nat)
        /\ ((String.length clip <= 255)%nat -> string_take 255 clip = clip)
        /\ ((255 < String.length clip)%nat -> string_take 255 clip <> clip))
  /\ (forall v w dt st,
        nav_state st = NAV_FILE_VIEW -> 0 < num_tracks st ->
        let cur := if dt =? 0
                   then Z.rem (current_track st + 1) (num_tracks st)
                   else Z.rem (current_track st - 1 + num_tracks st)
                          (num_tracks st) in
        on_enc_step v w dt st
        = announce_story v w (at_index (wav_list st) cur)
            (set_current_track cur st)).
Proof.
  split; [exact announce_story_found|].
  split.
  { intros w folder name.
    unfold story_clip_found, story_clip_spec.
    destruct name as [|c0 [|c1 r]];
      try (split; [intros; congruence | left; reflexivity]).
    destruct ((Ascii.eqb c0 "S" || Ascii.eqb c0 "s") && isdigit c1)%bool;
      [|split; [intros; congruence | left; reflexivity]].
    cbn [List.find append].
    destruct (file_exists w (String "/" _)) eqn:Hroot;
      [split; [intros; congruence | left; reflexivity]|].
    destruct (Nat.ltb (String.length folder) 256) eqn:Hlt; cbn [andb].
    - destruct (malloc_ok w _) eqn:Hmem.
      + destruct (file_exists w _);
          (split; [intros; congruence | left; reflexivity]).
      + split; [discriminate|].
        destruct (file_exists w (folder ++ _)%string) eqn:Hf;
          [|left; reflexivity].
        right. split; [reflexivity|]. split; [right; reflexivity|].
        exists c1. split; [reflexivity | exact Hroot].
    - split; [discriminate|].
      destruct (file_exists w (folder ++ _)%string) eqn:Hf;
        [|left; reflexivity].
      right. split; [reflexivity|].
      split; [left; apply Nat.ltb_ge; exact Hlt|].
      exists c1. split; [reflexivity | exact Hroot]. }
  split.
  { intros v w folder name clip st Hv Hfound.
    split; [|split; [|split]].
    - destruct v; [contradiction| |];
        unfold request_announcement, notify_set_bits;
        [|destruct (audio_task_handle _)]; reflexivity.
    - unfold story_clip_found in Hfound.
      destruct name as [|c0 [|c1 r]]; try discriminate.
      destruct ((Ascii.eqb c0 "S" || Ascii.eqb c0 "s") && isdigit c1)%bool;
        [|discriminate].
      destruct (file_exists w _);
        [injection Hfound as <-; left; reflexivity|].
      destruct (Nat.ltb _ _ && malloc_ok w _)%bool; [|discriminate].
      destruct (file_exists w _); [|discriminate].
      injection Hfound as <-. right.
      rewrite !append_length. cbn [String.length]. lia.
    - apply string_take_all.
    - intros Hlen Heq. pose proof (string_take_length 255 clip) as Hle.
      rewrite Heq in Hle. lia. }
  intros v w dt st Hnav Htr. cbv zeta. unfold on_enc_step.
  rewrite Hnav.
  destruct (Z.gtb_spec (num_tracks st) 0); [reflexivity | lia].
Qed.

Lemma story_announcement_on_selection_witness :
  announce_story RTOS demo_card "/sdcard/01/S1.wav" initial_shared
  = request_announcement RTOS (Some "/sdcard/story1.wav") initial_shared.
Proof.
  exact (proj1 story_announcement_on_selection RTOS demo_card
           "/sdcard/01" "S1.wav" initial_shared
           ltac:(discriminate) eq_refl).
Defined.

(** The clip at the root is requested from a folder whose path has 256
    bytes, and with a heap that refuses every allocation: the two guards
    stand only before the clip in the folder. *)
Example root_clip_announced_past_the_guards :
  announce_story V2 long_folder_root_card (long_folder ++ "/S1.wav")%string
    initial_shared
  = request_announcement V2 (Some "/sdcard/story1.wav") initial_shared
  /\ announce_story RTOS (no_heap demo_card) "/sdcard/01/S1.wav"
       initial_shared
     = request_announcement RTOS (Some "/sdcard/story1.wav") initial_shared.
Proof. split; vm_compute; reflexivity. Qed.

(** C8 as stated fails.  With the clip present in the track's folder only
    (so that it is the first existing candidate):
    - no announcement is raised when the folder path has 256 bytes;
    - none is raised when the heap cannot hold the candidate path;
    - with a folder path of 250 bytes the clip is found and a request is
      raised, but the path it stores is cut to 255 bytes and is not the
      path of the clip, nor of any file on the card. *)
Lemma story_clip_in_folder_not_always_announced :
  (story_clip_spec long_folder_card long_folder "S1.wav"
   = Some (long_folder ++ "/story1.wav")%string
   /\ announce_story V2 long_folder_card (long_folder ++ "/S1.wav")%string
        initial_shared = initial_shared)
  /\ (story_clip_spec (no_heap folder_clip_card) "/sdcard/02" "S1.wav"
      = Some "/sdcard/02/story1.wav"
      /\ announce_story RTOS (no_heap folder_clip_card) "/sdcard/02/S1.wav"
           initial_shared = initial_shared)
  /\ (story_clip_spec mid_folder_card mid_folder "S1.wav"
      = Some (mid_folder ++ "/story1.wav")%string
      /\ announce_request
           (announce_story V2 mid_folder_card (mid_folder ++ "/S1.wav")%string
              initial_shared) = true
      /\ announce_path
           (announce_story V2 mid_folder_card (mid_folder ++ "/S1.wav")%string
              initial_shared)
         = (mid_folder ++ "/stor")%string
      /\ file_exists mid_folder_card (mid_folder ++ "/stor")%string = false).
Proof.
  repeat split; vm_compute; reflexivity.
Qed.

(** ** Play/Pause on the track that is playing *)

Lemma play_pause_same_track v w st :
  nav_state st = NAV_FILE_VIEW ->
  g_playing st = true ->
  playing_track st = current_track st ->
  on_play_pause v w st = set_g_pause (negb (g_pause st)) st.
Proof.
  intros Hnav Hp Hsame. unfold on_play_pause, play_pause_file_view.
  rewrite Hnav, Hp, Hsame, Z.eqb_refl. reflexivity.
Qed.

Lemma write_chunk_quiet w vol chunk :
  existsb is_call (write_chunk w vol chunk) = false
  /\ existsb is_abort (write_chunk w vol chunk) = false.
Proof. unfold write_chunk. destruct (i2s_write_ok w); split; reflexivity. Qed.

(** While the stream of a track is not told to stop, a step of its chunk
    loop neither calls a stream nor aborts one. *)
Lemma track_loop_quiet v w s i os :
  pc s = PLoop (CTrk i) os ->
  not_stopped v (sh s) ->
  existsb is_call (snd (audio_step v w s)) = false
  /\ existsb is_abort (snd (audio_step v w s)) = false.
Proof.
  intros Hpc Hns. unfold audio_step, audio_outcome. rewrite Hpc. cbv zeta.
  cbn [snd].
  destruct v; cbn [not_stopped] in Hns.
  - destruct Hns as [Hp Ht]. unfold v1_loop. rewrite Hp, Ht. cbn [negb].
    destruct (g_stop_and_rewind (sh s)); cbn -[fread_chunk write_chunk];
      destruct (g_pause (sh s)); cbn -[fread_chunk write_chunk];
      try (split; reflexivity);
      match goal with
      | |- context [fread_chunk ?o] => destruct (fread_chunk o) eqn:E
      end; cbn -[write_chunk]; try (split; reflexivity);
      apply write_chunk_quiet.
  - unfold stream_step, stream_iter. cbn [stop_value pause_value].
    rewrite Hns.
    destruct (fread_chunk os) eqn:E; cbn -[write_chunk].
    + rewrite ?Hns. split; reflexivity.
    + apply write_chunk_quiet.
  - unfold stream_step, stream_iter. cbn [stop_value pause_value].
    rewrite Hns.
    destruct (g_pause (sh s)); [split; reflexivity|].
    destruct (fread_chunk os) eqn:E; cbn -[write_chunk].
    + rewrite ?Hns. split; reflexivity.
    + apply write_chunk_quiet.
Qed.

Lemma set_g_pause_not_stopped v b st :
  not_stopped v st -> not_stopped v (set_g_pause b st).
Proof. destruct v; exact (fun H => H). Qed.

(** C4: in the track list, Play/Pause or the rotary switch on the track
    that is playing only flips [g_pause]: no play request is signalled, and
    the chunk loop of the track's stream goes on without a new stream call
    and without aborting.  A play request is signalled only when nothing is
    playing (and the folder has tracks) or when another track is selected:
    v1 and v2 raise [track_change_request], RTOS sets [stop_flag] and
    overwrites the notification value with the track number plus one. *)
Theorem same_track_toggles_pause :
  forall v w st,
    nav_state st = NAV_FILE_VIEW ->
    (g_playing st = true -> playing_track st = current_track st ->
       on_play_pause v w st = set_g_pause (negb (g_pause st)) st
       /\ on_enc_switch v w st = set_g_pause (negb (g_pause st)) st
       /\ (forall s w' i os,
             sh s = st -> pc s = PLoop (CTrk i) os -> not_stopped v st ->
             let s' := with_sh s (on_play_pause v w st) in
             existsb is_call (snd (audio_step v w' s')) = false
             /\ existsb is_abort (snd (audio_step v w' s')) = false))
    /\ (g_playing st = true -> playing_track st <> current_track st ->
        on_play_pause v w st
        = signal_play v (set_g_pause false
                           (set_playing_track (current_track st) st)))
    /\ (g_playing st = false -> 0 < num_tracks st ->
        on_play_pause v w st
        = signal_play v (set_g_pause false
                           (set_g_playing true
                              (set_playing_track (current_track st) st))))
    /\ (g_playing st = false -> num_tracks st = 0 -> on_play_pause v w st = st)
    /\ (forall st0,
          track_change_request (signal_play V1 st0) = true
          /\ track_change_request (signal_play V2 st0) = true
          /\ stop_flag (signal_play RTOS st0) = true
          /\ (audio_task_handle st0 = true ->
              notify (signal_play RTOS st0) = wrap_u32 (current_track st0 + 1))).
Proof.
  intros v w st Hnav.
  split.
  { intros Hp Hsame.
    pose proof (play_pause_same_track v w st Hnav Hp Hsame) as Heq.
    split; [exact Heq|]. split; [exact Heq|].
    intros s w' i os Hsh Hpc Hns. cbv zeta. rewrite Heq.
    apply (track_loop_quiet v w' _ i os).
    - exact Hpc.
    - cbn [with_sh with_audio sh]. apply set_g_pause_not_stopped, Hns. }
  split.
  { intros Hp Hdiff. unfold on_play_pause, play_pause_file_view.
    rewrite Hnav, Hp. cbn [negb].
    destruct (Z.eqb_spec (playing_track st) (current_track st));
      [contradiction|reflexivity]. }
  split.
  { intros Hp Htr. unfold on_play_pause, play_pause_file_view.
    rewrite Hnav, Hp. cbn [negb].
    destruct (Z.gtb_spec (num_tracks st) 0); [reflexivity|lia]. }
  split.
  { intros Hp Htr. unfold on_play_pause, play_pause_file_view.
    rewrite Hnav, Hp, Htr. reflexivity. }
  intros st0. unfold signal_play, notify_overwrite.
  repeat split.
  - cbn. destruct (audio_task_handle st0); reflexivity.
  - intros Hh. cbn. rewrite Hh. reflexivity.
Qed.

Lemma same_track_toggles_pause_witness :
  on_play_pause RTOS demo_card (sh demo_playing)
  = set_g_pause true (sh demo_playing).
Proof.
  exact (proj1 (proj1 (same_track_toggles_pause RTOS demo_card (sh demo_playing)
                         eq_refl) eq_refl eq_refl)).
Defined.

(** ** End of file *)

Lemma in_emit_close who r o :
  In (EvReturn who r) (o_evs (emit (stream_close who r) o)).
Proof. rewrite emit_evs. cbn. auto. Qed.

(** The boot streams never follow themselves. *)
Lemma boot_finish_pc v st : o_pc (boot_finish v st) = PIdle.
Proof. destruct v; reflexivity. Qed.

Lemma boot_finish_evs v st : o_evs (boot_finish v st) = [].
Proof. destruct v; reflexivity. Qed.

Lemma stream_open_no_write v w who path :
  existsb is_write (fst (stream_open v w who path)) = false.
Proof.
  unfold stream_open, failed.
  split_tests; cbn; rewrite ?existsb_app; cbn; reflexivity.
Qed.

Lemma boot_home_no_write v w st :
  existsb is_write (o_evs (boot_home v w st)) = false
  /\ forall os, o_pc (boot_home v w st) <> PLoop CWelcome os.
Proof.
  unfold boot_home.
  destruct (file_exists w _).
  - pose proof (stream_open_no_write v w CHome (Some "/sdcard/home.wav")) as H.
    destruct (stream_open _ _ _ _) as [evs [os|]]; cbn [fst] in H.
    + split; [exact H | discriminate].
    + rewrite emit_evs, emit_pc, existsb_app, H, boot_finish_evs, boot_finish_pc.
      split; [reflexivity | discriminate].
  - rewrite boot_finish_evs, boot_finish_pc. split; [reflexivity | discriminate].
Qed.

Lemma after_stream_no_write v w who st :
  existsb is_write (o_evs (after_stream v w who st)) = false
  /\ forall os, o_pc (after_stream v w who st) <> PLoop who os.
Proof.
  unfold after_stream. destruct who.
  - apply boot_home_no_write.
  - rewrite boot_finish_evs, boot_finish_pc. split; [reflexivity | discriminate].
  - split; [reflexivity | discriminate].
  - destruct v; [| destruct (announce_request st) |];
      (split; [reflexivity | discriminate]).
Qed.

Lemma stream_step_eof v w who os st :
  match stop_value v who st with Some true => false | _ => true end = true ->
  match pause_value v who st with Some true => false | _ => true end = true ->
  fread_chunk os = [] ->
  stream_step v w who os st
  = emit (stream_close who SCompleted) (after_stream v w who st).
Proof.
  intros Hs Hp He. unfold stream_step, stream_iter. rewrite He.
  destruct (stop_value v who st) as [[|]|]; try discriminate;
    destruct (pause_value v who st) as [[|]|]; try discriminate; reflexivity.
Qed.

Lemma eof_ends_stream_shared v :
  v <> V1 -> eof_ends_stream v.
Proof.
  intros Hv w s who os Hpc Hr He.
  assert (Hstep : audio_outcome v w s
                  = emit (stream_close who SCompleted)
                      (after_stream v w who (sh s))).
  { unfold audio_outcome. rewrite Hpc.
    assert (Hr' : reads_chunk v who (sh s)
                  = (match stop_value v who (sh s) with Some true => false | _ => true end
                     && match pause_value v who (sh s) with Some true => false | _ => true end)%bool)
      by (destruct v; [contradiction | reflexivity | reflexivity]).
    rewrite Hr' in Hr. apply andb_true_iff in Hr. destruct Hr as [Hs Hp].
    destruct v; [contradiction | |];
      destruct who; apply stream_step_eof; assumption. }
  unfold audio_step. cbv zeta. cbn [fst snd with_audio pc]. rewrite Hstep.
  destruct (after_stream_no_write v w who (sh s)) as [Hw Hne].
  split; [apply in_emit_close|].
  split.
  - rewrite emit_evs, existsb_app, Hw. reflexivity.
  - rewrite emit_pc. exact Hne.
Qed.

(** v1 at end of file: the position goes back to the start of the data and
    the loop goes on. *)
Lemma v1_loop_eof w s i os :
  pc s = PLoop (CTrk i) os ->
  reads_chunk V1 (CTrk i) (sh s) = true ->
  g_stop_and_rewind (sh s) = false ->
  fread_chunk os = [] ->
  audio_step V1 w s = (with_audio s (sh s) (PLoop (CTrk i) (rewind os)), []).
Proof.
  intros Hpc Hr Hsr He. unfold audio_step, audio_outcome. rewrite Hpc.
  cbn [reads_chunk] in Hr.
  apply andb_true_iff in Hr. destruct Hr as [Hr Hpause].
  apply andb_true_iff in Hr. destruct Hr as [Hplay Htcr].
  apply negb_true_iff in Hpause, Htcr.
  unfold v1_loop. rewrite Hplay, Htcr, Hsr. cbn [negb]. rewrite Hpause, He.
  reflexivity.
Qed.

(** C7 (as amended): in v2 and in RTOS a chunk read that yields no byte
    ends the loop of [stream_file_interruptible]; the call returns as
    completed and nothing is replayed.  In v1, whose [audio_task] streams
    inline, the same read seeks back to the start of the data and the loop
    goes on: the track is replayed until playback is stopped or another
    track is requested. *)
Theorem end_of_file_ends_stream :
  eof_ends_stream V2
  /\ eof_ends_stream RTOS
  /\ stream_returns SCompleted = true
  /\ (forall w s i os,
        pc s = PLoop (CTrk i) os ->
        reads_chunk V1 (CTrk i) (sh s) = true ->
        g_stop_and_rewind (sh s) = false ->
        fread_chunk os = [] ->
        audio_step V1 w s
        = (with_audio s (sh s) (PLoop (CTrk i) (rewind os)), [])).
Proof.
  split; [apply eof_ends_stream_shared; discriminate|].
  split; [apply eof_ends_stream_shared; discriminate|].
  split; [reflexivity|].
  exact v1_loop_eof.
Qed.

Lemma end_of_file_ends_stream_witness :
  In (EvReturn (CTrk 0) SCompleted) (snd (audio_step RTOS demo_card rtos_at_eof))
  /\ pc (fst (audio_step RTOS demo_card rtos_at_eof)) = PIdle.
Proof.
  assert (Hpc : pc rtos_at_eof = PLoop (CTrk 0) (demo_stream []))
    by (vm_compute; reflexivity).
  assert (Hr : reads_chunk RTOS (CTrk 0) (sh rtos_at_eof) = true)
    by (vm_compute; reflexivity).
  destruct (proj1 (proj2 end_of_file_ends_stream) demo_card rtos_at_eof
              (CTrk 0) (demo_stream []) Hpc Hr eq_refl) as (Hin & _ & _).
  split; [exact Hin|].
  vm_compute. reflexivity.
Defined.

(** C7 as stated fails for v1: after the data of S1.wav has been written
    once, the next two steps of the audio side write it again, and no
    stream returns. *)
Lemma v1_replays_at_end_of_file :
  (exists os, pc v1_at_eof = PLoop (CTrk 0) os /\ fread_chunk os = [])
  /\ snd (run V1 [LAudio demo_card; LAudio demo_card] v1_at_eof)
     = [EvI2SWrite four_bytes true]
  /\ ~ eof_ends_stream V1.
Proof.
  split; [eexists; split; vm_compute; reflexivity|].
  split; [vm_compute; reflexivity|].
  intros H.
  assert (Hpc : pc v1_at_eof = PLoop (CTrk 0) (demo_stream []))
    by (vm_compute; reflexivity).
  assert (Hr : reads_chunk V1 (CTrk 0) (sh v1_at_eof) = true)
    by (vm_compute; reflexivity).
  destruct (H demo_card v1_at_eof (CTrk 0) (demo_stream []) Hpc Hr eq_refl)
    as (Hin & _).
  vm_compute in Hin. exact Hin.
Qed.

(** ** A stream call that fails *)




(** RTOS: a failed call from the idle point leaves the notification value
    empty, so the task blocks until the input side notifies it again. *)
(** The audio side after a stream leaves the signalling words alone. *)
Lemma boot_finish_signals v st : signals (o_sh (boot_finish v st)) = signals st.
Proof. destruct v; reflexivity. Qed.

Lemma boot_home_signals v w st : signals (o_sh (boot_home v w st)) = signals st.
Proof.
  unfold boot_home.
  destruct (file_exists w _); [|apply boot_finish_signals].
  destruct (stream_open _ _ _ _) as [evs [os|]]; [reflexivity|].
  rewrite emit_sh. apply boot_finish_signals.
Qed.

Lemma after_stream_signals v w who st :
  signals (o_sh (after_stream v w who st)) = signals st.
Proof.
  unfold after_stream.
  destruct who; [apply boot_home_signals | apply boot_finish_signals | reflexivity |].
  destruct v; [reflexivity | | reflexivity].
  destruct (announce_request st); reflexivity.
Qed.

Lemma signals_fields st st' :
  signals st' = signals st ->
  notify st' = notify st /\ stop_flag st' = stop_flag st
  /\ announce_request st' = announce_request st.
Proof. unfold signals. intros H. injection H. auto. Qed.



Lemma with_audio_same (s : system) : with_audio s (sh s) (pc s) = s.
Proof. destruct s; reflexivity. Qed.









(** ** One stream at a time *)

(** The double does refuse overlapping streams: a second call, or a second
    install, while a stream holds the output. *)
Example monitor_refuses_overlap :
  monitor dev_idle
    [EvCall (CTrk 0) (Some "a.wav"); EvI2SInstall 8000 true true;
     EvCall CAnn (Some "b.wav")] = None
  /\ monitor dev_idle
       [EvCall (CTrk 0) (Some "a.wav"); EvI2SInstall 8000 true true;
        EvI2SWrite four_bytes true; EvI2SInstall 8000 true true] = None
  /\ monitor dev_idle
       [EvCall (CTrk 0) (Some "a.wav"); EvI2SInstall 8000 true true;
        EvReturn (CTrk 0) SCompleted] = None
  /\ monitor dev_idle [EvI2SWrite four_bytes true] = None.
Proof. repeat split. Qed.

Lemma monitor_app d a b :
  monitor d (a ++ b) =
  match monitor d a with
  | Some d' => monitor d' b
  | None => None
  end.
Proof.
  revert d. induction a as [|e a IH]; intros d; cbn [monitor app]; [reflexivity|].
  destruct (monitor_step d e); [apply IH | reflexivity].
Qed.

Lemma caller_eqb_refl who : caller_eqb who who = true.
Proof. destruct who; cbn; try reflexivity. apply Z.eqb_refl. Qed.

Lemma accepted_emit d d' evs o :
  monitor d evs = Some d' -> accepted_from d' o -> accepted_from d (emit evs o).
Proof.
  unfold accepted_from. intros H1 H2.
  rewrite emit_evs, emit_pc, monitor_app, H1. exact H2.
Qed.

Lemma stream_open_monitor_eq v w who path evs r :
  stream_open v w who path = (evs, r) ->
  monitor dev_idle evs
  = Some (match r with Some _ => dev_busy who | None => dev_idle end).
Proof.
  unfold stream_open, failed. intros H.
  destruct path as [p|];
    [|injection H as <- <-; cbn; rewrite caller_eqb_refl; reflexivity].
  destruct (file_bytes w p) as [f|];
    [|injection H as <- <-; cbn; rewrite caller_eqb_refl; reflexivity].
  destruct (parse_wav_header f) as [wi|];
    [|injection H as <- <-; cbn; rewrite caller_eqb_refl; reflexivity].
  destruct (negb (bits_per_sample wi =? 16));
    [injection H as <- <-; cbn; rewrite caller_eqb_refl; reflexivity|].
  destruct (i2s_install_ok w); cbn [negb] in H;
    [|injection H as <- <-; cbn; rewrite caller_eqb_refl; reflexivity].
  destruct (i2s_set_pin_ok w); cbn [negb] in H;
    [|injection H as <- <-; cbn; rewrite caller_eqb_refl; reflexivity].
  destruct (malloc_ok w (chunk_bytes wi)); cbn [negb] in H;
    injection H as <- <-; destruct (i2s_set_clk_ok w); cbn;
    rewrite ?caller_eqb_refl; reflexivity.
Qed.

Lemma stream_open_monitor v w who path :
  monitor dev_idle (fst (stream_open v w who path))
  = Some (match snd (stream_open v w who path) with
          | Some _ => dev_busy who
          | None => dev_idle
          end).
Proof.
  destruct (stream_open v w who path) as [evs r] eqn:H.
  exact (stream_open_monitor_eq _ _ _ _ _ _ H).
Qed.

Lemma write_chunk_monitor w vol chunk who :
  monitor (dev_busy who) (write_chunk w vol chunk) = Some (dev_busy who).
Proof. unfold write_chunk. destruct (i2s_write_ok w); reflexivity. Qed.

Lemma stream_close_monitor who r :
  monitor (dev_busy who) (stream_close who r) = Some dev_idle.
Proof. cbn. rewrite caller_eqb_refl. reflexivity. Qed.

Lemma boot_finish_accepted v st : accepted_from dev_idle (boot_finish v st).
Proof. destruct v; reflexivity. Qed.

Lemma opened_or_failed v w who path st (k : outcome) :
  accepted_from dev_idle k ->
  accepted_from dev_idle
    match stream_open v w who path with
    | (evs, Some os) => (st, PLoop who os, evs)
    | (evs, None) => emit evs k
    end.
Proof.
  intros Hk. pose proof (stream_open_monitor v w who path) as H.
  destruct (stream_open v w who path) as [evs [os|]]; cbn [fst snd] in H.
  - exact H.
  - eapply accepted_emit; eassumption.
Qed.

Lemma boot_home_accepted v w st : accepted_from dev_idle (boot_home v w st).
Proof.
  unfold boot_home. destruct (file_exists w _).
  - apply opened_or_failed, boot_finish_accepted.
  - apply boot_finish_accepted.
Qed.

Lemma boot_welcome_accepted v w st :
  accepted_from dev_idle (boot_welcome v w st).
Proof.
  unfold boot_welcome. destruct (file_exists w _).
  - apply opened_or_failed, boot_home_accepted.
  - apply boot_home_accepted.
Qed.

Lemma app_main_boot_accepted v w st :
  accepted_from dev_idle (app_main_boot v w st).
Proof.
  unfold app_main_boot.
  destruct (negb (sd_ok w)).
  - eapply accepted_emit; [reflexivity | apply boot_finish_accepted].
  - destruct (num_folders _ >? 0); destruct v;
      (eapply accepted_emit;
       [reflexivity
       | first [apply boot_finish_accepted | apply boot_welcome_accepted]]).
Qed.

Lemma after_stream_accepted v w who st :
  accepted_from dev_idle (after_stream v w who st).
Proof.
  unfold after_stream. destruct who.
  - apply boot_home_accepted.
  - apply boot_finish_accepted.
  - reflexivity.
  - destruct v; [reflexivity | destruct (announce_request st); reflexivity
                | reflexivity].
Qed.

Lemma call_stream_accepted v w who path st :
  accepted_from dev_idle (call_stream v w who path st).
Proof. unfold call_stream. apply opened_or_failed, after_stream_accepted. Qed.

Lemma stream_step_accepted v w who os st :
  accepted_from (dev_busy who) (stream_step v w who os st).
Proof.
  unfold stream_step, stream_iter.
  destruct (stop_value v who st) as [[|]|];
    try (eapply accepted_emit;
         [cbn; rewrite caller_eqb_refl; reflexivity | apply after_stream_accepted]);
    (destruct (pause_value v who st) as [[|]|]; try reflexivity;
     (destruct (fread_chunk os) eqn:E;
      [eapply accepted_emit;
       [cbn; rewrite caller_eqb_refl; reflexivity | apply after_stream_accepted]
      | unfold accepted_from; cbn [o_evs o_pc fst snd dev_of_pc];
        apply write_chunk_monitor])).
Qed.

Lemma v1_idle_accepted w st : accepted_from dev_idle (v1_idle w st).
Proof.
  unfold v1_idle.
  repeat match goal with
         | |- context [if ?b then _ else _] => destruct b
         end; try reflexivity.
  match goal with
  | |- context [stream_open V1 w ?who ?p] =>
      pose proof (stream_open_monitor V1 w who p) as H;
      destruct (stream_open V1 w who p) as [evs [os|]]
  end; exact H.
Qed.

Lemma v1_loop_accepted w who os st :
  accepted_from (dev_busy who) (v1_loop w who os st).
Proof.
  unfold v1_loop.
  destruct (negb (g_playing st)); [apply stream_close_monitor|].
  destruct (track_change_request st);
    [unfold accepted_from; cbn; rewrite caller_eqb_refl; reflexivity|].
  destruct (g_stop_and_rewind st); cbn -[fread_chunk write_chunk];
    destruct (g_pause _); try reflexivity;
    match goal with
    | |- context [fread_chunk ?o] => destruct (fread_chunk o)
    end; try reflexivity;
    unfold accepted_from; cbn [o_evs o_pc fst snd dev_of_pc app monitor
                                 monitor_step];
    apply write_chunk_monitor.
Qed.

Lemma v2_idle_accepted w st : accepted_from dev_idle (v2_idle w st).
Proof.
  unfold v2_idle.
  repeat match goal with
         | |- context [if ?b then _ else _] => destruct b
         end; try reflexivity;
    (eapply accepted_emit; [reflexivity | apply call_stream_accepted]).
Qed.

Lemma rtos_idle_accepted w st : accepted_from dev_idle (rtos_idle w st).
Proof. unfold rtos_idle. destruct (notify st =? 0); reflexivity. Qed.

Lemma rtos_taken_accepted w val st :
  accepted_from dev_idle (rtos_taken w val st).
Proof.
  unfold rtos_taken.
  repeat match goal with
         | |- context [if ?b then _ else _] => destruct b
         end; try reflexivity;
    (eapply accepted_emit; [reflexivity | apply call_stream_accepted]).
Qed.

Lemma audio_outcome_accepted v w s :
  accepted_from (dev_of_pc (pc s)) (audio_outcome v w s).
Proof.
  unfold audio_outcome. destruct (pc s) as [| |val|who os]; cbn [dev_of_pc].
  - apply app_main_boot_accepted.
  - destruct v; [apply v1_idle_accepted | apply v2_idle_accepted
                | apply rtos_idle_accepted].
  - destruct v; [reflexivity | reflexivity | apply rtos_taken_accepted].
  - destruct v; try apply stream_step_accepted.
    destruct who; try apply stream_step_accepted. apply v1_loop_accepted.
Qed.

Lemma poll_button_pc v w b lvl t s : pc (poll_button v w b lvl t s) = pc s.
Proof.
  unfold poll_button. destruct b; destruct (read_button_press _ _ _); reflexivity.
Qed.

Lemma encoder_step_pc v w ev now s : pc (encoder_step v w ev now s) = pc s.
Proof.
  unfold encoder_step. destruct (encoder_task _ _ _ _ _ _). reflexivity.
Qed.

Lemma sys_step_accepted v l s :
  monitor (dev_of_pc (pc s)) (snd (sys_step v l s))
  = Some (dev_of_pc (pc (fst (sys_step v l s)))).
Proof.
  destruct l as [w|w b lvl t|w ev now]; cbn [sys_step].
  - apply audio_outcome_accepted.
  - destruct (booted s); cbn [fst snd monitor]; rewrite ?poll_button_pc; reflexivity.
  - destruct (booted s); cbn [fst snd monitor]; rewrite ?encoder_step_pc; reflexivity.
Qed.

Lemma run_accepted v ls :
  forall s,
    monitor (dev_of_pc (pc s)) (snd (run v ls s))
    = Some (dev_of_pc (pc (fst (run v ls s)))).
Proof.
  induction ls as [|l ls IH]; intros s; cbn [run]; [reflexivity|].
  pose proof (sys_step_accepted v l s) as H1.
  destruct (sys_step v l s) as [s1 e1]. cbn [fst snd] in H1.
  specialize (IH s1). destruct (run v ls s1) as [s2 e2]. cbn [fst snd] in *.
  rewrite monitor_app, H1. exact IH.
Qed.

(** C2: along every run of each revision, from power-up, the events of the
    audio output are accepted by the test double, which would refuse any
    call, install, write, uninstall or return that overlaps another stream;
    and at every polling point the output is held exactly when the audio
    side is inside the chunk loop of one stream, by that stream's caller.
    So a stream is configured only after the previous one has stopped and
    released the output. *)
Theorem one_stream_at_a_time :
  forall v ls,
    monitor dev_idle (snd (run v ls initial_system))
    = Some (dev_of_pc (pc (fst (run v ls initial_system)))).
Proof.
  intros v ls. exact (run_accepted v ls initial_system).
Qed.

(** ** Announcements come first *)

Lemma input_rel_refl st : input_rel st st.
Proof. split; right; auto. Qed.

Lemma input_rel_trans st1 st2 st3 :
  input_rel st1 st2 -> input_rel st2 st3 -> input_rel st1 st3.
Proof.
  intros [Ha Hs] [Ha' Hs']. split.
  - destruct Ha' as [|Ha']; [left; assumption|].
    destruct Ha as [Ha|Ha]; [left|right]; congruence.
  - destruct Hs' as [|[Hs1 Hs2]]; [left; assumption|].
    destruct Hs as [Hs|[Hs3 Hs4]]; [left|right; split]; congruence.
Qed.

Lemma input_rel_signals st st' :
  signals st' = signals st -> input_rel st st'.
Proof.
  unfold signals. intros H. injection H as H1 H2 H3 _.
  split; right; auto.
Qed.

Lemma request_announcement_rel v q st :
  input_rel st (request_announcement v q st).
Proof.
  unfold request_announcement, notify_set_bits.
  destruct q as [p|]; [|apply input_rel_refl].
  destruct v; [apply input_rel_refl | split; cbn; auto |].
  cbn -[string_take Z.lor]. destruct (audio_task_handle st); split; cbn; auto.
Qed.

Lemma announce_stories_rel v w fp st :
  input_rel st (announce_stories v w fp st).
Proof.
  destruct (announce_stories_request v w fp st) as [q ->].
  apply request_announcement_rel.
Qed.

Lemma announce_story_rel v w f st :
  input_rel st (announce_story v w f st).
Proof.
  destruct (announce_story_request v w f st) as [q ->].
  apply request_announcement_rel.
Qed.

Lemma signal_play_rel v st : input_rel st (signal_play v st).
Proof.
  unfold signal_play, notify_overwrite.
  destruct v; [split; cbn; auto | split; cbn; auto |].
  cbn. destruct (audio_task_handle st); split; cbn; auto.
Qed.

Lemma enter_folder_rel v w st : input_rel st (enter_folder v w st).
Proof.
  unfold enter_folder.
  destruct (num_folders st >? 0); [|apply input_rel_refl].
  eapply input_rel_trans; [apply (announce_stories_rel v w)|].
  eapply input_rel_trans;
    [|destruct (_ >? 0); [apply announce_story_rel | apply input_rel_refl]].
  apply input_rel_signals. reflexivity.
Qed.

Lemma play_pause_file_view_rel v st :
  input_rel st (play_pause_file_view v st).
Proof.
  unfold play_pause_file_view.
  split_tests; try apply input_rel_refl;
    try (apply input_rel_signals; reflexivity);
    (eapply input_rel_trans; [|apply signal_play_rel];
     apply input_rel_signals; reflexivity).
Qed.

Lemma on_play_pause_rel v w st : input_rel st (on_play_pause v w st).
Proof.
  unfold on_play_pause. destruct (nav_state st).
  - destruct (_ >? 0); [apply input_rel_signals; reflexivity | apply input_rel_refl].
  - apply enter_folder_rel.
  - apply play_pause_file_view_rel.
Qed.

Lemma on_home_rel v w st : input_rel st (on_home v w st).
Proof.
  unfold on_home. destruct (nav_state st).
  - apply input_rel_refl.
  - destruct v; [apply input_rel_signals; reflexivity | |];
      (destruct (file_exists w _);
       [eapply input_rel_trans; [|apply request_announcement_rel];
        apply input_rel_signals; reflexivity
       | apply input_rel_signals; reflexivity]).
  - destruct (g_playing st); [|apply input_rel_signals; reflexivity].
    destruct v; split; cbn; auto.
Qed.

Lemma on_enc_step_rel v w dt st : input_rel st (on_enc_step v w dt st).
Proof.
  unfold on_enc_step.
  destruct (nav_state st); destruct (_ >? 0); try apply input_rel_refl;
    (eapply input_rel_trans;
     [|first [apply announce_stories_rel | apply announce_story_rel]];
     apply input_rel_signals; reflexivity).
Qed.

Lemma encoder_task_rel v w ev now el st :
  input_rel st (snd (encoder_task v w ev now el st)).
Proof.
  unfold encoder_task, on_enc_switch.
  split_tests; cbn [snd];
    auto using input_rel_refl, on_enc_step_rel, on_play_pause_rel.
Qed.

(** One step of the input side. *)
Lemma input_step_rel v l s :
  inputs_only [l] = true ->
  input_rel (sh s) (sh (fst (sys_step v l s)))
  /\ pc (fst (sys_step v l s)) = pc s
  /\ snd (sys_step v l s) = [].
Proof.
  destruct l as [w|w b lvl t|w ev now]; [discriminate| |]; intros _;
    cbn [sys_step]; (destruct (booted s);
                     [|split; [apply input_rel_refl | split; reflexivity]]);
    cbn [fst snd].
  - split; [|split; [apply poll_button_pc | reflexivity]].
    unfold poll_button.
    destruct b; destruct (read_button_press _ _ _) as [[|] b']; cbn [sh];
      try apply input_rel_refl.
    + apply on_play_pause_rel.
    + apply on_home_rel.
    + rewrite on_vol_up_eq. apply input_rel_signals. reflexivity.
    + rewrite on_vol_down_eq. apply input_rel_signals. reflexivity.
  - split; [|split; [apply encoder_step_pc | reflexivity]].
    unfold encoder_step.
    pose proof (encoder_task_rel v w ev now (enc s) (sh s)) as H.
    destruct (encoder_task _ _ _ _ _ _) as [el st]. exact H.
Qed.

Lemma inputs_run_rel v ls :
  forall s,
    inputs_only ls = true ->
    input_rel (sh s) (sh (fst (run v ls s)))
    /\ pc (fst (run v ls s)) = pc s
    /\ snd (run v ls s) = [].
Proof.
  induction ls as [|l ls IH]; intros s Hin; cbn [run].
  - split; [apply input_rel_refl | split; reflexivity].
  - cbn [inputs_only forallb] in Hin. apply andb_true_iff in Hin.
    destruct Hin as [Hl Hls].
    destruct (input_step_rel v l s) as (H1 & H2 & H3);
      [cbn [inputs_only forallb]; rewrite Hl; reflexivity|].
    destruct (sys_step v l s) as [s1 e1]. cbn [fst snd] in *.
    destruct (IH s1 Hls) as (H4 & H5 & H6).
    destruct (run v ls s1) as [s2 e2]. cbn [fst snd] in *.
    subst e1 e2. split; [eapply input_rel_trans; eassumption|].
    split; [congruence | reflexivity].
Qed.

(** No stream for a track is called by the boot code or after a stream. *)
Lemma stream_open_track_call v w who path :
  existsb is_track_call (fst (stream_open v w who path)) = is_track who.
Proof.
  unfold stream_open, failed.
  destruct who; split_tests; cbn; rewrite ?existsb_app; reflexivity.
Qed.

Lemma boot_home_no_track_call v w st :
  existsb is_track_call (o_evs (boot_home v w st)) = false.
Proof.
  unfold boot_home.
  destruct (file_exists w _); [|rewrite boot_finish_evs; reflexivity].
  pose proof (stream_open_track_call v w CHome (Some "/sdcard/home.wav")) as H.
  destruct (stream_open _ _ _ _) as [evs [os|]]; cbn [fst] in H; [exact H|].
  rewrite emit_evs, existsb_app, H, boot_finish_evs. reflexivity.
Qed.

Lemma boot_welcome_no_track_call v w st :
  existsb is_track_call (o_evs (boot_welcome v w st)) = false.
Proof.
  unfold boot_welcome.
  destruct (file_exists w _); [|apply boot_home_no_track_call].
  pose proof (stream_open_track_call v w CWelcome (Some "/sdcard/welcome.wav")) as H.
  destruct (stream_open _ _ _ _) as [evs [os|]]; cbn [fst] in H; [exact H|].
  rewrite emit_evs, existsb_app, H, boot_home_no_track_call. reflexivity.
Qed.

Lemma app_main_boot_no_track_call v w st :
  existsb is_track_call (o_evs (app_main_boot v w st)) = false.
Proof.
  unfold app_main_boot.
  destruct (negb (sd_ok w)).
  - rewrite emit_evs, boot_finish_evs. reflexivity.
  - destruct (num_folders _ >? 0); destruct v;
      rewrite emit_evs, existsb_app;
      rewrite ?boot_finish_evs, ?boot_welcome_no_track_call; reflexivity.
Qed.

Lemma after_stream_no_track_call v w who st :
  existsb is_track_call (o_evs (after_stream v w who st)) = false.
Proof.
  unfold after_stream. destruct who.
  - apply boot_home_no_track_call.
  - rewrite boot_finish_evs. reflexivity.
  - reflexivity.
  - destruct v; [reflexivity | destruct (announce_request st); reflexivity
                | reflexivity].
Qed.

Lemma call_stream_track_call v w who path st :
  existsb is_track_call (o_evs (call_stream v w who path st)) = is_track who.
Proof.
  unfold call_stream.
  pose proof (stream_open_track_call v w who path) as H.
  destruct (stream_open _ _ _ _) as [evs [os|]]; cbn [fst] in H; [exact H|].
  rewrite emit_evs, existsb_app, H, after_stream_no_track_call.
  apply orb_false_r.
Qed.

Lemma write_chunk_no_track_call w vol chunk :
  existsb is_track_call (write_chunk w vol chunk) = false.
Proof. unfold write_chunk. destruct (i2s_write_ok w); reflexivity. Qed.

Lemma stream_step_no_track_call v w who os st :
  existsb is_track_call (o_evs (stream_step v w who os st)) = false.
Proof.
  unfold stream_step, stream_iter.
  destruct (stop_value v who st) as [[|]|];
    try (rewrite emit_evs, existsb_app, after_stream_no_track_call; reflexivity);
    (destruct (pause_value v who st) as [[|]|]; try reflexivity;
     (destruct (fread_chunk os) eqn:E;
      [rewrite emit_evs, existsb_app, after_stream_no_track_call; reflexivity
      | apply write_chunk_no_track_call])).
Qed.

(** A stream told to stop at a poll: it logs the interruption, releases the
    output and returns as aborted, without reading or writing. *)
Lemma stream_step_stopped v w who os st :
  stop_value v who st = Some true ->
  stream_step v w who os st
  = emit (EvLog LOGI MsgInterrupted :: stream_close who SAborted)
      (after_stream v w who st).
Proof.
  intros H. unfold stream_step, stream_iter. rewrite H. reflexivity.
Qed.

Lemma after_track_evs v w i st :
  existsb is_call (o_evs (after_stream v w (CTrk i) st)) = false
  /\ existsb is_write (o_evs (after_stream v w (CTrk i) st)) = false
  /\ o_pc (after_stream v w (CTrk i) st) = PIdle.
Proof.
  cbn [after_stream].
  destruct v; [| destruct (announce_request st) |]; repeat split.
Qed.

(** The announce bit of the notification value. *)
Lemma announce_bit_test (n : Z) :
  (Z.land n NOTIFY_ANNOUNCE_BIT =? 0) = negb (Z.testbit n 31).
Proof.
  unfold NOTIFY_ANNOUNCE_BIT. rewrite Z.shiftl_1_l.
  destruct (Z.testbit n 31) eqn:Hb; cbn [negb].
  - apply Z.eqb_neq. intros H0.
    assert (Ht : Z.testbit (Z.land n (2 ^ 31)) 31 = true)
      by (rewrite Z.land_spec, Hb, Z.pow2_bits_true by lia; reflexivity).
    rewrite H0, Z.bits_0 in Ht. discriminate Ht.
  - apply Z.eqb_eq. apply Z.bits_inj'. intros k Hk.
    rewrite Z.land_spec, Z.bits_0, Z.pow2_bits_eqb by lia.
    destruct (Z.eqb_spec 31 k) as [<-|_]; [rewrite Hb; reflexivity|].
    apply andb_false_r.
Qed.

Lemma announce_bit_nonzero (n : Z) : Z.testbit n 31 = true -> (n =? 0) = false.
Proof.
  intros H. apply Z.eqb_neq. intros ->. rewrite Z.bits_0 in H. discriminate H.
Qed.

(** A stream call begins with its [EvCall]. *)
Lemma stream_open_head v w who p :
  exists rest, fst (stream_open v w who (Some p)) = EvCall who (Some p) :: rest.
Proof.
  unfold stream_open, failed.
  destruct (file_bytes w p) as [f|]; [|eexists; reflexivity].
  destruct (parse_wav_header f) as [wi|]; [|eexists; reflexivity].
  destruct (negb (bits_per_sample wi =? 16)); [eexists; reflexivity|].
  destruct (negb (i2s_install_ok w)); [eexists; reflexivity|].
  destruct (negb (i2s_set_pin_ok w)); [eexists; reflexivity|].
  destruct (negb (malloc_ok w (chunk_bytes wi))); eexists; reflexivity.
Qed.

Lemma call_stream_head v w who p st :
  exists rest,
    o_evs (call_stream v w who (Some p) st) = EvCall who (Some p) :: rest.
Proof.
  unfold call_stream.
  destruct (stream_open_head v w who p) as [rest H].
  destruct (stream_open v w who (Some p)) as [evs [os|]]; cbn [fst] in H.
  - exists rest. exact H.
  - rewrite emit_evs, H. eexists. reflexivity.
Qed.

(** The streaming code leaves the request signals alone. *)
Lemma call_stream_signals v w who path st :
  signals (o_sh (call_stream v w who path st)) = signals st.
Proof.
  unfold call_stream.
  destruct (stream_open _ _ _ _) as [evs [os|]]; [reflexivity|].
  rewrite emit_sh. apply after_stream_signals.
Qed.

Lemma stream_step_signals v w who os st :
  signals (o_sh (stream_step v w who os st)) = signals st.
Proof.
  unfold stream_step.
  destruct (stream_iter _ _ _ _ _) as [evs [os'|r]]; [reflexivity|].
  rewrite emit_sh. apply after_stream_signals.
Qed.

(** With an announcement in hand the arbiter calls the stream of the
    announcement, on the pending path, and no track: v2 at the top of its
    loop with [announce_request] set, RTOS once [xTaskNotifyWait] has
    returned a value with the announce bit. *)
Lemma v2_idle_takes_announcement w st :
  announce_request st = true ->
  let p := strncpy_buf ANNOUNCE_PATH_MAX (announce_path st) in
  (exists rest,
      o_evs (v2_idle w st)
      = EvLog LOGI (MsgAnnounce p) :: EvCall CAnn (Some p) :: rest)
  /\ existsb is_track_call (o_evs (v2_idle w st)) = false
  /\ announce_request (o_sh (v2_idle w st)) = false.
Proof.
  intros Hp. cbv zeta. unfold v2_idle. rewrite Hp.
  match goal with
  | |- context [call_stream V2 w CAnn (Some ?p) ?st1] =>
      destruct (call_stream_head V2 w CAnn p st1) as [rest Hr];
      pose proof (call_stream_track_call V2 w CAnn (Some p) st1) as Htc;
      pose proof (call_stream_signals V2 w CAnn (Some p) st1) as Hs
  end.
  rewrite emit_evs, emit_sh. cbn [app existsb is_track_call orb].
  rewrite Hr in *.
  split; [eexists; reflexivity|]. split; [exact Htc|].
  rewrite (proj2 (proj2 (signals_fields _ _ Hs))). reflexivity.
Qed.

Lemma rtos_taken_takes_announcement w val st :
  Z.testbit val 31 = true ->
  let p := strncpy_buf ANNOUNCE_PATH_MAX (announce_path st) in
  (exists rest,
      o_evs (rtos_taken w val st)
      = EvLog LOGI (MsgAnnounce p) :: EvCall CAnn (Some p) :: rest)
  /\ existsb is_track_call (o_evs (rtos_taken w val st)) = false.
Proof.
  intros Hp. cbv zeta. unfold rtos_taken.
  rewrite announce_bit_test, Hp. cbn [negb].
  match goal with
  | |- context [call_stream RTOS w CAnn (Some ?p) ?st1] =>
      destruct (call_stream_head RTOS w CAnn p st1) as [rest Hr];
      pose proof (call_stream_track_call RTOS w CAnn (Some p) st1) as Htc
  end.
  rewrite emit_evs. cbn [app existsb is_track_call orb].
  rewrite Hr in *.
  split; [eexists; reflexivity | exact Htc].
Qed.

(** RTOS: a track is called only for a notification value without the
    announce bit. *)
Lemma rtos_taken_track_call w val st :
  existsb is_track_call (o_evs (rtos_taken w val st)) = true ->
  Z.testbit val 31 = false.
Proof.
  destruct (Z.testbit val 31) eqn:Hb; [|reflexivity].
  rewrite (proj2 (rtos_taken_takes_announcement w val st Hb)). discriminate.
Qed.

(** v2: while [announce_request] is set, no step of the audio side starts
    or continues the playback of a track. *)
Lemma v2_pending_blocks_playback w s :
  announce_request (sh s) = true ->
  plays_track s (snd (audio_step V2 w s)) = false.
Proof.
  intros Hp. unfold plays_track, in_track_stream, audio_step, audio_outcome.
  cbv zeta. cbn [snd].
  destruct (pc s) as [| |val|who os].
  - rewrite app_main_boot_no_track_call. reflexivity.
  - rewrite (proj1 (proj2 (v2_idle_takes_announcement w (sh s) Hp))).
    reflexivity.
  - reflexivity.
  - assert (Hcalls : existsb is_track_call
                       (o_evs (stream_step V2 w who os (sh s))) = false)
      by apply stream_step_no_track_call.
    destruct who as [| | |i]; try (rewrite Hcalls; reflexivity).
    assert (Hstop : stop_value V2 (CTrk i) (sh s) = Some true)
      by (cbn [stop_value]; rewrite Hp; reflexivity).
    rewrite Hcalls, (stream_step_stopped _ _ _ _ _ Hstop), emit_evs.
    cbn [app existsb is_write orb stream_close].
    rewrite (proj1 (after_stream_no_write V2 w (CTrk i) (sh s))). reflexivity.
Qed.

(** RTOS: a step that calls the stream of a track was taken with a
    notification in hand that carries no announcement; a step that writes
    a chunk of a track was taken with [stop_flag] clear. *)
Lemma rtos_playback_steps w s :
  (existsb is_track_call (snd (audio_step RTOS w s)) = true ->
   exists val, pc s = PTaken val /\ Z.testbit val 31 = false)
  /\ (in_track_stream s = true ->
      existsb is_write (snd (audio_step RTOS w s)) = true ->
      stop_flag (sh s) = false).
Proof.
  unfold in_track_stream, audio_step, audio_outcome. cbv zeta. cbn [snd].
  destruct (pc s) as [| |val|who os].
  - rewrite app_main_boot_no_track_call. split; discriminate.
  - unfold rtos_idle. destruct (notify (sh s) =? 0); split; discriminate.
  - split; [|discriminate].
    intros H. exists val. split; [reflexivity|].
    apply (rtos_taken_track_call w val (sh s) H).
  - split.
    + assert (Hcalls : existsb is_track_call
                         (o_evs (stream_step RTOS w who os (sh s))) = false)
        by apply stream_step_no_track_call.
      destruct who; rewrite Hcalls; discriminate.
    + destruct who as [| | |i]; try discriminate. intros _.
      destruct (stop_flag (sh s)) eqn:Hstop; [|reflexivity].
      assert (Hsv : stop_value RTOS (CTrk i) (sh s) = Some true)
        by (cbn [stop_value]; rewrite Hstop; reflexivity).
      rewrite (stream_step_stopped _ _ _ _ _ Hsv), emit_evs.
      cbn [app existsb is_write orb stream_close].
      rewrite (proj1 (after_stream_no_write RTOS w (CTrk i) (sh s))).
      discriminate.
Qed.

(** A request raised while the stream of a track is in progress stops that
    stream at the next poll, whatever the input side does in between. *)
Lemma raised_request_stops_track v w s i os p ins :
  v <> V1 ->
  pc s = PLoop (CTrk i) os ->
  inputs_only ins = true ->
  let s1 := fst (run v ins (with_sh s (request_announcement v (Some p) (sh s)))) in
  (exists rest,
      snd (audio_step v w s1)
      = EvLog LOGI MsgInterrupted :: EvI2SUninstall
          :: EvReturn (CTrk i) SAborted :: rest
      /\ existsb is_call rest = false /\ existsb is_write rest = false)
  /\ pc (fst (audio_step v w s1)) = PIdle
  /\ signals (sh (fst (audio_step v w s1))) = signals (sh s1).
Proof.
  intros Hv Hpc Hins. cbv zeta.
  set (s0 := with_sh s (request_announcement v (Some p) (sh s))).
  destruct (inputs_run_rel v ins s0 Hins) as ([Hann Hstopf] & Hpc1 & _).
  set (s1 := fst (run v ins s0)) in *.
  assert (Hpc' : pc s1 = PLoop (CTrk i) os)
    by (rewrite Hpc1; unfold s0; cbn [with_sh with_audio pc]; exact Hpc).
  assert (Hstop : stop_value v (CTrk i) (sh s1) = Some true).
  { destruct v; [contradiction | |]; cbn [stop_value].
    - destruct Hann as [-> | ->]; [reflexivity|]. reflexivity.
    - destruct Hstopf as [-> | [-> _]]; [reflexivity|].
      unfold s0, request_announcement, notify_set_bits.
      cbn -[string_take Z.lor].
      destruct (audio_task_handle (sh s)); reflexivity. }
  unfold audio_step, audio_outcome. cbv zeta. rewrite Hpc'.
  cbn [fst snd with_audio sh pc].
  assert (Hstep : (match v with
                   | V1 => v1_loop w (CTrk i) os (sh s1)
                   | _ => stream_step v w (CTrk i) os (sh s1)
                   end)
                  = emit (EvLog LOGI MsgInterrupted :: stream_close (CTrk i) SAborted)
                      (after_stream v w (CTrk i) (sh s1)))
    by (destruct v; [contradiction | |]; apply stream_step_stopped, Hstop).
  rewrite Hstep, emit_evs, emit_pc, emit_sh.
  destruct (after_track_evs v w i (sh s1)) as (Hc & Hw & Hp).
  split; [|split; [exact Hp | apply after_stream_signals]].
  eexists. split; [reflexivity|]. split; assumption.
Qed.

(** v2: the input side cannot withdraw a pending request. *)
Lemma v2_request_stays_pending ins s :
  inputs_only ins = true ->
  announce_pending V2 (sh s) = true ->
  announce_pending V2 (sh (fst (run V2 ins s))) = true.
Proof.
  intros Hins Hp. cbn [announce_pending] in *.
  destruct (inputs_run_rel V2 ins s Hins) as ([[H|H] _] & _); congruence.
Qed.

(** The priority of announcements in v2 and in RTOS, with the audio side
    observed at its polls:
    - a request raised by [request_announcement] while the stream of a
      track is in progress makes that stream stop at its next poll,
      whatever the input side does meanwhile: it logs the interruption,
      releases the output and returns as aborted, and that step calls no
      stream and writes no chunk, so the stream of the announcement is
      called after the track has returned;
    - with a request in hand (v2: at the top of its loop with
      [announce_request] set, a flag the input side cannot clear; RTOS:
      once [xTaskNotifyWait] has returned the announce bit) the arbiter
      calls the stream of the announcement, on the pending path, and calls
      no track;
    - v2: a step of the audio side that calls the stream of a track or
      writes a chunk of a track is only taken with no request pending;
      RTOS: a track is only called for a notification without the announce
      bit, and a chunk of a track is only written with [stop_flag] clear. *)
Theorem announcement_priority_at_polls :
  (forall v w s i os p ins,
     v <> V1 ->
     pc s = PLoop (CTrk i) os ->
     inputs_only ins = true ->
     let s1 := fst (run v ins
                      (with_sh s (request_announcement v (Some p) (sh s)))) in
     (exists rest,
         snd (audio_step v w s1)
         = EvLog LOGI MsgInterrupted :: EvI2SUninstall
             :: EvReturn (CTrk i) SAborted :: rest
         /\ existsb is_call rest = false /\ existsb is_write rest = false)
     /\ pc (fst (audio_step v w s1)) = PIdle
     /\ signals (sh (fst (audio_step v w s1))) = signals (sh s1))
  /\ (forall w s,
        pc s = PIdle ->
        announce_pending V2 (sh s) = true ->
        let p := string_take 255 (announce_path (sh s)) in
        (exists rest,
            snd (audio_step V2 w s)
            = EvLog LOGI (MsgAnnounce p) :: EvCall CAnn (Some p) :: rest)
        /\ existsb is_track_call (snd (audio_step V2 w s)) = false
        /\ announce_pending V2 (sh (fst (audio_step V2 w s))) = false)
  /\ (forall w s,
        pc s = PIdle ->
        announce_pending RTOS (sh s) = true ->
        audio_step RTOS w s
        = (with_audio s (set_notify 0 (sh s)) (PTaken (notify (sh s))), []))
  /\ (forall w s val,
        pc s = PTaken val ->
        Z.testbit val 31 = true ->
        let p := string_take 255 (announce_path (sh s)) in
        (exists rest,
            snd (audio_step RTOS w s)
            = EvLog LOGI (MsgAnnounce p) :: EvCall CAnn (Some p) :: rest)
        /\ existsb is_track_call (snd (audio_step RTOS w s)) = false)
  /\ (forall ins s,
        inputs_only ins = true ->
        announce_pending V2 (sh s) = true ->
        announce_pending V2 (sh (fst (run V2 ins s))) = true)
  /\ (forall w s,
        plays_track s (snd (audio_step V2 w s)) = true ->
        announce_pending V2 (sh s) = false)
  /\ (forall w s,
        (existsb is_track_call (snd (audio_step RTOS w s)) = true ->
         exists val, pc s = PTaken val /\ Z.testbit val 31 = false)
        /\ (in_track_stream s = true ->
            existsb is_write (snd (audio_step RTOS w s)) = true ->
            stop_flag (sh s) = false)).
Proof.
  split.
  { intros v w s i os p ins Hv Hpc Hins.
    exact (raised_request_stops_track v w s i os p ins Hv Hpc Hins). }
  split.
  { intros w s Hpc Hp. cbv zeta. cbn [announce_pending] in *.
    pose proof (v2_idle_takes_announcement w (sh s) Hp) as H. cbv zeta in H.
    unfold audio_step, audio_outcome. cbv zeta. rewrite Hpc.
    cbn [fst snd with_audio sh]. exact H. }
  split.
  { intros w s Hpc Hp. cbn [announce_pending] in Hp.
    unfold audio_step, audio_outcome, rtos_idle. cbv zeta. rewrite Hpc.
    rewrite (announce_bit_nonzero _ Hp). reflexivity. }
  split.
  { intros w s val Hpc Hp. cbv zeta.
    pose proof (rtos_taken_takes_announcement w val (sh s) Hp) as H.
    cbv zeta in H.
    unfold audio_step, audio_outcome. cbv zeta. rewrite Hpc.
    cbn [fst snd with_audio sh]. exact H. }
  split; [exact v2_request_stays_pending|].
  split.
  { intros w s Hplays. cbn [announce_pending].
    destruct (announce_request (sh s)) eqn:Hp; [|reflexivity].
    rewrite (v2_pending_blocks_playback w s Hp) in Hplays. discriminate. }
  exact rtos_playback_steps.
Qed.

Example announcement_priority_on_demo_card :
  exists rest,
    snd (audio_step RTOS demo_card
           (fst (run RTOS []
                   (with_sh demo_playing
                      (request_announcement RTOS (Some "/sdcard/story1.wav")
                         (sh demo_playing))))))
    = EvLog LOGI MsgInterrupted :: EvI2SUninstall
        :: EvReturn (CTrk 0) SAborted :: rest
    /\ existsb is_call rest = false /\ existsb is_write rest = false.
Proof.
  assert (Hpc : pc demo_playing = PLoop (CTrk 0) (demo_stream four_bytes))
    by (vm_compute; reflexivity).
  exact (proj1 (proj1 announcement_priority_at_polls RTOS demo_card
                  demo_playing 0 (demo_stream four_bytes)
                  "/sdcard/story1.wav" [] ltac:(discriminate) Hpc eq_refl)).
Qed.

(** The priority rule on the demo card, RTOS revision: track 0 (S1.wav) is
    playing; the rotary encoder steps to S2.wav at 400 ms and back to
    S1.wav at 500 ms, which requests the clip story1.wav.  The next step of
    the audio side aborts the track; the task then takes the notification
    and calls the stream of the clip. *)
Example priority_scenario :
  snd (run RTOS [LEncoder demo_card (clk 0) 400;
                 LEncoder demo_card (clk 1) 500;
                 LAudio demo_card; LAudio demo_card; LAudio demo_card]
         demo_playing)
  = [EvLog LOGI MsgInterrupted; EvI2SUninstall; EvReturn (CTrk 0) SAborted;
     EvLog LOGI MsgPlaybackInterrupted;
     EvLog LOGI (MsgAnnounce "/sdcard/story1.wav");
     EvCall CAnn (Some "/sdcard/story1.wav");
     EvI2SInstall 8000 true true; EvI2SSetPin true; EvI2SSetClk 8000 1 true].
Proof. vm_compute. reflexivity. Qed.

(** The same on the v2 revision: there the third Play/Pause press of the
    fixture is overtaken by the announcement of the track, so the track is
    requested again at 600 ms, and the encoder steps away and back. *)
Example priority_scenario_v2 :
  snd (run V2 (enter_and_play demo_card ++
               [LAudio demo_card; LAudio demo_card; LAudio demo_card;
                LButton demo_card BTN_PLAY_PAUSE false 550;
                LButton demo_card BTN_PLAY_PAUSE true 600;
                LAudio demo_card;
                LEncoder demo_card (clk 0) 700;
                LEncoder demo_card (clk 1) 800;
                LAudio demo_card; LAudio demo_card]) initial_system)
  = [EvLog LOGI (MsgAnnounce "/sdcard/story1.wav");
     EvCall CAnn (Some "/sdcard/story1.wav");
     EvI2SInstall 8000 true true; EvI2SSetPin true; EvI2SSetClk 8000 1 true;
     EvI2SWrite four_bytes true;
     EvI2SUninstall; EvReturn CAnn SCompleted;
     EvLog LOGI (MsgStartTrack 0);
     EvCall (CTrk 0) (Some "/sdcard/01/S1.wav");
     EvI2SInstall 8000 true true; EvI2SSetPin true; EvI2SSetClk 8000 1 true;
     EvLog LOGI MsgInterrupted; EvI2SUninstall; EvReturn (CTrk 0) SAborted;
     EvLog LOGI (MsgAnnounce "/sdcard/story1.wav");
     EvCall CAnn (Some "/sdcard/story1.wav");
     EvI2SInstall 8000 true true; EvI2SSetPin true; EvI2SSetClk 8000 1 true].
Proof. vm_compute. reflexivity. Qed.

(** The same schedule as [wake_then_request] on the v2 revision, followed
    by the rotary step to S1.wav: the stream of other.wav, called before the
    request, stops at its first poll without writing a chunk, and the clip
    follows. *)
Example v2_request_after_start_stops_track :
  snd (run V2 [LEncoder demo_card (clk 0) 600;
               LAudio demo_card; LAudio demo_card]
         (fst (run V2 (wake_then_request demo_card) initial_system)))
  = [EvLog LOGI MsgInterrupted; EvI2SUninstall; EvReturn (CTrk 2) SAborted;
     EvLog LOGI (MsgAnnounce "/sdcard/story1.wav");
     EvCall CAnn (Some "/sdcard/story1.wav");
     EvI2SInstall 8000 true true; EvI2SSetPin true; EvI2SSetClk 8000 1 true].
Proof. vm_compute. reflexivity. Qed.

(** C1 on the RTOS revision, at the schedule [wake_then_request]: the audio
    task has returned from [xTaskNotifyWait] with the play request for
    track 2 (other.wav) and has not yet executed [stop_flag = false].  The
    encoder task now handles a rotary step to S1.wav and calls
    [request_announcement] for story1.wav: the announce bit is pending and
    [stop_flag] is set.  The audio task then clears [stop_flag] and calls
    the stream of track 2, which writes its data and returns [SCompleted],
    all with the announce bit still pending; the clip is called only after
    the track has played out.  So playback starts while an announcement
    request is pending, which C1 excludes. *)
Theorem rtos_request_after_wake_is_overrun :
  let s1 := fst (run RTOS [LEncoder demo_card (clk 0) 600] rtos_woken) in
  pc rtos_woken = PTaken 3
  /\ announce_pending RTOS (sh rtos_woken) = false
  /\ (announce_pending RTOS (sh s1) = true
      /\ stop_flag (sh s1) = true
      /\ announce_path (sh s1) = "/sdcard/story1.wav")
  /\ plays_track s1 (snd (audio_step RTOS demo_card s1)) = true
  /\ stop_flag (sh (fst (audio_step RTOS demo_card s1))) = false
  /\ snd (run RTOS [LAudio demo_card; LAudio demo_card; LAudio demo_card] s1)
     = [EvLog LOGI (MsgStartTrack 2);
        EvCall (CTrk 2) (Some "/sdcard/01/other.wav");
        EvI2SInstall 8000 true true; EvI2SSetPin true;
        EvI2SSetClk 8000 1 true;
        EvI2SWrite four_bytes true;
        EvI2SUninstall; EvReturn (CTrk 2) SCompleted;
        EvLog LOGI (MsgPlaybackFinished 2)]
  /\ announce_pending RTOS
       (sh (fst (run RTOS [LAudio demo_card; LAudio demo_card;
                           LAudio demo_card] s1))) = true
  /\ snd (run RTOS [LAudio demo_card; LAudio demo_card]
            (fst (run RTOS [LAudio demo_card; LAudio demo_card;
                            LAudio demo_card] s1)))
     = [EvLog LOGI (MsgAnnounce "/sdcard/story1.wav");
        EvCall CAnn (Some "/sdcard/story1.wav");
        EvI2SInstall 8000 true true; EvI2SSetPin true;
        EvI2SSetClk 8000 1 true].
Proof. vm_compute. repeat split; reflexivity. Qed.
(* ================================================================== *)
(** * Further properties of the code *)

(** ** Sample bytes and the volume loop *)

Lemma byte_z_range (b : byte) : 0 <= byte_z b < 256.
Proof.
  unfold byte_z. pose proof (Byte.to_N_bounded b). lia.
Qed.

Lemma z_byte_byte_z (b : byte) : z_byte (byte_z b) = b.
Proof.
  unfold z_byte, byte_z. pose proof (Byte.to_N_bounded b) as Hb.
  rewrite Z.mod_small by lia. rewrite N2Z.id, Byte.of_to_N. reflexivity.
Qed.

Lemma z_byte_mod (z : Z) : z_byte (z mod 256) = z_byte z.
Proof. unfold z_byte. rewrite Z.mod_mod by lia. reflexivity. Qed.

Lemma z_byte_zero : z_byte 0 = x00.
Proof. reflexivity. Qed.

Lemma u16_le_range (b0 b1 : byte) : 0 <= u16_le b0 b1 < 65536.
Proof.
  unfold u16_le. pose proof (byte_z_range b0). pose proof (byte_z_range b1). lia.
Qed.

(** Storing a sample back as two bytes, low byte first, undoes the read. *)
Lemma sample_bytes_roundtrip (b0 b1 : byte) :
  let s := wrap_i16 (u16_le b0 b1) in
  z_byte s = b0 /\ z_byte (wrap_u16 s / 256) = b1.
Proof.
  cbv zeta. pose proof (byte_z_range b0) as H0. pose proof (byte_z_range b1) as H1.
  assert (Hlo : wrap_i16 (u16_le b0 b1) mod 256 = byte_z b0).
  { unfold wrap_i16, u16_le.
    replace (2 ^ 16) with 65536 by reflexivity.
    replace (2 ^ 15) with 32768 by reflexivity.
    Z.div_mod_to_equations. lia. }
  assert (Hhi : wrap_u16 (wrap_i16 (u16_le b0 b1)) / 256 = byte_z b1).
  { unfold wrap_u16, wrap_i16, u16_le.
    replace (2 ^ 16) with 65536 by reflexivity.
    replace (2 ^ 15) with 32768 by reflexivity.
    Z.div_mod_to_equations. lia. }
  split.
  - rewrite <- z_byte_mod, Hlo. apply z_byte_byte_z.
  - rewrite Hhi. apply z_byte_byte_z.
Qed.

Lemma scale_sample_100 (s : Z) : in_i16 s -> scale_sample 100 s = s.
Proof.
  intros Hs. unfold scale_sample.
  rewrite wrap_i32_id by (apply scale_product_fits; [exact Hs | lia]).
  rewrite Z.quot_mul by lia.
  rewrite clip16_clamp. unfold in_i16 in Hs. lia.
Qed.

Lemma scale_sample_0 (s : Z) : scale_sample 0 s = 0.
Proof.
  unfold scale_sample. rewrite Z.mul_0_r. reflexivity.
Qed.

(** Induction two bytes at a time, the way the sample loop walks a chunk. *)
Lemma list_pair_ind {A : Type} (P : list A -> Prop) :
  P [] -> (forall a, P [a]) ->
  (forall a b l, P l -> P (a :: b :: l)) ->
  forall l, P l.
Proof.
  intros H0 H1 H2.
  assert (H : forall l, P l /\ forall a, P (a :: l)).
  { induction l as [|x l [IH1 IH2]]; split; auto. }
  intros l. apply H.
Qed.

Lemma scale_samples_length vol buf :
  List.length (scale_samples vol buf) = List.length buf.
Proof.
  induction buf as [| a | a b l IH] using list_pair_ind; [reflexivity..|].
  cbn [scale_samples List.length]. rewrite IH. reflexivity.
Qed.

Lemma scale_samples_100 buf : scale_samples 100 buf = buf.
Proof.
  induction buf as [| a | a b l IH] using list_pair_ind; [reflexivity..|].
  cbn [scale_samples]. rewrite IH.
  rewrite scale_sample_100 by apply wrap_i16_range.
  destruct (sample_bytes_roundtrip a b) as [-> ->]. reflexivity.
Qed.

Lemma scale_samples_0 buf :
  Nat.even (List.length buf) = true ->
  scale_samples 0 buf = repeat x00 (List.length buf).
Proof.
  induction buf as [| a | a b l IH] using list_pair_ind;
    [reflexivity | discriminate |].
  intros He. cbn [scale_samples List.length repeat].
  rewrite scale_sample_0, IH by exact He. reflexivity.
Qed.

Lemma scale_samples_odd_tail vol buf b :
  Nat.even (List.length buf) = true ->
  scale_samples vol (buf ++ [b]) = scale_samples vol buf ++ [b].
Proof.
  induction buf as [| a | a c l IH] using list_pair_ind;
    [reflexivity | discriminate |].
  intros He. cbn [scale_samples app]. rewrite IH by exact He. reflexivity.
Qed.

(** The volume loop on a chunk: as many bytes come out as went in; at 100
    percent the chunk is passed through bit for bit, and the shortcut
    [g_volume_percent != 100] only saves the arithmetic, since scaling by
    100 changes no sample; at 0 percent every sample becomes 0; a trailing
    odd byte (half a sample) is passed through unscaled at any volume. *)
Theorem apply_volume_bytes :
  (forall vol buf, List.length (apply_volume vol buf) = List.length buf)
  /\ (forall buf, apply_volume 100 buf = buf /\ scale_samples 100 buf = buf)
  /\ (forall buf, Nat.even (List.length buf) = true ->
        apply_volume 0 buf = repeat x00 (List.length buf))
  /\ (forall vol buf b, Nat.even (List.length buf) = true ->
        apply_volume vol (buf ++ [b]) = apply_volume vol buf ++ [b]).
Proof.
  split; [|split; [|split]].
  - intros vol buf. unfold apply_volume.
    destruct (vol =? 100); [reflexivity | apply scale_samples_length].
  - intros buf. split; [reflexivity | apply scale_samples_100].
  - intros buf He. unfold apply_volume. cbn. apply scale_samples_0, He.
  - intros vol buf b He. unfold apply_volume.
    destruct (vol =? 100); [reflexivity|].
    apply scale_samples_odd_tail, He.
Qed.

Lemma apply_volume_bytes_witness :
  apply_volume 0 four_bytes = repeat x00 4
  /\ apply_volume 50 (four_bytes ++ ["5"%byte])
     = apply_volume 50 four_bytes ++ ["5"%byte].
Proof.
  split.
  - exact (proj1 (proj2 (proj2 apply_volume_bytes)) four_bytes eq_refl).
  - exact (proj2 (proj2 (proj2 apply_volume_bytes)) 50 four_bytes "5"%byte eq_refl).
Defined.

(** ** The WAV header *)

Lemma byte_z_z_byte (z : Z) : byte_z (z_byte z) = z mod 256.
Proof.
  unfold byte_z, z_byte.
  pose proof (Z.mod_pos_bound z 256 ltac:(lia)) as Hm.
  destruct (Byte.of_N (Z.to_N (z mod 256))) as [b|] eqn:Hb.
  - apply Byte.to_of_N in Hb. rewrite Hb. lia.
  - apply Byte.of_N_None_iff in Hb. lia.
Qed.

Lemma u16_le_le_bytes (z : Z) :
  0 <= z < 65536 -> u16_le (z_byte z) (z_byte (z / 256)) = z.
Proof.
  intros Hz. unfold u16_le. rewrite !byte_z_z_byte.
  Z.div_mod_to_equations. lia.
Qed.

Lemma u32_le_le_bytes (z : Z) :
  0 <= z < 2 ^ 32 ->
  u32_le (z_byte z) (z_byte (z / 256)) (z_byte (z / 65536))
    (z_byte (z / 16777216)) = z.
Proof.
  intros Hz. replace (2 ^ 32) with 4294967296 in Hz by reflexivity.
  unfold u32_le. rewrite !byte_z_z_byte.
  Z.div_mod_to_equations. lia.
Qed.

Lemma u32_le_range (b0 b1 b2 b3 : byte) : 0 <= u32_le b0 b1 b2 b3 < 2 ^ 32.
Proof.
  unfold u32_le. replace (2 ^ 32) with 4294967296 by reflexivity.
  pose proof (byte_z_range b0). pose proof (byte_z_range b1).
  pose proof (byte_z_range b2). pose proof (byte_z_range b3). lia.
Qed.

Lemma parse_wav_header_some (f : list byte) (wi : wav_info_t) :
  parse_wav_header f = Some wi ->
  (44 <= List.length f)%nat /\ riff_wave_ok (firstn 44 f) = true
  /\ data_offset wi = 44%nat.
Proof.
  unfold parse_wav_header.
  destruct (Nat.eqb (List.length (firstn 44 f)) 44) eqn:Hlen; [|discriminate].
  destruct (riff_wave_ok (firstn 44 f)) eqn:Hm; [|discriminate].
  cbn [negb]. intros H. injection H as <-.
  apply Nat.eqb_eq in Hlen. rewrite length_firstn in Hlen.
  split; [lia|]. split; reflexivity.
Qed.

(** [parse_wav_header]:
    - a file shorter than 44 bytes is refused;
    - a file is accepted exactly when it has 44 bytes with "RIFF" at offset
      0 and "WAVE" at offset 8: the "fmt " and "data" tags, the format code
      and the sizes are not looked at;
    - the result depends on the first 44 bytes only;
    - the fields are the little-endian values at offsets 22, 24, 34 and 40,
      within the range of their C types, and [data_offset] is always 44;
    - the canonical 44-byte PCM header is decoded to the values it was
      written from. *)
Theorem parse_wav_header_spec :
  (forall f, (List.length f < 44)%nat -> parse_wav_header f = None)
  /\ (forall f, parse_wav_header f <> None
               <-> (44 <= List.length f)%nat
                   /\ riff_wave_ok (firstn 44 f) = true)
  /\ (forall h rest rest', List.length h = 44%nat ->
        parse_wav_header (h ++ rest) = parse_wav_header (h ++ rest'))
  /\ (forall f wi, parse_wav_header f = Some wi ->
        data_offset wi = 44%nat
        /\ 0 <= channels wi < 65536 /\ 0 <= bits_per_sample wi < 65536
        /\ 0 <= sample_rate wi < 2 ^ 32 /\ 0 <= data_size wi < 2 ^ 32)
  /\ (forall chans bits size data,
        0 <= chans < 65536 -> 0 <= bits < 65536 -> 0 <= size < 2 ^ 32 ->
        parse_wav_header (wav_header chans bits size ++ data)
        = Some {| sample_rate := 8000; bits_per_sample := bits;
                  channels := chans; data_size := size;
                  data_offset := 44 |}).
Proof.
  split; [|split; [|split; [|split]]].
  - intros f Hlen. unfold parse_wav_header.
    destruct (Nat.eqb (List.length (firstn 44 f)) 44) eqn:He; [|reflexivity].
    apply Nat.eqb_eq in He. rewrite length_firstn in He. lia.
  - intros f. split.
    + destruct (parse_wav_header f) as [wi|] eqn:Hp; [|congruence].
      intros _. destruct (parse_wav_header_some f wi Hp) as (H1 & H2 & _).
      split; assumption.
    + intros [Hlen Hm]. unfold parse_wav_header.
      assert (He : Nat.eqb (List.length (firstn 44 f)) 44 = true)
        by (apply Nat.eqb_eq; rewrite length_firstn; lia).
      rewrite He, Hm. discriminate.
  - intros h rest rest' Hlen. unfold parse_wav_header.
    rewrite !firstn_app, Hlen, Nat.sub_diag. cbn [firstn].
    rewrite !app_nil_r. reflexivity.
  - intros f wi Hp. split; [apply (parse_wav_header_some f wi Hp)|].
    unfold parse_wav_header in Hp.
    destruct (Nat.eqb (List.length (firstn 44 f)) 44); [|discriminate].
    destruct (riff_wave_ok (firstn 44 f)); [|discriminate].
    injection Hp as <-. cbn [channels bits_per_sample sample_rate data_size].
    repeat split; try apply u16_le_range; apply u32_le_range.
  - intros chans bits size data Hc Hb Hs.
    unfold parse_wav_header, wav_header, le_bytes.
    cbn [seq map app firstn List.length Nat.eqb negb riff_wave_ok byte_at nth
         Z.of_nat Pos.of_succ_nat Pos.succ].
    replace (256 ^ 0) with 1 by reflexivity.
    replace (256 ^ 1) with 256 by reflexivity.
    replace (256 ^ 2) with 65536 by reflexivity.
    replace (256 ^ 3) with 16777216 by reflexivity.
    rewrite !Z.div_1_r.
    cbn [Byte.eqb andb].
    rewrite (u16_le_le_bytes chans Hc), (u16_le_le_bytes bits Hb),
      (u32_le_le_bytes size Hs), (u32_le_le_bytes 8000 ltac:(lia)).
    reflexivity.
Qed.

Lemma parse_wav_header_spec_witness :
  parse_wav_header four_bytes = None
  /\ parse_wav_header (wav_header 2 16 4 ++ four_bytes)
     = Some {| sample_rate := 8000; bits_per_sample := 16; channels := 2;
               data_size := 4; data_offset := 44 |}.
Proof.
  split.
  - apply (proj1 parse_wav_header_spec four_bytes). cbn. lia.
  - apply (proj2 (proj2 (proj2 (proj2 parse_wav_header_spec))) 2 16 4 four_bytes);
      lia.
Defined.

(** ** Buttons *)

Lemma read_button_press_state lvl t b :
  last_state (snd (read_button_press lvl t b)) = lvl.
Proof.
  unfold read_button_press.
  destruct (lvl && negb (last_state b))%bool;
    [destruct (wrap_u32 (t - last_time b) >? DEBOUNCE_MS)|]; reflexivity.
Qed.

Lemma read_button_press_held t b :
  last_state b = true ->
  read_button_press true t b
  = (false, {| last_time := last_time b; last_state := true |}).
Proof.
  intros H. unfold read_button_press. rewrite H. reflexivity.
Qed.

Lemma button_polls_held (ts : list Z) :
  forall b, last_state b = true ->
    fst (button_polls (map (fun t => (true, t)) ts) b)
    = repeat false (List.length ts).
Proof.
  induction ts as [|t rest IH]; intros b Hb; [reflexivity|].
  cbn [map button_polls]. rewrite (read_button_press_held t b Hb).
  specialize (IH {| last_time := last_time b; last_state := true |} eq_refl).
  destruct (button_polls _ _) as [ps b2]. cbn [fst] in *.
  rewrite IH. reflexivity.
Qed.

(** [read_button_press] while a button is held down (every call reads the
    level high): only the first call can report a press, every later call
    answers false whatever time has passed.  So one hold is one press at
    most; and when the first call does not report it (the level was already
    high at the previous call, or the press comes 50 ms or less after the
    last reported one), the press is never reported. *)
Theorem button_hold_reports_once :
  forall (t : Z) (ts : list Z) (b : btn_t),
    fst (button_polls ((true, t) :: map (fun t' => (true, t')) ts) b)
    = fst (read_button_press true t b) :: repeat false (List.length ts).
Proof.
  intros t ts b. cbn [button_polls].
  pose proof (read_button_press_state true t b) as Hst.
  destruct (read_button_press true t b) as [pressed b1]. cbn [snd fst] in *.
  pose proof (button_polls_held ts b1 Hst) as H.
  destruct (button_polls _ b1) as [ps b2]. cbn [fst] in *.
  rewrite H. reflexivity.
Qed.

Lemma press_times_spaced (samples : list (bool * Z)) :
  forall t0 prev b,
    t0 <= last_time b <= prev ->
    ticks_from t0 prev samples ->
    spaced DEBOUNCE_MS (last_time b) (press_times samples b).
Proof.
  induction samples as [|[lvl t] rest IH]; intros t0 prev b Hb Ht;
    [exact I|].
  cbn [ticks_from] in Ht. destruct Ht as (Hle & Hper & Hrest).
  cbn [press_times]. unfold read_button_press.
  destruct (lvl && negb (last_state b))%bool.
  - destruct (wrap_u32 (t - last_time b) >? DEBOUNCE_MS) eqn:Hd.
    + cbn [spaced]. split.
      * unfold wrap_u32 in Hd. rewrite Z.mod_small in Hd by lia. lia.
      * apply (IH t0 t {| last_time := t; last_state := lvl |});
          [cbn; lia | exact Hrest].
    + apply (IH t0 t {| last_time := last_time b; last_state := lvl |});
        [cbn; lia | exact Hrest].
  - apply (IH t0 t {| last_time := last_time b; last_state := lvl |});
      [cbn; lia | exact Hrest].
Qed.

(** [read_button_press] over any sequence of calls, with the tick clock not
    running backwards and within one period of the last reported press:
    every reported press comes more than 50 ms after the one reported
    before it (and the first more than 50 ms after [last_time]). *)
Theorem button_presses_spaced :
  forall (samples : list (bool * Z)) (b : btn_t),
    ticks_from (last_time b) (last_time b) samples ->
    spaced 50 (last_time b) (press_times samples b).
Proof.
  intros samples b Ht.
  apply (press_times_spaced samples (last_time b) (last_time b) b); [lia|exact Ht].
Qed.

Lemma button_presses_spaced_witness :
  spaced 50 0
    (press_times [(true, 100); (false, 120); (true, 150); (false, 160);
                  (true, 211)]
       {| last_time := 0; last_state := false |}).
Proof.
  exact (button_presses_spaced
           [(true, 100); (false, 120); (true, 150); (false, 160); (true, 211)]
           {| last_time := 0; last_state := false |}
           ltac:(cbn; lia)).
Defined.

(** The same samples evaluated: the press at 150 ms, exactly 50 ms after
    the one reported at 100 ms, is refused. *)
Example button_press_at_50ms_refused :
  press_times [(true, 100); (false, 120); (true, 150); (false, 160);
               (true, 211)]
    {| last_time := 0; last_state := false |} = [100; 211].
Proof. reflexivity. Qed.

(** ** The two timers of [encoder_task] *)

Lemma encoder_task_clk_timer v w ev now el st :
  ev_type ev = ENC_EVT_CLK ->
  last_sw_time (fst (encoder_task v w ev now el st)) = last_sw_time el.
Proof.
  intros H. unfold encoder_task. rewrite H.
  destruct (step_accepted _ _); reflexivity.
Qed.

Lemma encoder_task_sw_timer v w ev now el st :
  ev_type ev = ENC_EVT_SW ->
  last_step_time (fst (encoder_task v w ev now el st)) = last_step_time el.
Proof.
  intros H. unfold encoder_task. rewrite H.
  destruct (switch_accepted _ _); reflexivity.
Qed.

Lemma encoder_events_clk_timer v w (evs : list (enc_evt_t * Z)) :
  forall el st,
    forallb is_clk evs = true ->
    last_sw_time (fst (encoder_events v w evs el st)) = last_sw_time el.
Proof.
  induction evs as [|[ev now] rest IH]; intros el st Hall; [reflexivity|].
  cbn [forallb] in Hall. apply andb_prop in Hall as [Hev Hrest].
  cbn [encoder_events].
  assert (Hty : ev_type ev = ENC_EVT_CLK)
    by (unfold is_clk in Hev; cbn [fst] in Hev; destruct (ev_type ev);
        [reflexivity | discriminate]).
  pose proof (encoder_task_clk_timer v w ev now el st Hty) as H1.
  destruct (encoder_task v w ev now el st) as [el1 st1]. cbn [fst] in H1.
  rewrite IH by exact Hrest. exact H1.
Qed.

Lemma encoder_events_sw_timer v w (evs : list (enc_evt_t * Z)) :
  forall el st,
    forallb (fun x => negb (is_clk x)) evs = true ->
    last_step_time (fst (encoder_events v w evs el st)) = last_step_time el.
Proof.
  induction evs as [|[ev now] rest IH]; intros el st Hall; [reflexivity|].
  cbn [forallb] in Hall. apply andb_prop in Hall as [Hev Hrest].
  cbn [encoder_events].
  assert (Hty : ev_type ev = ENC_EVT_SW)
    by (unfold is_clk in Hev; cbn [fst] in Hev; destruct (ev_type ev);
        [discriminate | reflexivity]).
  pose proof (encoder_task_sw_timer v w ev now el st Hty) as H1.
  destruct (encoder_task v w ev now el st) as [el1 st1]. cbn [fst] in H1.
  rewrite IH by exact Hrest. exact H1.
Qed.

(** [encoder_task] keeps one debounce timer per source.  Rotary steps,
    accepted or not, leave the timer of the switch alone, so a switch press
    that follows any run of steps is accepted exactly when at least 50 ms
    (on the 32-bit tick clock) have passed since the last accepted switch
    press; a refused press changes nothing.  In the same way switch presses
    leave the timer of the steps alone. *)
Theorem encoder_timers_independent :
  forall v w,
    (forall steps el st now,
       forallb is_clk steps = true ->
       let r := encoder_events v w steps el st in
       encoder_task v w sw now (fst r) (snd r)
       = if 50 <=? wrap_u32 (now - last_sw_time el)
         then ({| last_step_time := last_step_time (fst r);
                  last_sw_time := now |},
               on_enc_switch v w (snd r))
         else r)
    /\ (forall presses el st dt now,
          forallb (fun x => negb (is_clk x)) presses = true ->
          let r := encoder_events v w presses el st in
          encoder_task v w (clk dt) now (fst r) (snd r)
          = if 60 <=? wrap_u32 (now - last_step_time el)
            then ({| last_step_time := now;
                     last_sw_time := last_sw_time (fst r) |},
                  on_enc_step v w dt (snd r))
            else r).
Proof.
  intros v w. split.
  - intros steps el st now Hall. cbv zeta.
    pose proof (encoder_events_clk_timer v w steps el st Hall) as Ht.
    destruct (encoder_events v w steps el st) as [el1 st1]. cbn [fst snd] in *.
    unfold encoder_task. cbn [sw ev_type]. unfold switch_accepted.
    rewrite Ht. unfold DEBOUNCE_MS.
    rewrite Z.ltb_antisym, Bool.negb_involutive. reflexivity.
  - intros presses el st dt now Hall. cbv zeta.
    pose proof (encoder_events_sw_timer v w presses el st Hall) as Ht.
    destruct (encoder_events v w presses el st) as [el1 st1]. cbn [fst snd] in *.
    unfold encoder_task. cbn [clk ev_type dt_level]. unfold step_accepted.
    rewrite Ht. unfold ENC_STEP_DEBOUNCE_MS.
    rewrite Z.ltb_antisym, Bool.negb_involutive. reflexivity.
Qed.

Lemma encoder_timers_independent_witness :
  encoder_task V1 demo_card sw 1050
    (fst (encoder_events V1 demo_card [(clk 0, 1040); (clk 1, 1049)]
            {| last_step_time := 0; last_sw_time := 1000 |} initial_shared))
    (snd (encoder_events V1 demo_card [(clk 0, 1040); (clk 1, 1049)]
            {| last_step_time := 0; last_sw_time := 1000 |} initial_shared))
  = ({| last_step_time := 1040; last_sw_time := 1050 |}, initial_shared).
Proof.
  rewrite (proj1 (encoder_timers_independent V1 demo_card)
             [(clk 0, 1040); (clk 1, 1049)]
             {| last_step_time := 0; last_sw_time := 1000 |} initial_shared
             1050 eq_refl).
  reflexivity.
Defined.

(** ** What the scans list *)

Section ScanContent.
Variable w : World.
Hypothesis heap : forall n, malloc_ok w n = true.

Lemma make_path_heap dir name :
  make_path w dir name = Some (dir ++ "/" ++ name)%string.
Proof. unfold make_path. rewrite heap. reflexivity. Qed.

Lemma scan_root_loop_content path (entries : list dirent) :
  forall found,
    (List.length found <= MAX_FOLDERS)%nat ->
    scan_root_loop w path entries found
    = found ++ firstn (MAX_FOLDERS - List.length found)
                 (map (entry_path path)
                    (filter (listed_folder w path) entries)).
Proof.
  induction entries as [|e rest IH]; intros found Hlen.
  - cbn. rewrite firstn_nil, app_nil_r. reflexivity.
  - cbn [scan_root_loop filter].
    destruct (Nat.ltb (List.length found) MAX_FOLDERS) eqn:Hlt; cbn [negb].
    2:{ apply Nat.ltb_ge in Hlt.
        replace (MAX_FOLDERS - List.length found)%nat with O by lia.
        cbn. rewrite app_nil_r. reflexivity. }
    apply Nat.ltb_lt in Hlt.
    unfold listed_folder at 1, entry_is_dir, entry_path.
    destruct (is_dot_entry e); cbn [negb andb]; [apply IH, Hlen|].
    rewrite make_path_heap.
    destruct (d_type e); cbn [map];
      try (apply IH; exact Hlen).
    + destruct (stat_mode w _) as [[| |]|]; cbn [map];
        try (apply IH; exact Hlen).
      rewrite IH by (rewrite length_app; cbn; lia).
      rewrite length_app. cbn [List.length].
      replace (MAX_FOLDERS - List.length found)%nat
        with (S (MAX_FOLDERS - (List.length found + 1)))%nat by lia.
      cbn [firstn]. rewrite <- app_assoc. reflexivity.
    + rewrite IH by (rewrite length_app; cbn; lia).
      rewrite length_app. cbn [List.length].
      replace (MAX_FOLDERS - List.length found)%nat
        with (S (MAX_FOLDERS - (List.length found + 1)))%nat by lia.
      cbn [firstn]. rewrite <- app_assoc. reflexivity.
Qed.

Lemma scan_wavs_loop_content path (entries : list dirent) :
  forall found,
    (List.length found <= MAX_WAV_FILES)%nat ->
    scan_wavs_loop w path entries found
    = found ++ firstn (MAX_WAV_FILES - List.length found)
                 (map (entry_path path)
                    (filter (listed_wav w path) entries)).
Proof.
  induction entries as [|e rest IH]; intros found Hlen.
  - cbn. rewrite firstn_nil, app_nil_r. reflexivity.
  - cbn [scan_wavs_loop filter].
    destruct (Nat.ltb (List.length found) MAX_WAV_FILES) eqn:Hlt; cbn [negb].
    2:{ apply Nat.ltb_ge in Hlt.
        replace (MAX_WAV_FILES - List.length found)%nat with O by lia.
        cbn. rewrite app_nil_r. reflexivity. }
    apply Nat.ltb_lt in Hlt.
    assert (Hpush : forall full,
               scan_wavs_loop w path rest (found ++ [full])
               = found ++ firstn (MAX_WAV_FILES - List.length found)
                            (full :: map (entry_path path)
                               (filter (listed_wav w path) rest))).
    { intros full. rewrite IH by (rewrite length_app; cbn; lia).
      rewrite length_app. cbn [List.length].
      replace (MAX_WAV_FILES - List.length found)%nat
        with (S (MAX_WAV_FILES - (List.length found + 1)))%nat by lia.
      cbn [firstn]. rewrite <- app_assoc. reflexivity. }
    unfold listed_wav at 1, entry_is_file, entry_path.
    destruct (is_dot_entry e); cbn [negb andb]; [apply IH, Hlen|].
    rewrite make_path_heap.
    destruct (d_type e); cbn [map andb];
      try (apply IH; exact Hlen).
    + destruct (stat_mode w _) as [[| |]|]; cbn [map andb];
        try (apply IH; exact Hlen).
      destruct (has_wav_ext (d_name e)); cbn [map];
        [apply Hpush | apply IH, Hlen].
    + destruct (has_wav_ext (d_name e)); cbn [map];
        [apply Hpush | apply IH, Hlen].
Qed.

Lemma scan_content_heap path :
  scan_root_folders w path
  = match list_dir w path with
    | None => []
    | Some entries =>
        firstn 32 (map (entry_path path)
                     (filter (listed_folder w path) entries))
    end
  /\ scan_wavs_in_folder w path
     = match list_dir w path with
       | None => []
       | Some entries =>
           firstn 64 (map (entry_path path)
                        (filter (listed_wav w path) entries))
       end.
Proof.
  unfold scan_root_folders, scan_wavs_in_folder.
  destruct (list_dir w path) as [entries|]; [|split; reflexivity].
  rewrite scan_root_loop_content, scan_wavs_loop_content by (cbn; lia).
  split; reflexivity.
Qed.
End ScanContent.

(** [scan_root_folders] and [scan_wavs_in_folder], when [malloc] does not
    fail: the folder list is the first 32, in the order [readdir] yields
    them, of the entries other than "." and ".." that are directories (by
    [d_type], or by [stat] when the type is unknown), each as [path/name];
    the track list is the first 64 of the regular files whose name is longer
    than four characters and ends in ".wav" in any letter case.  A
    directory that cannot be opened gives an empty list. *)
Theorem scan_lists_matching_entries :
  forall w path,
    (forall n, malloc_ok w n = true) ->
    scan_root_folders w path
    = match list_dir w path with
      | None => []
      | Some entries =>
          firstn 32 (map (entry_path path)
                       (filter (listed_folder w path) entries))
      end
    /\ scan_wavs_in_folder w path
       = match list_dir w path with
         | None => []
         | Some entries =>
             firstn 64 (map (entry_path path)
                          (filter (listed_wav w path) entries))
         end.
Proof.
  intros w path heap. apply scan_content_heap, heap.
Qed.

Lemma scan_lists_matching_entries_witness :
  scan_wavs_in_folder demo_card "/sdcard/01"
  = ["/sdcard/01/S1.wav"; "/sdcard/01/S2.wav"; "/sdcard/01/other.wav"].
Proof.
  rewrite (proj2 (scan_lists_matching_entries demo_card "/sdcard/01"
                    (fun n => eq_refl))).
  reflexivity.
Defined.

(** The extension test: four characters or fewer are never a track, so a
    file named just ".wav" is not listed; the letter case is free. *)
Example has_wav_ext_cases :
  has_wav_ext ".wav" = false /\ has_wav_ext "a.wav" = true
  /\ has_wav_ext "Song.WaV" = true /\ has_wav_ext "a.wave" = false
  /\ has_wav_ext "a.mp3" = false.
Proof. repeat split. Qed.

(** ** The default folder *)

Lemma find_index_bound {A : Type} (p : A -> bool) (l : list A) k :
  find_index p l = Some k -> (k < List.length l)%nat.
Proof.
  revert k. induction l as [|a rest IH]; intros k H; cbn in *; [discriminate|].
  destruct (p a); [injection H as <-; lia|].
  destruct (find_index p rest) as [j|]; [|discriminate].
  injection H as <-. specialize (IH j eq_refl). lia.
Qed.

Lemma default_folder_loop_spec (l : list string) :
  forall i found_idx,
    0 <= i ->
    default_folder_loop l i found_idx
    = match find_index (folder_named "01") l with
      | Some k => i + Z.of_nat k
      | None =>
          if found_idx <? 0 then
            match find_index (folder_named "audios") l with
            | Some k => i + Z.of_nat k
            | None => found_idx
            end
          else found_idx
      end.
Proof.
  induction l as [|p rest IH]; intros i found_idx Hi.
  - cbn. destruct (found_idx <? 0); reflexivity.
  - cbn [default_folder_loop find_index]. unfold folder_named at 1 3.
    destruct (strcasecmp_eq (basename p) "01") eqn:H01; [cbn; lia|].
    destruct (found_idx <? 0) eqn:Hf; cbn [andb].
    + destruct (strcasecmp_eq (basename p) "audios") eqn:Ha.
      * rewrite IH by lia.
        destruct (find_index (folder_named "01") rest) as [k|]; cbn [option_map].
        -- lia.
        -- assert (Hi0 : (i <? 0) = false) by lia. rewrite Hi0. lia.
      * rewrite IH by lia. rewrite Hf.
        destruct (find_index (folder_named "01") rest) as [k|]; cbn [option_map];
          [lia|].
        destruct (find_index (folder_named "audios") rest) as [k|];
          cbn [option_map]; [lia | reflexivity].
    + rewrite IH by lia. rewrite Hf.
      destruct (find_index (folder_named "01") rest) as [k|]; cbn [option_map];
        [lia | reflexivity].
Qed.

Lemma default_folder_eq (l : list string) :
  default_folder l
  = match find_index (folder_named "01") l with
    | Some k => Z.of_nat k
    | None =>
        match find_index (folder_named "audios") l with
        | Some k => Z.of_nat k
        | None => 0
        end
    end.
Proof.
  unfold default_folder. cbv zeta.
  rewrite default_folder_loop_spec by lia.
  change (-1 <? 0) with true. cbv iota.
  destruct (find_index (folder_named "01") l) as [k|].
  - assert (H : (0 + Z.of_nat k >=? 0) = true) by (apply Z.geb_le; lia).
    rewrite H. lia.
  - destruct (find_index (folder_named "audios") l) as [k|].
    + assert (H : (0 + Z.of_nat k >=? 0) = true) by (apply Z.geb_le; lia).
      rewrite H. lia.
    + reflexivity.
Qed.

Lemma default_folder_range (l : list string) :
  l <> [] -> 0 <= default_folder l < Z.of_nat (List.length l).
Proof.
  intros Hne. rewrite default_folder_eq.
  destruct (find_index (folder_named "01") l) as [k|] eqn:H1.
  - apply find_index_bound in H1. lia.
  - destruct (find_index (folder_named "audios") l) as [k|] eqn:H2.
    + apply find_index_bound in H2. lia.
    + destruct l; [congruence | cbn; lia].
Qed.

(** The default selection of [app_main] after the root scan: the first
    folder named "01" (in any letter case) wherever it stands in the list;
    failing that the first folder named "audios"; failing that the first
    folder.  The index chosen is inside the list. *)
Theorem default_folder_choice :
  forall l : list string,
    default_folder l
    = match find_index (folder_named "01") l with
      | Some k => Z.of_nat k
      | None =>
          match find_index (folder_named "audios") l with
          | Some k => Z.of_nat k
          | None => 0
          end
      end
    /\ (l <> [] -> 0 <= default_folder l < Z.of_nat (List.length l)).
Proof.
  intros l. split; [apply default_folder_eq | apply default_folder_range].
Qed.

Lemma default_folder_choice_witness :
  0 <= default_folder ["/sdcard/AUDIOS"; "/sdcard/music"; "/sdcard/01"] < 3.
Proof.
  exact (proj2 (default_folder_choice
                  ["/sdcard/AUDIOS"; "/sdcard/music"; "/sdcard/01"])
           ltac:(discriminate)).
Defined.

Example default_folder_prefers_01 :
  default_folder ["/sdcard/AUDIOS"; "/sdcard/music"; "/sdcard/01"] = 2
  /\ default_folder ["/sdcard/x"; "/sdcard/Audios"; "/sdcard/audios"] = 1
  /\ default_folder ["/sdcard/x"; "/sdcard/y"] = 0.
Proof. repeat split. Qed.

(** ** Navigation invariants *)

Lemma nav_inv_view st st' :
  nav_view st' = nav_view st -> nav_inv st -> nav_inv st'.
Proof.
  unfold nav_view, nav_inv, num_tracks. intros H.
  injection H as -> -> -> -> -> -> ->. auto.
Qed.

Lemma request_announcement_view v q st :
  nav_view (request_announcement v q st) = nav_view st.
Proof.
  unfold request_announcement, notify_set_bits.
  destruct q, v; simpl; split_tests; reflexivity.
Qed.

Lemma announce_stories_view v w fp st :
  nav_view (announce_stories v w fp st) = nav_view st.
Proof.
  destruct (announce_stories_request v w fp st) as [q ->].
  apply request_announcement_view.
Qed.

Lemma announce_story_view v w f st :
  nav_view (announce_story v w f st) = nav_view st.
Proof.
  destruct (announce_story_request v w f st) as [q ->].
  apply request_announcement_view.
Qed.

Lemma signal_play_view v st : nav_view (signal_play v st) = nav_view st.
Proof.
  unfold signal_play, notify_overwrite.
  destruct v; simpl; split_tests; reflexivity.
Qed.

Lemma index_ok_0 l : index_ok 0 l.
Proof. unfold index_ok. lia. Qed.

Lemma index_ok_nonempty i l :
  index_ok i l -> l <> [] -> 0 <= i < Z.of_nat (List.length l).
Proof.
  unfold index_ok. intros H Hne. destruct l; [congruence|].
  cbn [List.length] in *. lia.
Qed.

(** The two ways a rotary step moves a selection stay inside the list. *)
Lemma step_index_ok (dt i : Z) l :
  index_ok i l -> l <> [] ->
  index_ok (if dt =? 0
            then Z.rem (i + 1) (Z.of_nat (List.length l))
            else Z.rem (i - 1 + Z.of_nat (List.length l))
                   (Z.of_nat (List.length l))) l.
Proof.
  intros Hi Hne. pose proof (index_ok_nonempty i l Hi Hne) as Hr.
  unfold index_ok.
  destruct (dt =? 0); rewrite Z.rem_mod_nonneg by lia;
    match goal with
    | |- context [?a mod ?n] => pose proof (Z.mod_pos_bound a n ltac:(lia))
    end; lia.
Qed.

Ltac sh_simpl :=
  cbn [nav_state g_pause g_playing playing_track g_volume_percent folder_list
       selected_folder wav_list current_track track_change_request
       g_stop_and_rewind announce_request announce_path stop_flag notify
       audio_task_handle set_nav_state set_g_pause set_g_playing
       set_playing_track set_g_volume_percent set_folder_list
       set_selected_folder set_wav_list set_current_track
       set_track_change_request set_g_stop_and_rewind set_announce_request
       set_announce_path set_stop_flag set_notify set_audio_task_handle
       free_wav_list free_folder_list] in *.

Ltac nav_finish :=
  solve [ unfold nav_inv, num_tracks, num_folders in *; sh_simpl;
          intuition (try discriminate; try congruence; try lia;
                     auto using index_ok_0) ].

Lemma positive_length (l : list string) :
  (Z.of_nat (List.length l) >? 0) = true -> l <> [].
Proof. destruct l; cbn; [lia | congruence]. Qed.

Lemma play_pause_file_view_inv v st :
  nav_state st = NAV_FILE_VIEW -> nav_inv st ->
  nav_inv (play_pause_file_view v st).
Proof.
  intros Hnav Hinv. unfold play_pause_file_view.
  destruct (g_playing st) eqn:Hg; cbn [negb].
  - destruct (playing_track st =? current_track st).
    + nav_finish.
    + eapply nav_inv_view; [apply signal_play_view|].
      assert (Hr : 0 <= current_track st < num_tracks st).
      { destruct Hinv as (_ & Hcur & _ & _ & Hplay).
        destruct (Hplay Hg) as [_ Hpt]. unfold num_tracks in *.
        apply index_ok_nonempty; [exact Hcur|].
        destruct (wav_list st); cbn in *; [lia | congruence]. }
      nav_finish.
  - destruct (num_tracks st >? 0) eqn:Hn; [|exact Hinv].
    eapply nav_inv_view; [apply signal_play_view|].
    assert (Hr : 0 <= current_track st < num_tracks st).
    { destruct Hinv as (_ & Hcur & _).
      apply index_ok_nonempty; [exact Hcur | apply positive_length, Hn]. }
    nav_finish.
Qed.

Lemma enter_folder_inv v w st :
  nav_state st = NAV_FOLDER_VIEW -> nav_inv st -> nav_inv (enter_folder v w st).
Proof.
  intros Hnav Hinv. unfold enter_folder.
  destruct (num_folders st >? 0) eqn:Hn; [|exact Hinv].
  match goal with
  | |- nav_inv (if _ then announce_story _ _ _ ?st3 else ?st3) =>
      assert (H3 : nav_inv st3)
  end.
  { pose proof (announce_stories_view v w
                  (at_index (folder_list st) (selected_folder st)) st) as Hv.
    unfold nav_view in Hv. injection Hv as _ _ _ Hf Hs _ _.
    apply positive_length in Hn.
    unfold nav_inv, num_tracks, num_folders in *. sh_simpl.
    rewrite Hf, Hs.
    intuition (try discriminate; try congruence; try lia;
               auto using index_ok_0). }
  match goal with
  | |- nav_inv (if ?c then _ else _) => destruct c
  end; [|exact H3].
  eapply nav_inv_view; [apply announce_story_view | exact H3].
Qed.

Lemma on_play_pause_inv v w st : nav_inv st -> nav_inv (on_play_pause v w st).
Proof.
  intros Hinv. unfold on_play_pause.
  destruct (nav_state st) eqn:Hnav.
  - destruct (num_folders st >? 0) eqn:Hn; [|exact Hinv].
    apply positive_length in Hn. nav_finish.
  - apply enter_folder_inv; assumption.
  - apply play_pause_file_view_inv; assumption.
Qed.

Lemma on_home_inv v w st : nav_inv st -> nav_inv (on_home v w st).
Proof.
  intros Hinv. unfold on_home.
  destruct (nav_state st) eqn:Hnav; [exact Hinv| |].
  - assert (H1 : nav_inv (set_nav_state NAV_HOME st)) by nav_finish.
    destruct v; [exact H1| |];
      (destruct (file_exists w _); [|exact H1];
       eapply nav_inv_view; [apply request_announcement_view | exact H1]).
  - destruct (g_playing st) eqn:Hg; [destruct v|]; nav_finish.
Qed.

Lemma on_enc_step_inv v w dt st : nav_inv st -> nav_inv (on_enc_step v w dt st).
Proof.
  intros Hinv. unfold on_enc_step.
  assert (Hfolders :
            nav_inv
              (if num_folders st >? 0
               then
                 let sel :=
                   if dt =? 0
                   then Z.rem (selected_folder st + 1) (num_folders st)
                   else Z.rem (selected_folder st - 1 + num_folders st)
                          (num_folders st) in
                 let st1 := set_selected_folder sel st in
                 announce_stories v w (at_index (folder_list st1) sel) st1
               else st)).
  { destruct (num_folders st >? 0) eqn:Hn; [|exact Hinv]. cbv zeta.
    eapply nav_inv_view; [apply announce_stories_view|].
    apply positive_length in Hn.
    pose proof (step_index_ok dt _ _ (proj1 Hinv) Hn) as Hstep.
    unfold nav_inv, num_tracks, num_folders in *. sh_simpl.
    intuition (try discriminate; try congruence; try lia). }
  destruct (nav_state st) eqn:Hnav; [exact Hfolders | exact Hfolders |].
  destruct (num_tracks st >? 0) eqn:Hn; [|exact Hinv]. cbv zeta.
  eapply nav_inv_view; [apply announce_story_view|].
  apply positive_length in Hn.
  pose proof (step_index_ok dt _ _ (proj1 (proj2 Hinv)) Hn) as Hstep.
  unfold nav_inv, num_tracks, num_folders in *. sh_simpl.
  intuition (try discriminate; try congruence; try lia).
Qed.

Lemma encoder_task_inv v w ev now el st :
  nav_inv st -> nav_inv (snd (encoder_task v w ev now el st)).
Proof.
  intros Hinv. unfold encoder_task.
  destruct (ev_type ev).
  - destruct (step_accepted _ _); [apply on_enc_step_inv|]; exact Hinv.
  - destruct (switch_accepted _ _); [apply on_play_pause_inv|]; exact Hinv.
Qed.

Lemma boot_finish_inv v st : nav_inv st -> nav_inv (o_sh (boot_finish v st)).
Proof. intros H. destruct v; cbn; nav_finish. Qed.

Lemma boot_home_inv v w st : nav_inv st -> nav_inv (o_sh (boot_home v w st)).
Proof.
  intros H. unfold boot_home.
  destruct (file_exists w _); [|apply boot_finish_inv, H].
  destruct (stream_open _ _ _ _) as [evs [os|]]; [exact H|].
  rewrite emit_sh. apply boot_finish_inv, H.
Qed.

Lemma boot_welcome_inv v w st :
  nav_inv st -> nav_inv (o_sh (boot_welcome v w st)).
Proof.
  intros H. unfold boot_welcome.
  destruct (file_exists w _); [|apply boot_home_inv, H].
  destruct (stream_open _ _ _ _) as [evs [os|]]; [exact H|].
  rewrite emit_sh. apply boot_home_inv, H.
Qed.

Lemma app_main_boot_inv v w st :
  nav_state st = NAV_HOME -> nav_inv st ->
  nav_inv (o_sh (app_main_boot v w st)).
Proof.
  intros Hnav Hinv. unfold app_main_boot.
  destruct (negb (sd_ok w)); [rewrite emit_sh; apply boot_finish_inv, Hinv|].
  match goal with
  | |- context [if num_folders ?st1 >? 0 then _ else _] =>
      assert (H2 : nav_inv
                     (fst (if num_folders st1 >? 0
                           then (set_selected_folder
                                   (default_folder (folder_list st1)) st1,
                                 @nil event)
                           else (st1, [EvLog LOGW MsgNoFolders]))))
  end.
  { destruct (num_folders _ >? 0) eqn:Hn; cbn [fst].
    - unfold num_folders in Hn. sh_simpl. apply positive_length in Hn.
      pose proof (default_folder_range _ Hn) as Hr.
      unfold nav_inv, index_ok, num_tracks in *. sh_simpl.
      intuition (try discriminate; try congruence; try lia).
    - nav_finish. }
  destruct (if num_folders _ >? 0 then _ else _) as [st2 evs].
  cbn [fst] in H2.
  destruct v; rewrite emit_sh;
    [apply boot_finish_inv | apply boot_welcome_inv | apply boot_welcome_inv];
    exact H2.
Qed.

Lemma after_stream_inv v w who st :
  nav_inv st -> nav_inv (o_sh (after_stream v w who st)).
Proof.
  intros H. unfold after_stream.
  destruct who as [| | |idx];
    [apply boot_home_inv, H | apply boot_finish_inv, H | exact H |].
  destruct v; [exact H | | cbn; nav_finish].
  destruct (announce_request st); [cbn; nav_finish | exact H].
Qed.

Lemma call_stream_inv v w who path st :
  nav_inv st -> nav_inv (o_sh (call_stream v w who path st)).
Proof.
  intros H. unfold call_stream.
  destruct (stream_open _ _ _ _) as [evs [os|]]; [exact H|].
  rewrite emit_sh. apply after_stream_inv, H.
Qed.

Lemma stream_step_inv v w who os st :
  nav_inv st -> nav_inv (o_sh (stream_step v w who os st)).
Proof.
  intros H. unfold stream_step.
  destruct (stream_iter _ _ _ _ _) as [evs [os'|r]]; [exact H|].
  rewrite emit_sh. apply after_stream_inv, H.
Qed.

Lemma audio_outcome_inv v w s :
  sys_inv s -> nav_inv (o_sh (audio_outcome v w s)).
Proof.
  intros [Hinv Hboot]. unfold audio_outcome.
  destruct (pc s) as [| |val|who os].
  - apply app_main_boot_inv; [apply Hboot; reflexivity | exact Hinv].
  - destruct v.
    + unfold v1_idle.
      repeat match goal with
             | |- context [if ?b then _ else _] => destruct b
             end; try exact Hinv; try (cbn; nav_finish).
      destruct (stream_open _ _ _ _) as [evs [os|]]; exact Hinv.
    + unfold v2_idle.
      repeat match goal with
             | |- context [if ?b then _ else _] => destruct b
             end; rewrite ?emit_sh; try exact Hinv;
        try (apply call_stream_inv); try (cbn; nav_finish).
    + unfold rtos_idle.
      destruct (notify (sh s) =? 0); [exact Hinv | cbn; nav_finish].
  - destruct v; try exact Hinv. unfold rtos_taken.
    destruct (negb _).
    + rewrite emit_sh. apply call_stream_inv. nav_finish.
    + destruct ((_ <? 0) || _)%bool eqn:Hidx; [exact Hinv|].
      rewrite emit_sh. apply call_stream_inv.
      apply Bool.orb_false_elim in Hidx as [H0 H1].
      apply Z.ltb_ge in H0. rewrite Z.geb_leb in H1. apply Z.leb_gt in H1.
      assert (Hfile : nav_state (sh s) = NAV_FILE_VIEW).
      { destruct (nav_state (sh s)) eqn:Hnav; [| |reflexivity]; exfalso;
          destruct Hinv as (_ & _ & Hw & _); unfold num_tracks in H1;
          rewrite Hw in H1 by congruence; cbn in H1; lia. }
      nav_finish.
  - assert (Hs : nav_inv (o_sh (stream_step v w who os (sh s))))
      by apply stream_step_inv, Hinv.
    destruct v; try exact Hs. destruct who; try exact Hs.
    unfold v1_loop.
    destruct (negb (g_playing (sh s))); [exact Hinv|].
    destruct (track_change_request (sh s)); [cbn; nav_finish|].
    destruct (g_stop_and_rewind (sh s)); simpl; split_tests;
      cbn; nav_finish.
Qed.

(** The audio side never goes back to before the boot. *)
Lemma boot_home_pc v w st : o_pc (boot_home v w st) <> PBoot.
Proof.
  unfold boot_home.
  destruct (file_exists w _); [|rewrite boot_finish_pc; discriminate].
  destruct (stream_open _ _ _ _) as [evs [os|]]; [discriminate|].
  rewrite emit_pc, boot_finish_pc. discriminate.
Qed.

Lemma boot_welcome_pc v w st : o_pc (boot_welcome v w st) <> PBoot.
Proof.
  unfold boot_welcome.
  destruct (file_exists w _); [|apply boot_home_pc].
  destruct (stream_open _ _ _ _) as [evs [os|]]; [discriminate|].
  rewrite emit_pc. apply boot_home_pc.
Qed.

Lemma after_stream_pc v w who st : o_pc (after_stream v w who st) <> PBoot.
Proof.
  unfold after_stream.
  destruct who; [apply boot_home_pc | rewrite boot_finish_pc | |];
    try discriminate.
  destruct v; [discriminate | | discriminate].
  destruct (announce_request st); discriminate.
Qed.

Lemma call_stream_pc v w who path st :
  o_pc (call_stream v w who path st) <> PBoot.
Proof.
  unfold call_stream.
  destruct (stream_open _ _ _ _) as [evs [os|]]; [discriminate|].
  rewrite emit_pc. apply after_stream_pc.
Qed.

Lemma audio_outcome_pc v w s : o_pc (audio_outcome v w s) <> PBoot.
Proof.
  unfold audio_outcome.
  destruct (pc s) as [| |val|who os].
  - unfold app_main_boot.
    destruct (negb (sd_ok w)); [rewrite emit_pc, boot_finish_pc; discriminate|].
    destruct (if num_folders _ >? 0 then _ else _) as [st2 evs].
    destruct v; rewrite emit_pc;
      [rewrite boot_finish_pc; discriminate | apply boot_welcome_pc ..].
  - destruct v.
    + unfold v1_idle.
      repeat match goal with
             | |- context [if ?b then _ else _] => destruct b
             end; try discriminate.
      destruct (stream_open _ _ _ _) as [evs [os|]]; discriminate.
    + unfold v2_idle.
      repeat match goal with
             | |- context [if ?b then _ else _] => destruct b
             end; rewrite ?emit_pc; try discriminate; apply call_stream_pc.
    + unfold rtos_idle. destruct (notify (sh s) =? 0); discriminate.
  - destruct v; try discriminate. unfold rtos_taken.
    repeat match goal with
           | |- context [if ?b then _ else _] => destruct b
           end; rewrite ?emit_pc; try discriminate; apply call_stream_pc.
  - assert (Hs : o_pc (stream_step v w who os (sh s)) <> PBoot).
    { unfold stream_step.
      destruct (stream_iter _ _ _ _ _) as [evs [os'|r]]; [discriminate|].
      rewrite emit_pc. apply after_stream_pc. }
    destruct v; try exact Hs. destruct who; try exact Hs.
    unfold v1_loop.
    destruct (negb (g_playing (sh s))); [discriminate|].
    destruct (track_change_request (sh s)); [discriminate|].
    destruct (g_stop_and_rewind (sh s)); simpl; split_tests; discriminate.
Qed.

Lemma booted_not_boot s : booted s = true -> pc s <> PBoot.
Proof. unfold booted. destruct (pc s); [discriminate | congruence ..]. Qed.

(** Each handler of the input side and each pass of the audio task, taken
    from its first statement to its last with no write of another task in
    between, keeps the selection consistent.  [nav_inv] says:
    [selected_folder] indexes a folder when there is one and is 0
    otherwise, [current_track] likewise for the tracks; [wav_list] is empty
    outside the track list screen; [folder_list] is not empty outside the
    home screen; and while [g_playing] is set the screen is the track list
    and [playing_track] indexes a track.  If this holds when Play/Pause,
    Home, Vol+, Vol-, an iteration of [encoder_task] or a pass of the audio
    side begins, it holds when it ends; it holds of the initialisers, and
    the audio side never returns to the boot. *)
Theorem handlers_keep_selection_in_range :
  nav_inv initial_shared
  /\ (forall v w st,
        nav_inv st ->
        nav_inv (on_play_pause v w st) /\ nav_inv (on_home v w st)
        /\ nav_inv (on_vol_up st) /\ nav_inv (on_vol_down st))
  /\ (forall v w ev now el st,
        nav_inv st -> nav_inv (snd (encoder_task v w ev now el st)))
  /\ (forall v w s,
        nav_inv (sh s) ->
        (pc s = PBoot -> nav_state (sh s) = NAV_HOME) ->
        nav_inv (sh (fst (audio_step v w s)))
        /\ pc (fst (audio_step v w s)) <> PBoot).
Proof.
  split.
  { unfold nav_inv, index_ok, num_tracks. cbn.
    intuition (try discriminate; try lia). }
  split.
  { intros v w st Hinv.
    split; [apply on_play_pause_inv, Hinv|].
    split; [apply on_home_inv, Hinv|].
    split; (eapply nav_inv_view; [|exact Hinv]);
      [rewrite on_vol_up_eq | rewrite on_vol_down_eq]; reflexivity. }
  split; [exact encoder_task_inv|].
  intros v w s Hinv Hboot. unfold audio_step. cbv zeta.
  cbn [fst sh pc with_audio]. split.
  - apply audio_outcome_inv. split; assumption.
  - apply audio_outcome_pc.
Qed.

Lemma handlers_keep_selection_in_range_witness :
  index_ok (current_track (on_home RTOS demo_card (sh rtos_woken)))
    (wav_list (on_home RTOS demo_card (sh rtos_woken)))
  /\ index_ok
       (current_track
          (snd (encoder_task RTOS demo_card (clk 0) 1000
                  {| last_step_time := 0; last_sw_time := 0 |}
                  (sh rtos_woken))))
       (wav_list
          (snd (encoder_task RTOS demo_card (clk 0) 1000
                  {| last_step_time := 0; last_sw_time := 0 |}
                  (sh rtos_woken)))).
Proof.
  assert (Hinv : nav_inv (sh rtos_woken)).
  { unfold nav_inv, index_ok, num_tracks. vm_compute.
    repeat split; intros; try discriminate; try congruence. }
  destruct handlers_keep_selection_in_range as (_ & Hh & He & _).
  split.
  - exact (proj1 (proj2 (proj1 (proj2 (Hh RTOS demo_card _ Hinv))))).
  - exact (proj1 (proj2 (He RTOS demo_card (clk 0) 1000
                           {| last_step_time := 0; last_sw_time := 0 |}
                           _ Hinv))).
Defined.

(** ** The rotary selection *)



Lemma rotate_forward i n : 0 <= i < n -> rotate 0 i n = (i + 1) mod n.
Proof.
  intros H. unfold rotate. change (0 =? 0) with true. cbv iota.
  apply Z.rem_mod_nonneg; lia.
Qed.





Lemma rotate_iter (k : nat) i n :
  0 <= i < n -> Nat.iter k (fun j => rotate 0 j n) i = (i + Z.of_nat k) mod n.
Proof.
  intros H. induction k as [|k IH].
  - cbn. rewrite Z.add_0_r. symmetry. apply Z.mod_small. exact H.
  - rewrite Nat.iter_succ, IH.
    rewrite rotate_forward by (apply Z.mod_pos_bound; lia).
    rewrite Zplus_mod_idemp_l. f_equal. lia.
Qed.







(** ** A stream from its first chunk to its end *)

Lemma written_bytes_app evs1 evs2 :
  written_bytes (evs1 ++ evs2) = written_bytes evs1 ++ written_bytes evs2.
Proof.
  induction evs1 as [|e evs1 IH]; [reflexivity|].
  destruct e; cbn [app written_bytes]; rewrite IH; try reflexivity.
  apply app_assoc.
Qed.

Lemma written_bytes_none evs :
  existsb is_write evs = false -> written_bytes evs = [].
Proof.
  induction evs as [|e evs IH]; [reflexivity|].
  destruct e; cbn [existsb is_write orb written_bytes]; try exact IH.
  discriminate.
Qed.

Lemma written_bytes_chunk w vol c :
  written_bytes (write_chunk w vol c) = apply_volume vol c.
Proof.
  unfold write_chunk. destruct (i2s_write_ok w); cbn; apply app_nil_r.
Qed.

Lemma chunks_fuel_concat (fuel n : nat) :
  forall l, (List.length l <= fuel)%nat -> (0 < n)%nat ->
            List.concat (chunks_fuel fuel n l) = l.
Proof.
  induction fuel as [|fuel IH]; intros l Hl Hn.
  - destruct l; [reflexivity | cbn in Hl; lia].
  - cbn [chunks_fuel].
    destruct (firstn n l) as [|b c] eqn:Hf.
    + destruct l; [reflexivity|]. destruct n; [lia | discriminate].
    + cbn [List.concat]. rewrite IH.
      * rewrite <- Hf. apply firstn_skipn.
      * rewrite length_skipn.
        assert (Hl1 : (1 <= List.length l)%nat)
          by (destruct l; [destruct n; discriminate | cbn; lia]).
        lia.
      * exact Hn.
Qed.

Lemma scale_samples_app vol a b :
  Nat.even (List.length a) = true ->
  scale_samples vol (a ++ b) = scale_samples vol a ++ scale_samples vol b.
Proof.
  induction a as [| x | x y a IH] using list_pair_ind;
    [reflexivity | discriminate |].
  intros He. cbn [app scale_samples]. rewrite IH by exact He. reflexivity.
Qed.

Lemma apply_volume_app vol a b :
  Nat.even (List.length a) = true ->
  apply_volume vol (a ++ b) = apply_volume vol a ++ apply_volume vol b.
Proof.
  intros He. unfold apply_volume.
  destruct (vol =? 100); [reflexivity | apply scale_samples_app, He].
Qed.

Lemma chunks_fuel_volume vol (fuel n : nat) :
  forall l, (List.length l <= fuel)%nat -> (0 < n)%nat ->
            Nat.even n = true ->
            List.concat (map (apply_volume vol) (chunks_fuel fuel n l))
            = apply_volume vol l.
Proof.
  induction fuel as [|fuel IH]; intros l Hl Hn He.
  - destruct l; [|cbn in Hl; lia]. cbn. unfold apply_volume.
    destruct (vol =? 100); reflexivity.
  - cbn [chunks_fuel].
    destruct (firstn n l) as [|b c] eqn:Hf.
    + destruct l; [|destruct n; [lia | discriminate]].
      cbn. unfold apply_volume. destruct (vol =? 100); reflexivity.
    + cbn [map List.concat]. rewrite IH.
      * rewrite <- Hf.
        destruct (Nat.le_gt_cases n (List.length l)) as [Hle|Hgt].
        -- rewrite <- apply_volume_app
             by (rewrite length_firstn, Nat.min_l by exact Hle; exact He).
           rewrite firstn_skipn. reflexivity.
        -- rewrite firstn_all2, skipn_all2 by lia.
           unfold apply_volume at 2.
           replace (if vol =? 100 then [] else scale_samples vol [])
             with (@nil byte) by (destruct (vol =? 100); reflexivity).
           apply app_nil_r.
      * rewrite length_skipn.
        assert (Hl1 : (1 <= List.length l)%nat)
          by (destruct l; [destruct n; discriminate | cbn; lia]).
        lia.
      * exact Hn.
      * exact He.
Qed.

Lemma stream_audio_step v w s who os :
  pc s = PLoop who os ->
  (v = V1 -> is_track who = false) ->
  reads_chunk v who (sh s) = true ->
  audio_step v w s
  = match fread_chunk os with
    | [] =>
        let o := after_stream v w who (sh s) in
        (with_audio s (o_sh o) (o_pc o),
         stream_close who SCompleted ++ o_evs o)
    | c =>
        (with_audio s (sh s) (PLoop who (advance os)),
         write_chunk w (g_volume_percent (sh s)) c)
    end.
Proof.
  intros Hpc Hv Hr. unfold audio_step, audio_outcome. rewrite Hpc.
  assert (Hstep :
            stream_step v w who os (sh s)
            = match fread_chunk os with
              | [] => emit (stream_close who SCompleted)
                        (after_stream v w who (sh s))
              | c => (sh s, PLoop who (advance os),
                      write_chunk w (g_volume_percent (sh s)) c)
              end).
  { assert (Hr' : (match stop_value v who (sh s) with
                   | Some true => false | _ => true end
                   && match pause_value v who (sh s) with
                      | Some true => false | _ => true end)%bool = true).
    { destruct v; [|exact Hr|exact Hr].
      destruct who; try exact Hr. specialize (Hv eq_refl). discriminate. }
    apply andb_prop in Hr' as [Hs Hp].
    unfold stream_step, stream_iter.
    destruct (stop_value v who (sh s)) as [[|]|]; try discriminate;
      destruct (pause_value v who (sh s)) as [[|]|]; try discriminate;
        destruct (fread_chunk os); reflexivity. }
  assert (Hout :
            match v, who with
            | V1, CTrk _ => v1_loop w who os (sh s)
            | _, _ => stream_step v w who os (sh s)
            end = stream_step v w who os (sh s)).
  { destruct v; try reflexivity. destruct who; try reflexivity.
    specialize (Hv eq_refl). discriminate. }
  rewrite Hout, Hstep. cbv zeta.
  destruct (fread_chunk os).
  - rewrite emit_sh, emit_pc, emit_evs. reflexivity.
  - reflexivity.
Qed.

Lemma run_cons_eq v l ls s s1 e1 :
  sys_step v l s = (s1, e1) ->
  run v (l :: ls) s = (fst (run v ls s1), e1 ++ snd (run v ls s1)).
Proof.
  intros H. cbn [run]. rewrite H. destruct (run v ls s1). reflexivity.
Qed.

(** The steps of a stream that is neither stopped nor paused, up to its
    return. *)
Lemma stream_run v w who (fuel : nat) :
  forall os s,
    pc s = PLoop who os ->
    (v = V1 -> is_track who = false) ->
    reads_chunk v who (sh s) = true ->
    (List.length (os_pos os) <= fuel)%nat ->
    run v (repeat (LAudio w)
             (S (List.length (chunks_fuel fuel (os_chunk os) (os_pos os))))) s
    = (let o := after_stream v w who (sh s) in
       (with_audio s (o_sh o) (o_pc o),
        List.concat (map (write_chunk w (g_volume_percent (sh s)))
                       (chunks_fuel fuel (os_chunk os) (os_pos os)))
        ++ stream_close who SCompleted ++ o_evs o)).
Proof.
  induction fuel as [|fuel IH]; intros os s Hpc Hv Hr Hlen.
  - assert (He : fread_chunk os = []).
    { unfold fread_chunk. destruct (os_pos os); [apply firstn_nil|].
      cbn in Hlen. lia. }
    cbn [chunks_fuel List.length repeat map List.concat app].
    erewrite run_cons_eq
      by (cbn [sys_step]; rewrite (stream_audio_step v w s who os Hpc Hv Hr), He;
          reflexivity).
    cbn [run fst snd]. cbv zeta. rewrite app_nil_r. reflexivity.
  - cbn [chunks_fuel]. fold (fread_chunk os).
    destruct (fread_chunk os) as [|b c] eqn:Hf.
    + cbn [List.length repeat map List.concat app].
      erewrite run_cons_eq
        by (cbn [sys_step];
            rewrite (stream_audio_step v w s who os Hpc Hv Hr), Hf;
            reflexivity).
      cbn [run fst snd]. cbv zeta. rewrite app_nil_r. reflexivity.
    + cbn [List.length map List.concat].
      set (s1 := with_audio s (sh s) (PLoop who (advance os))).
      assert (Hl1 : (List.length (skipn (os_chunk os) (os_pos os)) <= fuel)%nat).
      { rewrite length_skipn. unfold fread_chunk in Hf.
        assert ((1 <= os_chunk os)%nat /\ (1 <= List.length (os_pos os))%nat)
          by (destruct (os_chunk os); [discriminate|];
              destruct (os_pos os); [discriminate|]; cbn; lia).
        lia. }
      specialize (IH (advance os) s1 eq_refl Hv Hr Hl1).
      cbn [advance os_chunk os_pos] in IH. cbv zeta in IH.
      match goal with
      | |- run v (repeat (LAudio w) (S (S ?n))) s = _ =>
          change (repeat (LAudio w) (S (S n)))
            with (LAudio w :: repeat (LAudio w) (S n))
      end.
      erewrite run_cons_eq
        by (cbn [sys_step];
            rewrite (stream_audio_step v w s who os Hpc Hv Hr), Hf;
            reflexivity).
      fold s1. rewrite IH. cbn [fst snd]. subst s1. cbn [sh with_audio].
      rewrite <- app_assoc. reflexivity.
Qed.

Lemma stream_open_some v w who p evs os :
  stream_open v w who (Some p) = (evs, Some os) ->
  exists f winfo,
    file_bytes w p = Some f /\ parse_wav_header f = Some winfo
    /\ bits_per_sample winfo = 16
    /\ os = {| os_info := winfo; os_data := skipn 44 f;
               os_pos := skipn 44 f; os_chunk := chunk_bytes winfo |}.
Proof.
  unfold stream_open.
  destruct (file_bytes w p) as [f|]; [|discriminate].
  destruct (parse_wav_header f) as [winfo|] eqn:Hp; [|discriminate].
  destruct (bits_per_sample winfo =? 16) eqn:Hb; cbn [negb]; [|discriminate].
  destruct (i2s_install_ok w); cbn [negb]; [|discriminate].
  destruct (i2s_set_pin_ok w); cbn [negb]; [|discriminate].
  destruct (malloc_ok w (chunk_bytes winfo)); cbn [negb]; [|discriminate].
  intros H. injection H as _ <-.
  exists f, winfo. apply Z.eqb_eq in Hb.
  destruct (parse_wav_header_some f winfo Hp) as (_ & _ & Ho).
  rewrite Ho. repeat split; auto.
Qed.

Lemma chunk_bytes_16 winfo :
  bits_per_sample winfo = 16 ->
  chunk_bytes winfo = (2 * Z.to_nat (1024 * channels winfo))%nat.
Proof.
  intros Hb. unfold chunk_bytes. rewrite Hb.
  change (16 / 8) with 2.
  destruct (Z.le_gt_cases 0 (channels winfo)) as [Hc|Hc].
  - replace (1024 * 2 * channels winfo) with (2 * (1024 * channels winfo)) by lia.
    rewrite Z2Nat.inj_mul by lia. reflexivity.
  - assert (H1 : Z.to_nat (1024 * 2 * channels winfo) = O) by lia.
    assert (H2 : Z.to_nat (1024 * channels winfo) = O) by lia.
    rewrite H1, H2. reflexivity.
Qed.

Lemma written_bytes_chunks w vol (cs : list (list byte)) :
  written_bytes (List.concat (map (write_chunk w vol) cs))
  = List.concat (map (apply_volume vol) cs).
Proof.
  induction cs as [|c cs IH]; [reflexivity|].
  cbn [map List.concat]. rewrite written_bytes_app, written_bytes_chunk, IH.
  reflexivity.
Qed.

(** A stream that is neither stopped nor paused (the boot sounds always,
    an announcement or a track of v2 and RTOS while its flags stay clear),
    from its first chunk: the steps of its loop write the bytes that follow
    the 44-byte header, all of them up to the end of the file and in order,
    whatever [data_size] in the header says, scaled by the volume, in
    chunks of [chunk_bytes = 2048 * channels]; the step after the last
    chunk releases the output and returns as completed.  A header with 0
    channels gives a chunk size of 0: the stream then completes at once and
    writes nothing. *)
Theorem uninterrupted_stream_plays_file :
  forall v w who p evs os s,
    stream_open v w who (Some p) = (evs, Some os) ->
    pc s = PLoop who os ->
    (v = V1 -> is_track who = false) ->
    reads_chunk v who (sh s) = true ->
    exists f,
      file_bytes w p = Some f
      /\ let cs := chunks (os_chunk os) (skipn 44 f) in
         let o := after_stream v w who (sh s) in
         let r := run v (repeat (LAudio w) (S (List.length cs))) s in
         r = (with_audio s (o_sh o) (o_pc o),
              List.concat (map (write_chunk w (g_volume_percent (sh s))) cs)
              ++ stream_close who SCompleted ++ o_evs o)
         /\ ((0 < os_chunk os)%nat ->
             written_bytes (snd r)
             = apply_volume (g_volume_percent (sh s)) (skipn 44 f))
         /\ (os_chunk os = O -> written_bytes (snd r) = []).
Proof.
  intros v w who p evs os s Hopen Hpc Hv Hr.
  destruct (stream_open_some v w who p evs os Hopen)
    as (f & winfo & Hf & Hp & Hb & Hos).
  exists f. split; [exact Hf|]. cbv zeta.
  assert (Hpos : os_pos os = skipn 44 f) by (rewrite Hos; reflexivity).
  pose proof (stream_run v w who (List.length (os_pos os)) os s Hpc Hv Hr
                (Nat.le_refl _)) as Hrun.
  cbv zeta in Hrun. rewrite Hpos in Hrun. unfold chunks.
  split; [exact Hrun|].
  rewrite Hrun. cbn [snd].
  rewrite !written_bytes_app, written_bytes_chunks.
  rewrite (written_bytes_none (o_evs (after_stream v w who (sh s))))
    by apply after_stream_no_write.
  cbn [stream_close written_bytes]. rewrite !app_nil_r.
  split.
  - intros Hn. apply chunks_fuel_volume; [lia | exact Hn |].
    rewrite Hos. cbn [os_chunk]. rewrite (chunk_bytes_16 winfo Hb).
    rewrite Nat.even_mul. reflexivity.
  - intros H0. rewrite H0.
    destruct (List.length (skipn 44 f)); reflexivity.
Qed.

Lemma uninterrupted_stream_plays_file_witness :
  exists f,
    file_bytes demo_card "/sdcard/01/S1.wav" = Some f
    /\ written_bytes
         (snd (run RTOS (repeat (LAudio demo_card)
                           (S (List.length
                                 (chunks 2048 (skipn 44 f)))))
                 demo_playing))
       = apply_volume 100 (skipn 44 f).
Proof.
  assert (Hopen : stream_open RTOS demo_card (CTrk 0) (Some "/sdcard/01/S1.wav")
                  = ([EvCall (CTrk 0) (Some "/sdcard/01/S1.wav");
                      EvI2SInstall 8000 true true; EvI2SSetPin true;
                      EvI2SSetClk 8000 1 true],
                     Some (demo_stream four_bytes)))
    by (vm_compute; reflexivity).
  assert (Hpc : pc demo_playing = PLoop (CTrk 0) (demo_stream four_bytes))
    by (vm_compute; reflexivity).
  assert (Hr : reads_chunk RTOS (CTrk 0) (sh demo_playing) = true)
    by (vm_compute; reflexivity).
  destruct (uninterrupted_stream_plays_file RTOS demo_card (CTrk 0)
              "/sdcard/01/S1.wav" _ (demo_stream four_bytes) demo_playing
              Hopen Hpc ltac:(discriminate) Hr) as (f & Hf & _ & Hw & _).
  exists f. split; [exact Hf|].
  assert (Hvol : g_volume_percent (sh demo_playing) = 100)
    by (vm_compute; reflexivity).
  rewrite <- Hvol. apply Hw. cbn. lia.
Defined.

(** ** Switching to another track *)

Lemma testbit_31_small (n : Z) : 0 <= n < 2 ^ 31 -> Z.testbit n 31 = false.
Proof.
  intros H. destruct (Z.eq_dec n 0) as [->|Hn]; [apply Z.bits_0|].
  apply Z.bits_above_log2; [lia|].
  apply Z.log2_lt_pow2; lia.
Qed.

Lemma play_pause_other_track v w st :
  nav_state st = NAV_FILE_VIEW ->
  g_playing st = true ->
  playing_track st <> current_track st ->
  on_play_pause v w st
  = signal_play v (set_g_pause false (set_playing_track (current_track st) st)).
Proof.
  intros Hnav Hp Hother. unfold on_play_pause, play_pause_file_view.
  rewrite Hnav, Hp. apply Z.eqb_neq in Hother. rewrite Hother. reflexivity.
Qed.

Lemma audio_step_eq v w s o :
  audio_outcome v w s = o ->
  audio_step v w s = (with_audio s (o_sh o) (o_pc o), o_evs o).
Proof. intros <-. reflexivity. Qed.

Lemma rtos_track_switch w w1 w2 w3 s i os :
  pc s = PLoop (CTrk i) os ->
  nav_state (sh s) = NAV_FILE_VIEW ->
  g_playing (sh s) = true ->
  playing_track (sh s) <> current_track (sh s) ->
  0 <= current_track (sh s) < num_tracks (sh s) ->
  num_tracks (sh s) <= 64 ->
  audio_task_handle (sh s) = true ->
  exists rest,
    snd (run RTOS [LAudio w1; LAudio w2; LAudio w3]
           (with_sh s (on_play_pause RTOS w (sh s))))
    = [EvLog LOGI MsgInterrupted; EvI2SUninstall;
       EvReturn (CTrk i) SAborted; EvLog LOGI MsgPlaybackInterrupted;
       EvLog LOGI (MsgStartTrack (current_track (sh s)));
       EvCall (CTrk (current_track (sh s)))
         (Some (at_index (wav_list (sh s)) (current_track (sh s))))]
      ++ rest.
Proof.
  intros Hpc Hnav Hg Hother Hj H64 Hh.
  rewrite (play_pause_other_track RTOS w (sh s) Hnav Hg Hother).
  unfold signal_play, notify_overwrite. sh_simpl. rewrite Hh.
  set (j := current_track (sh s)) in *.
  assert (Hw : wrap_u32 (j + 1) = j + 1)
    by (unfold wrap_u32; apply Z.mod_small; lia).
  rewrite Hw.
  (* first step: the stream of track [i] stops *)
  erewrite run_cons_eq.
  2:{ cbn [sys_step]. apply audio_step_eq.
      unfold audio_outcome, with_sh. cbn [pc sh with_audio]. rewrite Hpc.
      rewrite stream_step_stopped by reflexivity.
      cbn [after_stream emit]. sh_simpl. reflexivity. }
  (* second step: the task takes the notification *)
  erewrite run_cons_eq.
  2:{ cbn [sys_step]. apply audio_step_eq.
      unfold audio_outcome. cbn [o_sh o_pc fst snd pc sh with_audio with_sh].
      unfold rtos_idle. sh_simpl.
      assert (Hnz : (j + 1 =? 0) = false) by lia. rewrite Hnz. reflexivity. }
  (* third step: it starts the requested track *)
  erewrite run_cons_eq.
  2:{ cbn [sys_step]. apply audio_step_eq.
      unfold audio_outcome. cbn [o_sh o_pc fst snd pc sh with_audio with_sh].
      unfold rtos_taken.
      rewrite announce_bit_test, testbit_31_small by lia. cbn [negb].
      rewrite wrap_i32_id by (unfold in_i32; lia).
      replace (j + 1 - 1) with j by lia.
      unfold num_tracks in *. sh_simpl.
      assert (Hin : ((j <? 0) || (j >=? Z.of_nat (List.length (wav_list (sh s)))))%bool
                    = false).
      { apply Bool.orb_false_intro; [lia|]. rewrite Z.geb_leb. lia. }
      rewrite Hin. reflexivity. }
  cbn [run fst snd o_evs].
  match goal with
  | |- context [call_stream RTOS w3 ?who (Some ?p) ?st] =>
      destruct (call_stream_head RTOS w3 who p st) as [rest Hrest]
  end.
  rewrite emit_evs, Hrest. cbn [app]. eexists. reflexivity.
Qed.

Lemma v1_track_switch w w1 w2 s i os :
  pc s = PLoop (CTrk i) os ->
  nav_state (sh s) = NAV_FILE_VIEW ->
  g_playing (sh s) = true ->
  playing_track (sh s) <> current_track (sh s) ->
  0 <= current_track (sh s) < num_tracks (sh s) ->
  exists rest,
    snd (run V1 [LAudio w1; LAudio w2]
           (with_sh s (on_play_pause V1 w (sh s))))
    = [EvLog LOGI MsgTrackChange; EvI2SUninstall;
       EvReturn (CTrk i) SAborted;
       EvCall (CTrk (current_track (sh s)))
         (Some (at_index (wav_list (sh s)) (current_track (sh s))))]
      ++ rest.
Proof.
  intros Hpc Hnav Hg Hother Hj.
  rewrite (play_pause_other_track V1 w (sh s) Hnav Hg Hother).
  unfold signal_play.
  set (j := current_track (sh s)) in *.
  erewrite run_cons_eq.
  2:{ cbn [sys_step]. apply audio_step_eq.
      unfold audio_outcome, with_sh. cbn [pc sh with_audio]. rewrite Hpc.
      unfold v1_loop. sh_simpl. rewrite Hg. cbn [negb]. reflexivity. }
  erewrite run_cons_eq.
  2:{ cbn [sys_step]. apply audio_step_eq.
      unfold audio_outcome. cbn [o_sh o_pc fst snd pc sh with_audio with_sh].
      unfold v1_idle, num_tracks in *. sh_simpl. rewrite Hg, Hnav.
      cbn [negb nav_eqb].
      assert (Hnz : (Z.of_nat (List.length (wav_list (sh s))) =? 0) = false)
        by lia.
      assert (Hin : ((j <? 0) || (j >=? Z.of_nat (List.length (wav_list (sh s)))))%bool
                    = false).
      { apply Bool.orb_false_intro; [lia|]. rewrite Z.geb_leb. lia. }
      rewrite Hnz, Hin. reflexivity. }
  cbn [run fst snd o_evs stream_close app].
  match goal with
  | |- context [stream_open V1 w2 ?who (Some ?p)] =>
      destruct (stream_open_head V1 w2 who p) as [rest Hrest];
      destruct (stream_open V1 w2 who (Some p)) as [evs [os'|]];
      cbn [fst] in Hrest; subst evs
  end; cbn [o_evs snd app]; eexists; rewrite app_nil_r; reflexivity.
Qed.

(** Play/Pause (or the rotary switch) on another track than the one being
    streamed, in the track list:
    - RTOS: the stream in progress stops at its next poll and returns as
      aborted, the task takes the notification and calls the stream of the
      selected track (the handle of [audio_task] is set once the tasks
      exist);
    - v1: the inline loop leaves at its next pass, and the next pass of
      [audio_task] opens the selected track. *)
Theorem track_switch_restarts :
  forall w w1 w2 w3 s i os,
    pc s = PLoop (CTrk i) os ->
    nav_state (sh s) = NAV_FILE_VIEW ->
    g_playing (sh s) = true ->
    playing_track (sh s) <> current_track (sh s) ->
    0 <= current_track (sh s) < num_tracks (sh s) ->
    num_tracks (sh s) <= 64 ->
    (audio_task_handle (sh s) = true ->
     exists rest,
       snd (run RTOS [LAudio w1; LAudio w2; LAudio w3]
              (with_sh s (on_play_pause RTOS w (sh s))))
       = [EvLog LOGI MsgInterrupted; EvI2SUninstall;
          EvReturn (CTrk i) SAborted; EvLog LOGI MsgPlaybackInterrupted;
          EvLog LOGI (MsgStartTrack (current_track (sh s)));
          EvCall (CTrk (current_track (sh s)))
            (Some (at_index (wav_list (sh s)) (current_track (sh s))))]
         ++ rest)
    /\ (exists rest,
          snd (run V1 [LAudio w1; LAudio w2]
                 (with_sh s (on_play_pause V1 w (sh s))))
          = [EvLog LOGI MsgTrackChange; EvI2SUninstall;
             EvReturn (CTrk i) SAborted;
             EvCall (CTrk (current_track (sh s)))
               (Some (at_index (wav_list (sh s)) (current_track (sh s))))]
            ++ rest).
Proof.
  intros w w1 w2 w3 s i os Hpc Hnav Hg Hother Hj H64. split.
  - intros Hh. apply (rtos_track_switch w w1 w2 w3 s i os); assumption.
  - apply (v1_track_switch w w1 w2 s i os); assumption.
Qed.

Lemma track_switch_restarts_witness :
  exists rest,
    snd (run V1 [LAudio demo_card; LAudio demo_card]
           (with_sh switch_demo (on_play_pause V1 demo_card (sh switch_demo))))
    = [EvLog LOGI MsgTrackChange; EvI2SUninstall;
       EvReturn (CTrk 0) SAborted;
       EvCall (CTrk 2) (Some "/sdcard/01/other.wav")] ++ rest.
Proof.
  assert (Hpc : pc switch_demo = PLoop (CTrk 0) (demo_stream four_bytes))
    by (vm_compute; reflexivity).
  assert (Hnav : nav_state (sh switch_demo) = NAV_FILE_VIEW)
    by (vm_compute; reflexivity).
  assert (Hg : g_playing (sh switch_demo) = true) by (vm_compute; reflexivity).
  assert (Hct : current_track (sh switch_demo) = 2) by (vm_compute; reflexivity).
  assert (Hpt : playing_track (sh switch_demo) = 0) by (vm_compute; reflexivity).
  assert (Hn : num_tracks (sh switch_demo) = 3) by (vm_compute; reflexivity).
  assert (Hwl : at_index (wav_list (sh switch_demo)) 2 = "/sdcard/01/other.wav")
    by (vm_compute; reflexivity).
  pose proof (proj2 (track_switch_restarts demo_card demo_card demo_card
                       demo_card switch_demo 0 (demo_stream four_bytes)
                       Hpc Hnav Hg ltac:(rewrite Hct, Hpt; discriminate)
                       ltac:(rewrite Hct, Hn; lia) ltac:(rewrite Hn; lia)))
    as H.
  rewrite Hct, Hwl in H. exact H.
Defined.

(** ** What the chunk loop looks at *)

Lemma boot_home_shape v w st st' :
  o_evs (boot_home v w st') = o_evs (boot_home v w st)
  /\ o_pc (boot_home v w st') = o_pc (boot_home v w st).
Proof.
  unfold boot_home. destruct (file_exists w _).
  - destruct (stream_open _ _ _ _) as [evs [os|]]; [split; reflexivity|].
    rewrite !emit_evs, !emit_pc, !boot_finish_evs, !boot_finish_pc.
    split; reflexivity.
  - rewrite !boot_finish_evs, !boot_finish_pc. split; reflexivity.
Qed.

Lemma v2_after_stream_shape w who st st' :
  announce_request st' = announce_request st ->
  o_evs (after_stream V2 w who st') = o_evs (after_stream V2 w who st)
  /\ o_pc (after_stream V2 w who st') = o_pc (after_stream V2 w who st).
Proof.
  intros Ha. unfold after_stream. destruct who.
  - apply boot_home_shape.
  - split; reflexivity.
  - split; reflexivity.
  - rewrite Ha. destruct (announce_request st); split; reflexivity.
Qed.

Lemma v2_stream_step_shape w who os st st' :
  announce_request st' = announce_request st ->
  g_volume_percent st' = g_volume_percent st ->
  o_evs (stream_step V2 w who os st') = o_evs (stream_step V2 w who os st)
  /\ o_pc (stream_step V2 w who os st') = o_pc (stream_step V2 w who os st).
Proof.
  intros Ha Hv. unfold stream_step.
  assert (Hs : stop_value V2 who st' = stop_value V2 who st)
    by (destruct who; cbn; rewrite ?Ha; reflexivity).
  assert (Hp : pause_value V2 who st' = pause_value V2 who st) by reflexivity.
  rewrite Hs, Hp, Hv.
  destruct (stream_iter _ _ _ _ _) as [evs [os'|r]]; [split; reflexivity|].
  rewrite !emit_evs, !emit_pc.
  destruct (v2_after_stream_shape w who st st' Ha) as [-> ->].
  split; reflexivity.
Qed.

Lemma play_pause_file_view_v2_flags st :
  announce_request (play_pause_file_view V2 st) = announce_request st
  /\ g_volume_percent (play_pause_file_view V2 st) = g_volume_percent st.
Proof.
  unfold play_pause_file_view, signal_play. split_tests; split; reflexivity.
Qed.

(** v2: a pass through the chunk loop of [stream_file_interruptible], and
    the return that may follow it, are determined by [announce_request],
    the volume and the position in the file.  The loop reads neither
    [g_pause] nor [g_playing] nor [track_change_request]: in the track list
    a Play/Pause press (pause, resume, or another track) and a Home press
    leave the stream in progress writing as before. *)
Theorem v2_stream_polls_announce_only :
  forall w who os st,
    (forall st',
        announce_request st' = announce_request st ->
        g_volume_percent st' = g_volume_percent st ->
        o_evs (stream_step V2 w who os st') = o_evs (stream_step V2 w who os st)
        /\ o_pc (stream_step V2 w who os st')
           = o_pc (stream_step V2 w who os st))
    /\ (nav_state st = NAV_FILE_VIEW ->
        forall w',
          o_evs (stream_step V2 w who os (on_play_pause V2 w' st))
          = o_evs (stream_step V2 w who os st)
          /\ o_evs (stream_step V2 w who os (on_home V2 w' st))
             = o_evs (stream_step V2 w who os st)).
Proof.
  intros w who os st. split.
  - intros st' Ha Hv. apply v2_stream_step_shape; assumption.
  - intros Hnav w'. split.
    + unfold on_play_pause. rewrite Hnav.
      destruct (play_pause_file_view_v2_flags st) as [Ha Hv].
      apply (v2_stream_step_shape w who os st _ Ha Hv).
    + apply v2_stream_step_shape; unfold on_home; rewrite Hnav;
        destruct (g_playing st); reflexivity.
Qed.

Lemma v2_stream_polls_announce_only_witness :
  o_evs (stream_step V2 demo_card (CTrk 0) (demo_stream four_bytes)
           (on_home V2 demo_card (sh v2_playing)))
  = o_evs (stream_step V2 demo_card (CTrk 0) (demo_stream four_bytes)
             (sh v2_playing)).
Proof.
  exact (proj2 (proj2 (v2_stream_polls_announce_only demo_card (CTrk 0)
                         (demo_stream four_bytes) (sh v2_playing))
                  ltac:(vm_compute; reflexivity) demo_card)).
Defined.

(** Evaluated on the demo card: with S1.wav streaming, Home takes the
    navigation back to the folder list and clears [g_playing], and the
    next step of the audio side still writes the data of S1.wav. *)
Example v2_home_during_playback :
  let s := with_sh v2_playing (on_home V2 demo_card (sh v2_playing)) in
  nav_state (sh s) = NAV_FOLDER_VIEW /\ g_playing (sh s) = false
  /\ snd (audio_step V2 demo_card s) = [EvI2SWrite four_bytes true].
Proof. vm_compute. repeat split. Qed.

(** v2: when the stream of a track reaches the end of the file with no
    announcement requested, [g_playing] and [playing_track] are left as
    they are, so the next pass of [audio_task] calls the stream of
    [playing_track] again: the same track once more, or the track selected
    by a Play/Pause press that came while the first was streaming. *)
Theorem v2_plays_playing_track_again :
  forall w1 w2 s i os,
    pc s = PLoop (CTrk i) os ->
    fread_chunk os = [] ->
    announce_request (sh s) = false ->
    g_playing (sh s) = true ->
    nav_state (sh s) = NAV_FILE_VIEW ->
    0 <= playing_track (sh s) < num_tracks (sh s) ->
    exists rest,
      snd (run V2 [LAudio w1; LAudio w2] s)
      = [EvI2SUninstall; EvReturn (CTrk i) SCompleted;
         EvLog LOGI (MsgStartTrack (playing_track (sh s)));
         EvCall (CTrk (playing_track (sh s)))
           (Some (at_index (wav_list (sh s)) (playing_track (sh s))))]
        ++ rest.
Proof.
  intros w1 w2 s i os Hpc Heof Ha Hg Hnav Hj.
  erewrite run_cons_eq.
  2:{ cbn [sys_step]. apply audio_step_eq.
      unfold audio_outcome. rewrite Hpc.
      rewrite stream_step_eof by (cbn; rewrite ?Ha; auto).
      cbn [after_stream]. rewrite Ha. reflexivity. }
  erewrite run_cons_eq.
  2:{ cbn [sys_step]. apply audio_step_eq.
      unfold audio_outcome. cbn [emit o_sh o_pc fst snd pc sh with_audio].
      unfold v2_idle, num_tracks in *. rewrite Ha, Hg, Hnav.
      cbn [negb nav_eqb].
      assert (Hnz : (Z.of_nat (List.length (wav_list (sh s))) =? 0) = false)
        by lia.
      assert (Hin : ((playing_track (sh s) <? 0)
                     || (playing_track (sh s)
                         >=? Z.of_nat (List.length (wav_list (sh s)))))%bool
                    = false).
      { apply Bool.orb_false_intro; [lia|]. rewrite Z.geb_leb. lia. }
      rewrite Hnz, Hin. reflexivity. }
  cbn [run fst snd o_evs emit stream_close app].
  match goal with
  | |- context [call_stream V2 w2 ?who (Some ?p) ?st] =>
      destruct (call_stream_head V2 w2 who p st) as [rest Hrest]
  end.
  rewrite emit_evs, Hrest. cbn [app]. eexists. rewrite app_nil_r. reflexivity.
Qed.

Lemma v2_plays_playing_track_again_witness :
  exists rest,
    snd (run V2 [LAudio demo_card; LAudio demo_card] v2_at_eof)
    = [EvI2SUninstall; EvReturn (CTrk 0) SCompleted;
       EvLog LOGI (MsgStartTrack 0);
       EvCall (CTrk 0) (Some "/sdcard/01/S1.wav")] ++ rest.
Proof.
  assert (Hpc : pc v2_at_eof = PLoop (CTrk 0) (demo_stream []))
    by (vm_compute; reflexivity).
  assert (Hpt : playing_track (sh v2_at_eof) = 0) by (vm_compute; reflexivity).
  assert (Hn : num_tracks (sh v2_at_eof) = 3) by (vm_compute; reflexivity).
  assert (Hwl : at_index (wav_list (sh v2_at_eof)) 0 = "/sdcard/01/S1.wav")
    by (vm_compute; reflexivity).
  pose proof (v2_plays_playing_track_again demo_card demo_card v2_at_eof 0
                (demo_stream []) Hpc eq_refl
                ltac:(vm_compute; reflexivity) ltac:(vm_compute; reflexivity)
                ltac:(vm_compute; reflexivity)
                ltac:(rewrite Hpt, Hn; lia)) as H.
  rewrite Hpt, Hwl in H. exact H.
Defined.

(** ** Pause *)

Lemma paused_step v w s i os :
  v <> V2 ->
  pc s = PLoop (CTrk i) os ->
  not_stopped v (sh s) ->
  g_stop_and_rewind (sh s) = false ->
  g_pause (sh s) = true ->
  audio_step v w s = (s, []).
Proof.
  intros Hv Hpc Hns Hrw Hp. unfold audio_step, audio_outcome. rewrite Hpc.
  destruct v; [| congruence |].
  - destruct Hns as [Hg Ht]. unfold v1_loop. rewrite Hg, Ht, Hrw, Hp.
    cbn [negb o_sh o_pc o_evs fst snd]. rewrite <- Hpc, with_audio_same.
    reflexivity.
  - cbn [not_stopped] in Hns. unfold stream_step, stream_iter.
    cbn [stop_value pause_value]. rewrite Hns, Hp.
    cbn [o_sh o_pc o_evs fst snd]. rewrite <- Hpc, with_audio_same.
    reflexivity.
Qed.

Lemma paused_run v w s i os (n : nat) :
  v <> V2 ->
  pc s = PLoop (CTrk i) os ->
  not_stopped v (sh s) ->
  g_stop_and_rewind (sh s) = false ->
  g_pause (sh s) = true ->
  run v (repeat (LAudio w) n) s = (s, []).
Proof.
  intros Hv Hpc Hns Hrw Hp. induction n as [|n IH]; [reflexivity|].
  cbn [repeat]. erewrite run_cons_eq
    by (cbn [sys_step]; apply (paused_step v w s i os); assumption).
  rewrite IH. reflexivity.
Qed.

(** Pause in v1 and RTOS (v2 has no pause in its chunk loop): while
    [g_pause] is set and the stream of a track is not told to stop, the
    passes through the chunk loop write nothing and keep the position in
    the file, however many there are, so playback resumes where it was
    held.  The stop test comes before the pause test: a paused stream still
    gives way, in RTOS to [stop_flag] and in v1 to a track change. *)
Theorem pause_holds_stream :
  forall v w s i os,
    v <> V2 ->
    pc s = PLoop (CTrk i) os ->
    g_pause (sh s) = true ->
    (not_stopped v (sh s) -> g_stop_and_rewind (sh s) = false ->
     forall n, run v (repeat (LAudio w) n) s = (s, []))
    /\ (v = RTOS -> stop_flag (sh s) = true ->
        exists rest,
          snd (audio_step v w s)
          = EvLog LOGI MsgInterrupted :: EvI2SUninstall
              :: EvReturn (CTrk i) SAborted :: rest)
    /\ (v = V1 -> g_playing (sh s) = true ->
        track_change_request (sh s) = true ->
        snd (audio_step v w s)
        = [EvLog LOGI MsgTrackChange; EvI2SUninstall;
           EvReturn (CTrk i) SAborted]).
Proof.
  intros v w s i os Hv Hpc Hp. split; [|split].
  - intros Hns Hrw n. apply (paused_run v w s i os n); assumption.
  - intros -> Hstop. unfold audio_step, audio_outcome. rewrite Hpc.
    rewrite stream_step_stopped by (cbn; rewrite Hstop; reflexivity).
    cbn [snd o_evs]. rewrite emit_evs. cbn [app stream_close].
    eexists. reflexivity.
  - intros -> Hg Ht. unfold audio_step, audio_outcome. rewrite Hpc.
    unfold v1_loop. rewrite Hg, Ht. reflexivity.
Qed.

Lemma pause_holds_stream_witness :
  run RTOS (repeat (LAudio demo_card) 5)
    (with_sh demo_playing (on_play_pause RTOS demo_card (sh demo_playing)))
  = (with_sh demo_playing (on_play_pause RTOS demo_card (sh demo_playing)), []).
Proof.
  apply (proj1 (pause_holds_stream RTOS demo_card
                  (with_sh demo_playing
                     (on_play_pause RTOS demo_card (sh demo_playing)))
                  0 (demo_stream four_bytes)
                  ltac:(discriminate) ltac:(vm_compute; reflexivity)
                  ltac:(vm_compute; reflexivity)));
    vm_compute; reflexivity.
Defined.

(** ** RTOS: two requests in one notification value *)

Lemma stream_open_ann_call v w i path :
  existsb is_ann_call (fst (stream_open v w (CTrk i) path)) = false.
Proof.
  unfold stream_open, failed.
  split_tests; cbn; rewrite ?existsb_app; reflexivity.
Qed.

Lemma rtos_call_track_no_ann w i path st :
  existsb is_ann_call (o_evs (call_stream RTOS w (CTrk i) path st)) = false.
Proof.
  unfold call_stream.
  pose proof (stream_open_ann_call RTOS w i path) as H.
  destruct (stream_open _ _ _ _) as [evs [os|]]; cbn [fst] in H; [exact H|].
  rewrite emit_evs, existsb_app, H. reflexivity.
Qed.

Lemma lor_announce_bit (n : Z) :
  0 <= n < 2 ^ 31 ->
  Z.testbit (Z.lor n NOTIFY_ANNOUNCE_BIT) 31 = true
  /\ Z.lor n NOTIFY_ANNOUNCE_BIT <> 0.
Proof.
  intros Hn. unfold NOTIFY_ANNOUNCE_BIT. rewrite Z.shiftl_1_l.
  assert (Hb : Z.testbit (Z.lor n (2 ^ 31)) 31 = true)
    by (rewrite Z.lor_spec, Z.pow2_bits_true by lia; apply orb_true_r).
  split; [exact Hb|].
  intros H0. rewrite H0, Z.bits_0 in Hb. discriminate.
Qed.

Lemma rtos_request_eq p st :
  audio_task_handle st = true ->
  request_announcement RTOS (Some p) st
  = set_notify (Z.lor (notify st) NOTIFY_ANNOUNCE_BIT)
      (set_stop_flag true (set_announce_path (string_take 255 p) st)).
Proof.
  intros Hh. unfold request_announcement, notify_set_bits. sh_simpl.
  rewrite Hh. reflexivity.
Qed.

Lemma rtos_play_eq w st :
  audio_task_handle st = true ->
  nav_state st = NAV_FILE_VIEW ->
  g_playing st = false ->
  0 <= current_track st < num_tracks st ->
  num_tracks st <= 64 ->
  on_play_pause RTOS w st
  = set_notify (current_track st + 1)
      (set_stop_flag true
         (set_g_pause false
            (set_g_playing true (set_playing_track (current_track st) st)))).
Proof.
  intros Hh Hnav Hg Hj H64.
  unfold on_play_pause, play_pause_file_view. rewrite Hnav, Hg. cbn [negb].
  assert (Hgt : (num_tracks st >? 0) = true) by lia. rewrite Hgt.
  unfold signal_play, notify_overwrite. sh_simpl. rewrite Hh.
  unfold wrap_u32. rewrite Z.mod_small by lia. reflexivity.
Qed.

Lemma rtos_two_steps w1 w2 s val :
  pc s = PIdle -> notify (sh s) = val -> val <> 0 ->
  run RTOS [LAudio w1; LAudio w2] s
  = (let o := rtos_taken w2 val (set_notify 0 (sh s)) in
     (with_audio s (o_sh o) (o_pc o), o_evs o)).
Proof.
  intros Hpc Hn Hnz.
  erewrite run_cons_eq.
  2:{ cbn [sys_step]. apply audio_step_eq.
      unfold audio_outcome. rewrite Hpc. unfold rtos_idle. rewrite Hn.
      apply Z.eqb_neq in Hnz. rewrite Hnz. reflexivity. }
  erewrite run_cons_eq.
  2:{ cbn [sys_step]. apply audio_step_eq.
      unfold audio_outcome.
      cbn [o_sh o_pc fst snd pc sh with_audio]. reflexivity. }
  cbn [run fst snd o_sh o_pc o_evs with_audio sh].
  rewrite app_nil_r. reflexivity.
Qed.

Lemma rtos_taken_track w val st :
  0 < val < 2 ^ 31 -> val - 1 < num_tracks st ->
  rtos_taken w val st
  = (let st1 := set_g_pause false
                  (set_g_playing true
                     (set_playing_track (val - 1) (set_stop_flag false st))) in
     emit [EvLog LOGI (MsgStartTrack (val - 1))]
       (call_stream RTOS w (CTrk (val - 1))
          (Some (at_index (wav_list st1) (val - 1))) st1)).
Proof.
  intros Hv Hn. unfold rtos_taken.
  rewrite announce_bit_test, testbit_31_small by lia. cbn [negb].
  rewrite wrap_i32_id by (unfold in_i32; lia).
  assert (Hin : ((val - 1 <? 0) || (val - 1 >=? num_tracks st))%bool = false).
  { apply Bool.orb_false_intro; [lia|]. rewrite Z.geb_leb. lia. }
  rewrite Hin. reflexivity.
Qed.

(** RTOS keeps the announcement request and the play request in the one
    notification value of [audio_task]: the announcement as bit 31 set with
    [eSetBits], the play request as the track number plus one written with
    [eSetValueWithOverwrite].  When both are raised before the task takes
    the value, one of them is lost:
    - announcement first, play request second: the value is overwritten,
      the announce bit is gone; the task starts the track, calls no
      announcement, and is left with an empty value;
    - play request first, announcement second: the value holds both; the
      task serves the announce bit, calls no track, and is left with an
      empty value: the play request is gone, while [g_playing] and
      [playing_track] still name the track. *)
Theorem rtos_notification_holds_one_request :
  forall w w1 w2 s p,
    pc s = PIdle ->
    audio_task_handle (sh s) = true ->
    nav_state (sh s) = NAV_FILE_VIEW ->
    g_playing (sh s) = false ->
    0 <= current_track (sh s) < num_tracks (sh s) ->
    num_tracks (sh s) <= 64 ->
    let j := current_track (sh s) in
    (let s1 := with_sh s (on_play_pause RTOS w
                            (request_announcement RTOS (Some p) (sh s))) in
     notify (sh s1) = j + 1
     /\ announce_pending RTOS (sh s1) = false
     /\ (exists rest,
            snd (run RTOS [LAudio w1; LAudio w2] s1)
            = EvLog LOGI (MsgStartTrack j)
                :: EvCall (CTrk j) (Some (at_index (wav_list (sh s)) j))
                :: rest)
     /\ existsb is_ann_call (snd (run RTOS [LAudio w1; LAudio w2] s1)) = false
     /\ notify (sh (fst (run RTOS [LAudio w1; LAudio w2] s1))) = 0)
    /\ (let s2 := with_sh s (request_announcement RTOS (Some p)
                               (on_play_pause RTOS w (sh s))) in
        notify (sh s2) = Z.lor (j + 1) NOTIFY_ANNOUNCE_BIT
        /\ (g_playing (sh s2) = true /\ playing_track (sh s2) = j)
        /\ (exists rest,
               snd (run RTOS [LAudio w1; LAudio w2] s2)
               = EvLog LOGI (MsgAnnounce (string_take 255 p))
                   :: EvCall CAnn (Some (string_take 255 p)) :: rest)
        /\ existsb is_track_call
             (snd (run RTOS [LAudio w1; LAudio w2] s2)) = false
        /\ notify (sh (fst (run RTOS [LAudio w1; LAudio w2] s2))) = 0).
Proof.
  intros w w1 w2 s p Hpc Hh Hnav Hg Hj H64. cbv zeta.
  split.
  - (* announcement, then play *)
    rewrite (rtos_request_eq p (sh s) Hh).
    rewrite rtos_play_eq by (sh_simpl; assumption).
    sh_simpl. cbn [with_sh with_audio sh]. sh_simpl.
    split; [reflexivity|].
    split; [cbn [announce_pending]; sh_simpl; apply testbit_31_small; lia|].
    rewrite (rtos_two_steps w1 w2 _ (current_track (sh s) + 1))
      by (try exact Hpc; try reflexivity; lia).
    cbn [sh with_sh with_audio].
    rewrite rtos_taken_track by (unfold num_tracks in *; sh_simpl; lia).
    cbv zeta. cbn [fst snd sh with_audio]. sh_simpl.
    replace (current_track (sh s) + 1 - 1) with (current_track (sh s)) by lia.
    rewrite emit_evs, emit_sh. cbn [app existsb is_ann_call orb].
    match goal with
    | |- context [call_stream RTOS w2 ?who (Some ?q) ?st] =>
        destruct (call_stream_head RTOS w2 who q st) as [rest Hrest];
        pose proof (call_stream_signals RTOS w2 who (Some q) st) as Hsig;
        pose proof (rtos_call_track_no_ann w2 (current_track (sh s)) (Some q) st)
          as Hna
    end.
    split; [eexists; rewrite Hrest; reflexivity|].
    split; [exact Hna|].
    rewrite (proj1 (signals_fields _ _ Hsig)). reflexivity.
  - (* play, then announcement *)
    rewrite (rtos_play_eq w (sh s) Hh Hnav Hg Hj H64).
    rewrite rtos_request_eq by (sh_simpl; exact Hh).
    sh_simpl. cbn [with_sh with_audio sh]. sh_simpl.
    destruct (lor_announce_bit (current_track (sh s) + 1) ltac:(lia))
      as [Hbit Hnz].
    split; [reflexivity|]. split; [split; reflexivity|].
    rewrite (rtos_two_steps w1 w2 _
               (Z.lor (current_track (sh s) + 1) NOTIFY_ANNOUNCE_BIT))
      by (try exact Hpc; try reflexivity; exact Hnz).
    cbv zeta. cbn [fst snd sh with_sh with_audio].
    match goal with
    | |- context [rtos_taken w2 ?val ?st] =>
        destruct (rtos_taken_takes_announcement w2 val st Hbit)
          as [[rest Hrest] Hnt];
        assert (Hsig : notify (o_sh (rtos_taken w2 val st)) = 0)
    end.
    { unfold rtos_taken. rewrite announce_bit_test, Hbit. cbn [negb].
      rewrite emit_sh.
      match goal with
      | |- context [call_stream RTOS w2 ?who ?q ?st] =>
          pose proof (call_stream_signals RTOS w2 who q st) as Hs
      end.
      rewrite (proj1 (signals_fields _ _ Hs)). reflexivity. }
    split; [|split; [exact Hnt | exact Hsig]].
    exists rest. rewrite Hrest. sh_simpl. unfold strncpy_buf, ANNOUNCE_PATH_MAX.
    change (256 - 1)%nat with 255%nat. rewrite string_take_take. reflexivity.
Qed.

Lemma rtos_notification_holds_one_request_witness :
  exists rest,
    snd (run RTOS [LAudio demo_card; LAudio demo_card]
           (with_sh rtos_idle_demo
              (request_announcement RTOS (Some "/sdcard/story1.wav")
                 (on_play_pause RTOS demo_card (sh rtos_idle_demo)))))
    = EvLog LOGI (MsgAnnounce (string_take 255 "/sdcard/story1.wav"))
        :: EvCall CAnn (Some (string_take 255 "/sdcard/story1.wav")) :: rest.
Proof.
  assert (Hn : num_tracks (sh rtos_idle_demo) = 3) by (vm_compute; reflexivity).
  assert (Hc : current_track (sh rtos_idle_demo) = 2) by (vm_compute; reflexivity).
  exact (proj1 (proj2 (proj2
           (proj2 (rtos_notification_holds_one_request demo_card demo_card
                     demo_card rtos_idle_demo "/sdcard/story1.wav"
                     ltac:(vm_compute; reflexivity)
                     ltac:(vm_compute; reflexivity)
                     ltac:(vm_compute; reflexivity)
                     ltac:(vm_compute; reflexivity)
                     ltac:(rewrite Hn, Hc; lia) ltac:(rewrite Hn; lia)))))).
Defined.

(** ** Without folders *)

Lemma inert_audio v w s : inert s -> audio_step v w s = (s, []).
Proof.
  intros (Hpc & Hf & Hnav & Hg & Ha & Hn).
  unfold audio_step, audio_outcome. rewrite Hpc.
  destruct v.
  - unfold v1_idle. rewrite Hg. cbn [negb o_sh o_pc o_evs fst snd].
    rewrite <- Hpc, with_audio_same. reflexivity.
  - unfold v2_idle. rewrite Ha, Hg. cbn [o_sh o_pc o_evs fst snd].
    rewrite <- Hpc, with_audio_same. reflexivity.
  - unfold rtos_idle. rewrite Hn. cbn [Z.eqb o_sh o_pc o_evs fst snd].
    rewrite <- Hpc, with_audio_same. reflexivity.
Qed.

Lemma inert_play_pause v w st :
  folder_list st = [] -> nav_state st = NAV_HOME -> on_play_pause v w st = st.
Proof.
  intros Hf Hnav. unfold on_play_pause, num_folders. rewrite Hnav, Hf.
  reflexivity.
Qed.

Lemma inert_step v l s :
  inert s -> snd (sys_step v l s) = [] /\ inert (fst (sys_step v l s)).
Proof.
  intros Hi. pose proof Hi as (Hpc & Hf & Hnav & Hg & Ha & Hn).
  destruct l as [w|w b lvl t|w ev now]; cbn [sys_step].
  - rewrite (inert_audio v w s Hi). split; [reflexivity | exact Hi].
  - unfold booted. rewrite Hpc. cbn [fst snd]. split; [reflexivity|].
    unfold poll_button, inert.
    destruct b; destruct (read_button_press _ _ _) as [[|] b'];
      cbn [sh pc]; rewrite ?inert_play_pause by assumption;
        rewrite ?on_vol_up_eq, ?on_vol_down_eq;
        unfold on_home; rewrite ?Hnav; sh_simpl;
          repeat split; assumption.
  - unfold booted. rewrite Hpc. cbn [fst snd]. split; [reflexivity|].
    unfold encoder_step, encoder_task, on_enc_switch, on_enc_step, num_folders.
    rewrite Hnav, Hf. cbn [List.length Z.of_nat Z.gtb Z.compare].
    rewrite inert_play_pause by assumption.
    destruct (ev_type ev);
      [destruct (step_accepted _ _) | destruct (switch_accepted _ _)];
      unfold inert; cbn [sh pc]; repeat split; assumption.
Qed.

Lemma inert_run v (ls : list label) :
  forall s, inert s -> snd (run v ls s) = [] /\ inert (fst (run v ls s)).
Proof.
  induction ls as [|l ls IH]; intros s Hi; [split; [reflexivity | exact Hi]|].
  destruct (inert_step v l s Hi) as [He Hi1].
  cbn [run]. destruct (sys_step v l s) as [s1 e1]. cbn [fst snd] in *.
  destruct (IH s1 Hi1) as [He2 Hi2].
  destruct (run v ls s1) as [s2 e2]. cbn [fst snd] in *.
  subst. split; [reflexivity | exact Hi2].
Qed.

(** A device without folders does nothing.  Once the audio task is idle on
    the home screen with an empty folder list and nothing requested, no
    sequence of button presses, encoder events and audio steps makes the
    audio side call a stream, touch the I2S output or log anything, and
    the navigation stays on the home screen.  This is where a failed
    [init_sd] leaves the device: the boot logs the failure, skips the scan
    and the boot sounds, and the audio side does nothing from then on. *)
Theorem no_folders_no_sound :
  forall v,
    (forall ls s, inert s ->
       snd (run v ls s) = []
       /\ inert (fst (run v ls s)))
    /\ (forall w ls, sd_ok w = false ->
          snd (run v (LAudio w :: ls) initial_system)
          = [EvLog LOGE MsgSdFailed]
          /\ nav_state (sh (fst (run v (LAudio w :: ls) initial_system)))
             = NAV_HOME).
Proof.
  intros v. split; [intros ls s; apply inert_run|].
  intros w ls Hsd.
  erewrite run_cons_eq.
  2:{ cbn [sys_step]. apply audio_step_eq.
      unfold audio_outcome. cbn [pc initial_system].
      unfold app_main_boot. rewrite Hsd. cbn [negb]. reflexivity. }
  rewrite emit_sh, emit_pc, emit_evs, boot_finish_pc, boot_finish_evs.
  match goal with
  | |- context [run v ls ?s1] =>
      assert (Hi : inert s1)
        by (destruct v; unfold inert; cbn; repeat split; reflexivity);
      destruct (inert_run v ls s1 Hi) as [He (_ & _ & Hnav & _)]
  end.
  rewrite He. split; [reflexivity | exact Hnav].
Qed.

Lemma no_folders_no_sound_witness :
  snd (run RTOS [LAudio (no_card demo_card);
                 LButton demo_card BTN_PLAY_PAUSE true 100;
                 LEncoder demo_card (clk 0) 200;
                 LEncoder demo_card sw 300;
                 LAudio demo_card]
         initial_system)
  = [EvLog LOGE MsgSdFailed].
Proof.
  exact (proj1 (proj2 (no_folders_no_sound RTOS) (no_card demo_card)
                  [LButton demo_card BTN_PLAY_PAUSE true 100;
                   LEncoder demo_card (clk 0) 200;
                   LEncoder demo_card sw 300;
                   LAudio demo_card] eq_refl)).
Defined.

(** ** A newer announcement *)

Lemma lor_announce_bit_any (n : Z) :
  Z.testbit (Z.lor n NOTIFY_ANNOUNCE_BIT) 31 = true
  /\ Z.lor n NOTIFY_ANNOUNCE_BIT <> 0.
Proof.
  unfold NOTIFY_ANNOUNCE_BIT. rewrite Z.shiftl_1_l.
  assert (Hb : Z.testbit (Z.lor n (2 ^ 31)) 31 = true)
    by (rewrite Z.lor_spec, Z.pow2_bits_true by lia; apply orb_true_r).
  split; [exact Hb|].
  intros H0. rewrite H0, Z.bits_0 in Hb. discriminate.
Qed.

Lemma v2_announcement_replaced w1 w2 s os p :
  pc s = PLoop CAnn os ->
  exists rest,
    snd (run V2 [LAudio w1; LAudio w2]
           (with_sh s (request_announcement V2 (Some p) (sh s))))
    = [EvLog LOGI MsgInterrupted; EvI2SUninstall; EvReturn CAnn SAborted;
       EvLog LOGI (MsgAnnounce (string_take 255 p));
       EvCall CAnn (Some (string_take 255 p))] ++ rest.
Proof.
  intros Hpc. cbn [request_announcement].
  erewrite run_cons_eq.
  2:{ cbn [sys_step]. apply audio_step_eq.
      unfold audio_outcome, with_sh. cbn [pc sh with_audio]. rewrite Hpc.
      rewrite stream_step_stopped by reflexivity.
      cbn [after_stream emit]. reflexivity. }
  erewrite run_cons_eq.
  2:{ cbn [sys_step]. apply audio_step_eq.
      unfold audio_outcome. cbn [o_sh o_pc fst snd pc sh with_audio with_sh].
      unfold v2_idle. sh_simpl. reflexivity. }
  cbn [run fst snd o_evs stream_close app].
  match goal with
  | |- context [call_stream V2 w2 CAnn (Some ?q) ?st] =>
      destruct (call_stream_head V2 w2 CAnn q st) as [rest Hrest]
  end.
  rewrite emit_evs, Hrest. unfold strncpy_buf, ANNOUNCE_PATH_MAX.
  change (256 - 1)%nat with 255%nat. rewrite string_take_take.
  cbn [app]. eexists. rewrite app_nil_r. reflexivity.
Qed.

Lemma rtos_announcement_replaced w1 w2 w3 s os p :
  pc s = PLoop CAnn os ->
  audio_task_handle (sh s) = true ->
  exists rest,
    snd (run RTOS [LAudio w1; LAudio w2; LAudio w3]
           (with_sh s (request_announcement RTOS (Some p) (sh s))))
    = [EvLog LOGI MsgInterrupted; EvI2SUninstall; EvReturn CAnn SAborted;
       EvLog LOGI (MsgAnnounce (string_take 255 p));
       EvCall CAnn (Some (string_take 255 p))] ++ rest.
Proof.
  intros Hpc Hh. rewrite (rtos_request_eq p (sh s) Hh).
  destruct (lor_announce_bit_any (notify (sh s))) as [Hbit Hnz].
  set (st1 := set_notify (Z.lor (notify (sh s)) NOTIFY_ANNOUNCE_BIT)
                (set_stop_flag true
                   (set_announce_path (string_take 255 p) (sh s)))).
  erewrite run_cons_eq.
  2:{ cbn [sys_step]. apply audio_step_eq.
      unfold audio_outcome, with_sh. cbn [pc sh with_audio]. rewrite Hpc.
      rewrite stream_step_stopped by reflexivity.
      cbn [after_stream emit]. reflexivity. }
  cbn [o_sh o_pc o_evs fst snd].
  rewrite (rtos_two_steps w2 w3 _ (Z.lor (notify (sh s)) NOTIFY_ANNOUNCE_BIT))
    by (try reflexivity; exact Hnz).
  cbv zeta. cbn [fst snd sh with_audio with_sh].
  match goal with
  | |- context [rtos_taken w3 ?val ?st] =>
      destruct (rtos_taken_takes_announcement w3 val st Hbit)
        as [[rest Hrest] _]
  end.
  rewrite Hrest. subst st1. sh_simpl. unfold strncpy_buf, ANNOUNCE_PATH_MAX.
  change (256 - 1)%nat with 255%nat. rewrite string_take_take.
  cbn [stream_close app]. eexists. reflexivity.
Qed.

(** An announcement requested while another announcement is streaming
    replaces it: the stream in progress stops at its next poll and returns
    as aborted, and the next stream called is the announcement of the path
    just requested (its first 255 bytes).  v2 polls [announce_request]
    itself for this; RTOS polls [stop_flag] and then finds the announce bit
    in its notification value. *)
Theorem newer_announcement_replaces_older :
  forall w1 w2 w3 s os p,
    pc s = PLoop CAnn os ->
    (exists rest,
        snd (run V2 [LAudio w1; LAudio w2]
               (with_sh s (request_announcement V2 (Some p) (sh s))))
        = [EvLog LOGI MsgInterrupted; EvI2SUninstall; EvReturn CAnn SAborted;
           EvLog LOGI (MsgAnnounce (string_take 255 p));
           EvCall CAnn (Some (string_take 255 p))] ++ rest)
    /\ (audio_task_handle (sh s) = true ->
        exists rest,
          snd (run RTOS [LAudio w1; LAudio w2; LAudio w3]
                 (with_sh s (request_announcement RTOS (Some p) (sh s))))
          = [EvLog LOGI MsgInterrupted; EvI2SUninstall;
             EvReturn CAnn SAborted;
             EvLog LOGI (MsgAnnounce (string_take 255 p));
             EvCall CAnn (Some (string_take 255 p))] ++ rest).
Proof.
  intros w1 w2 w3 s os p Hpc. split.
  - apply (v2_announcement_replaced w1 w2 s os p Hpc).
  - intros Hh. apply (rtos_announcement_replaced w1 w2 w3 s os p Hpc Hh).
Qed.

Lemma newer_announcement_replaces_older_witness :
  exists rest,
    snd (run V2 [LAudio demo_card; LAudio demo_card]
           (with_sh v2_announcing
              (request_announcement V2 (Some "/sdcard/home.wav")
                 (sh v2_announcing))))
    = [EvLog LOGI MsgInterrupted; EvI2SUninstall; EvReturn CAnn SAborted;
       EvLog LOGI (MsgAnnounce (string_take 255 "/sdcard/home.wav"));
       EvCall CAnn (Some (string_take 255 "/sdcard/home.wav"))] ++ rest.
Proof.
  exact (proj1 (newer_announcement_replaces_older demo_card demo_card demo_card
                  v2_announcing (demo_stream four_bytes) "/sdcard/home.wav"
                  ltac:(vm_compute; reflexivity))).
Defined.

(** ** Home during playback *)

(** Home in the track list while a track is streaming, in v1 and RTOS: the
    handler clears [g_playing], frees the track list and goes back to the
    folder list; the stream stops at its next poll, the output is released
    and the call returns as aborted, and the audio task is idle again.
    (v1 leaves its loop on [g_playing]; RTOS on [stop_flag], which the
    handler sets.) *)
Theorem home_stops_playback :
  forall v w w1 s i os,
    v <> V2 ->
    pc s = PLoop (CTrk i) os ->
    nav_state (sh s) = NAV_FILE_VIEW ->
    g_playing (sh s) = true ->
    let s1 := with_sh s (on_home v w (sh s)) in
    nav_state (sh s1) = NAV_FOLDER_VIEW
    /\ wav_list (sh s1) = [] /\ g_playing (sh s1) = false
    /\ snd (audio_step v w1 s1)
       = (match v with
          | RTOS => [EvLog LOGI MsgInterrupted]
          | _ => []
          end)
         ++ [EvI2SUninstall; EvReturn (CTrk i) SAborted]
         ++ (match v with
             | RTOS => [EvLog LOGI MsgPlaybackInterrupted]
             | _ => []
             end)
    /\ pc (fst (audio_step v w1 s1)) = PIdle.
Proof.
  intros v w w1 s i os Hv Hpc Hnav Hg. cbv zeta.
  unfold on_home. rewrite Hnav, Hg.
  destruct v; [| congruence |].
  - assert (Hstep : audio_outcome V1 w1
                      (with_sh s
                         (set_nav_state NAV_FOLDER_VIEW
                            (free_wav_list
                               (set_g_stop_and_rewind true
                                  (set_g_pause false
                                     (set_g_playing false (sh s)))))))
                    = (set_nav_state NAV_FOLDER_VIEW
                         (free_wav_list
                            (set_g_stop_and_rewind true
                               (set_g_pause false
                                  (set_g_playing false (sh s))))),
                       PIdle, stream_close (CTrk i) SAborted)).
    { unfold audio_outcome, with_sh. cbn [pc sh with_audio]. rewrite Hpc.
      unfold v1_loop. sh_simpl. reflexivity. }
    unfold audio_step. rewrite Hstep.
    cbn [with_sh with_audio sh pc o_sh o_pc o_evs fst snd]. sh_simpl.
    split; [reflexivity|]. split; [reflexivity|]. split; [reflexivity|].
    split; reflexivity.
  - assert (Hstep : audio_outcome RTOS w1
                      (with_sh s
                         (set_nav_state NAV_FOLDER_VIEW
                            (free_wav_list
                               (set_stop_flag true
                                  (set_g_pause false
                                     (set_g_playing false (sh s)))))))
                    = emit (EvLog LOGI MsgInterrupted
                              :: stream_close (CTrk i) SAborted)
                        (after_stream RTOS w1 (CTrk i)
                           (set_nav_state NAV_FOLDER_VIEW
                              (free_wav_list
                                 (set_stop_flag true
                                    (set_g_pause false
                                       (set_g_playing false (sh s)))))))).
    { unfold audio_outcome, with_sh. cbn [pc sh with_audio]. rewrite Hpc.
      apply stream_step_stopped. reflexivity. }
    unfold audio_step. rewrite Hstep.
    cbn [after_stream emit with_sh with_audio sh pc o_sh o_pc o_evs fst snd].
    sh_simpl.
    split; [reflexivity|]. split; [reflexivity|]. split; [reflexivity|].
    split; reflexivity.
Qed.

Lemma home_stops_playback_witness :
  snd (audio_step RTOS demo_card
         (with_sh demo_playing (on_home RTOS demo_card (sh demo_playing))))
  = [EvLog LOGI MsgInterrupted; EvI2SUninstall; EvReturn (CTrk 0) SAborted;
     EvLog LOGI MsgPlaybackInterrupted].
Proof.
  exact (proj1 (proj2 (proj2 (proj2
           (home_stops_playback RTOS demo_card demo_card demo_playing 0
              (demo_stream four_bytes) ltac:(discriminate)
              ltac:(vm_compute; reflexivity) ltac:(vm_compute; reflexivity)
              ltac:(vm_compute; reflexivity)))))).
Defined.

(** ** Which files the audio task opens *)

Lemma no_track_call_not_in evs i path :
  existsb is_track_call evs = false -> ~ In (EvCall (CTrk i) path) evs.
Proof.
  induction evs as [|e evs IH]; intros H Hin; [exact Hin|].
  cbn [existsb] in H. apply Bool.orb_false_elim in H as [He Hr].
  destruct Hin as [->|Hin]; [discriminate He | exact (IH Hr Hin)].
Qed.

Lemma stream_open_call_in v w who path who' path' :
  In (EvCall who' path') (fst (stream_open v w who path)) ->
  who' = who /\ path' = path.
Proof.
  unfold stream_open, failed.
  destruct path as [p|].
  2:{ cbn. intros [H|[H|[]]]; [injection H as <- <-; auto | discriminate]. }
  assert (Hpre : forall tail : list event,
             (forall e, In e tail -> match e with EvCall _ _ => False | _ => True end) ->
             In (EvCall who' path') (EvCall who (Some p) :: tail) ->
             who' = who /\ path' = Some p).
  { intros tail Ht [H|H]; [injection H as <- <-; auto|].
    specialize (Ht _ H). contradiction. }
  destruct (file_bytes w p) as [f|];
    [|cbn [fst]; apply Hpre; cbn; intuition (subst; exact I)].
  destruct (parse_wav_header f) as [wi|];
    [|cbn [fst]; apply Hpre; cbn; intuition (subst; exact I)].
  destruct (negb (bits_per_sample wi =? 16));
    [cbn [fst]; apply Hpre; cbn; intuition (subst; exact I)|].
  destruct (negb (i2s_install_ok w));
    [cbn [fst]; apply Hpre; cbn; intuition (subst; exact I)|].
  destruct (negb (i2s_set_pin_ok w));
    [cbn [fst]; apply Hpre; cbn; intuition (subst; exact I)|].
  destruct (negb (malloc_ok w (chunk_bytes wi))); cbn [fst app];
    apply Hpre; destruct (i2s_set_clk_ok w); cbn;
      intuition (subst; exact I).
Qed.

Lemma call_stream_track_in v w idx path st i path' :
  In (EvCall (CTrk i) path') (o_evs (call_stream v w (CTrk idx) path st)) ->
  i = idx /\ path' = path.
Proof.
  unfold call_stream.
  pose proof (stream_open_call_in v w (CTrk idx) path (CTrk i) path') as Hopen.
  destruct (stream_open _ _ _ _) as [evs [os|]]; cbn [fst o_evs snd] in *.
  - intros H. destruct (Hopen H) as [Hw Hp]. injection Hw as ->. auto.
  - rewrite emit_evs. intros H. apply in_app_or in H as [H|H].
    + destruct (Hopen H) as [Hw Hp]. injection Hw as ->. auto.
    + exfalso. revert H. apply no_track_call_not_in,
        after_stream_no_track_call.
Qed.

(** Whenever a step of the audio side calls the stream of a track, in any
    revision, the track number is inside the track list as it is at that
    step and the path is the entry of [wav_list] at that number: the audio
    task opens no file for a track but one that the folder scan listed. *)
Theorem track_calls_come_from_list :
  forall v w s i path,
    In (EvCall (CTrk i) path) (snd (audio_step v w s)) ->
    0 <= i < num_tracks (sh s)
    /\ path = Some (at_index (wav_list (sh s)) i)
    /\ In (at_index (wav_list (sh s)) i) (wav_list (sh s)).
Proof.
  intros v w s i path Hin.
  assert (Hmain : 0 <= i < num_tracks (sh s)
                  /\ path = Some (at_index (wav_list (sh s)) i)).
  { revert Hin. unfold audio_step, audio_outcome. cbv zeta. cbn [snd].
    destruct (pc s) as [| |val|who os].
    - intros H. exfalso. revert H.
      apply no_track_call_not_in, app_main_boot_no_track_call.
    - destruct v.
      + unfold v1_idle.
        destruct (negb (g_playing (sh s))); [intros []|].
        destruct (negb (nav_eqb _ _)); [intros []|].
        destruct (num_tracks (sh s) =? 0); [intros []|].
        destruct ((_ <? 0) || _)%bool eqn:Hidx;
          [cbn; intros [H|[]]; discriminate|].
        apply Bool.orb_false_elim in Hidx as [H0 H1].
        apply Z.ltb_ge in H0. rewrite Z.geb_leb in H1. apply Z.leb_gt in H1.
        pose proof (stream_open_call_in V1 w (CTrk (playing_track (sh s)))
                      (Some (at_index (wav_list (sh s)) (playing_track (sh s))))
                      (CTrk i) path) as Hopen.
        destruct (stream_open _ _ _ _) as [evs [os|]]; cbn [fst o_evs snd] in *;
          intros H; destruct (Hopen H) as [Hw Hp]; injection Hw as ->;
            split; [lia | exact Hp | lia | exact Hp].
      + unfold v2_idle.
        destruct (announce_request (sh s)).
        { intros H. exfalso. revert H. apply no_track_call_not_in.
          rewrite emit_evs. cbn [app existsb is_track_call orb].
          apply call_stream_track_call. }
        destruct (g_playing (sh s)); [|intros []].
        destruct (negb (nav_eqb _ _)); [intros []|].
        destruct (num_tracks (sh s) =? 0); [intros []|].
        destruct ((_ <? 0) || _)%bool eqn:Hidx;
          [cbn; intros [H|[]]; discriminate|].
        apply Bool.orb_false_elim in Hidx as [H0 H1].
        apply Z.ltb_ge in H0. rewrite Z.geb_leb in H1. apply Z.leb_gt in H1.
        rewrite emit_evs. cbn [app]. intros [H|H]; [discriminate|].
        destruct (call_stream_track_in _ _ _ _ _ _ _ H) as [-> ->].
        split; [lia | reflexivity].
      + unfold rtos_idle. destruct (notify (sh s) =? 0); intros [].
    - destruct v; try (intros []). unfold rtos_taken.
      destruct (negb (Z.land val NOTIFY_ANNOUNCE_BIT =? 0)).
      { intros H. exfalso. revert H. apply no_track_call_not_in.
        rewrite emit_evs. cbn [app existsb is_track_call orb].
        apply call_stream_track_call. }
      destruct ((_ <? 0) || _)%bool eqn:Hidx;
        [cbn; intros [H|[]]; discriminate|].
      apply Bool.orb_false_elim in Hidx as [H0 H1].
      apply Z.ltb_ge in H0. rewrite Z.geb_leb in H1. apply Z.leb_gt in H1.
      rewrite emit_evs. cbn [app]. intros [H|H]; [discriminate|].
      destruct (call_stream_track_in _ _ _ _ _ _ _ H) as [-> ->].
      sh_simpl. split; [lia | reflexivity].
    - assert (Hs : ~ In (EvCall (CTrk i) path)
                     (o_evs (stream_step v w who os (sh s))))
        by apply no_track_call_not_in, stream_step_no_track_call.
      destruct v; try (intros H; exfalso; exact (Hs H)).
      destruct who; try (intros H; exfalso; exact (Hs H)).
      unfold v1_loop.
      destruct (negb (g_playing (sh s)));
        [cbn; intros [H|[H|[]]]; discriminate|].
      destruct (track_change_request (sh s));
        [cbn; intros [H|[H|[H|[]]]]; discriminate|].
      destruct (g_stop_and_rewind (sh s)); cbn -[fread_chunk write_chunk];
        (destruct (g_pause _); [cbn; intuition discriminate|]);
        (destruct (fread_chunk _); [cbn; intuition discriminate|]);
        unfold write_chunk; destruct (i2s_write_ok w); cbn;
          intuition discriminate. }
  destruct Hmain as [Hr Hp]. split; [exact Hr|]. split; [exact Hp|].
  unfold at_index, num_tracks in *. apply nth_In. lia.
Qed.

Lemma track_calls_come_from_list_witness :
  0 <= 2 < num_tracks (sh (fst (run RTOS [LEncoder demo_card (clk 0) 600]
                                 rtos_woken)))
  /\ Some "/sdcard/01/other.wav"
     = Some (at_index
               (wav_list (sh (fst (run RTOS [LEncoder demo_card (clk 0) 600]
                                     rtos_woken)))) 2)
  /\ In (at_index
           (wav_list (sh (fst (run RTOS [LEncoder demo_card (clk 0) 600]
                                 rtos_woken)))) 2)
       (wav_list (sh (fst (run RTOS [LEncoder demo_card (clk 0) 600]
                             rtos_woken)))).
Proof.
  apply (track_calls_come_from_list RTOS demo_card
           (fst (run RTOS [LEncoder demo_card (clk 0) 600] rtos_woken))
           2 (Some "/sdcard/01/other.wav")).
  vm_compute. right. left. reflexivity.
Defined.

(** ** Starting a track in v1 *)

(** v1, Play/Pause on the selected track with nothing playing: the handler
    raises [track_change_request] together with [g_playing].  The audio
    task opens the file and configures the output, its loop then finds the
    request it was started by, leaves at once, releases the output, and the
    next pass of the task opens the same file again.  So every start opens
    the file twice, and nothing is written before the second opening. *)
Theorem v1_start_opens_file_twice :
  forall w w1 w2 w3 s evs os,
    pc s = PIdle ->
    nav_state (sh s) = NAV_FILE_VIEW ->
    g_playing (sh s) = false ->
    0 <= current_track (sh s) < num_tracks (sh s) ->
    let j := current_track (sh s) in
    let path := Some (at_index (wav_list (sh s)) j) in
    stream_open V1 w1 (CTrk j) path = (evs, Some os) ->
    snd (run V1 [LAudio w1; LAudio w2; LAudio w3]
           (with_sh s (on_play_pause V1 w (sh s))))
    = evs
      ++ [EvLog LOGI MsgTrackChange; EvI2SUninstall; EvReturn (CTrk j) SAborted]
      ++ fst (stream_open V1 w3 (CTrk j) path).
Proof.
  intros w w1 w2 w3 s evs os Hpc Hnav Hg Hj. cbv zeta. intros Hopen.
  assert (Hst : on_play_pause V1 w (sh s)
                = set_track_change_request true
                    (set_g_pause false
                       (set_g_playing true
                          (set_playing_track (current_track (sh s)) (sh s))))).
  { unfold on_play_pause, play_pause_file_view. rewrite Hnav, Hg. cbn [negb].
    assert (Hgt : (num_tracks (sh s) >? 0) = true) by lia. rewrite Hgt.
    reflexivity. }
  rewrite Hst.
  assert (Hnz : (num_tracks (sh s) =? 0) = false) by lia.
  assert (Hin : ((current_track (sh s) <? 0)
                 || (current_track (sh s) >=? num_tracks (sh s)))%bool = false).
  { apply Bool.orb_false_intro; [lia|]. rewrite Z.geb_leb. lia. }
  erewrite run_cons_eq.
  2:{ cbn [sys_step]. apply audio_step_eq.
      unfold audio_outcome, with_sh. cbn [pc sh with_audio]. rewrite Hpc.
      unfold v1_idle, num_tracks in *. sh_simpl. rewrite Hnav.
      cbn [negb nav_eqb]. rewrite Hnz, Hin, Hopen. reflexivity. }
  erewrite run_cons_eq.
  2:{ cbn [sys_step]. apply audio_step_eq.
      unfold audio_outcome. cbn [o_sh o_pc fst snd pc sh with_audio].
      unfold v1_loop. sh_simpl. cbn [negb]. reflexivity. }
  erewrite run_cons_eq.
  2:{ cbn [sys_step]. apply audio_step_eq.
      unfold audio_outcome. cbn [o_sh o_pc fst snd pc sh with_audio].
      unfold v1_idle, num_tracks in *. sh_simpl. rewrite Hnav.
      cbn [negb nav_eqb]. rewrite Hnz, Hin. reflexivity. }
  cbn [run fst snd o_evs stream_close].
  destruct (stream_open V1 w3 _ _) as [evs3 [os3|]]; cbn [o_evs fst snd];
    rewrite app_nil_r; reflexivity.
Qed.

Lemma v1_start_opens_file_twice_witness :
  snd (run V1 [LAudio demo_card; LAudio demo_card; LAudio demo_card]
         (with_sh v1_selected (on_play_pause V1 demo_card (sh v1_selected))))
  = [EvCall (CTrk 0) (Some "/sdcard/01/S1.wav");
     EvI2SInstall 8000 true true; EvI2SSetPin true; EvI2SSetClk 8000 1 true]
    ++ [EvLog LOGI MsgTrackChange; EvI2SUninstall; EvReturn (CTrk 0) SAborted]
    ++ [EvCall (CTrk 0) (Some "/sdcard/01/S1.wav");
        EvI2SInstall 8000 true true; EvI2SSetPin true; EvI2SSetClk 8000 1 true].
Proof.
  assert (Hn : num_tracks (sh v1_selected) = 3) by (vm_compute; reflexivity).
  assert (Hc : current_track (sh v1_selected) = 0) by (vm_compute; reflexivity).
  assert (Hopen : stream_open V1 demo_card (CTrk (current_track (sh v1_selected)))
                    (Some (at_index (wav_list (sh v1_selected))
                             (current_track (sh v1_selected))))
                  = ([EvCall (CTrk 0) (Some "/sdcard/01/S1.wav");
                      EvI2SInstall 8000 true true; EvI2SSetPin true;
                      EvI2SSetClk 8000 1 true],
                     Some (demo_stream four_bytes)))
    by (vm_compute; reflexivity).
  rewrite (v1_start_opens_file_twice demo_card demo_card demo_card demo_card
             v1_selected _ _ ltac:(vm_compute; reflexivity)
             ltac:(vm_compute; reflexivity) ltac:(vm_compute; reflexivity)
             ltac:(rewrite Hn, Hc; lia) Hopen).
  rewrite Hopen. reflexivity.
Defined.

(** ** The story clip of a track name *)

(** The story announcement looks at the first two characters of the track's
    file name only: the letter and one digit.  Two tracks of a folder whose
    names agree on these get the same announcement, so S1.wav, S12.wav and
    S1-intro.wav all announce story1.wav, and there are ten clips at
    most. *)
Theorem story_clip_uses_first_two_characters :
  forall v w folder name1 name2 st,
    strrchr name1 "/" = None -> strrchr name2 "/" = None ->
    char_at name1 0 = char_at name2 0 ->
    char_at name1 1 = char_at name2 1 ->
    announce_story v w (folder ++ "/" ++ name1)%string st
    = announce_story v w (folder ++ "/" ++ name2)%string st.
Proof.
  intros v w folder name1 name2 st H1 H2 Hc0 Hc1.
  unfold announce_story.
  rewrite (basename_make_path folder name1 H1),
    (basename_make_path folder name2 H2),
    (strrchr_make_path folder name1 H1), (strrchr_make_path folder name2 H2).
  rewrite !string_take_make_path.
  unfold is_story_name, story_number. rewrite Hc0, Hc1. reflexivity.
Qed.

Lemma story_clip_uses_first_two_characters_witness :
  announce_story V2 demo_card "/sdcard/01/S12.wav" initial_shared
  = announce_story V2 demo_card "/sdcard/01/S1.wav" initial_shared.
Proof.
  exact (story_clip_uses_first_two_characters V2 demo_card "/sdcard/01"
           "S12.wav" "S1.wav" initial_shared eq_refl eq_refl eq_refl eq_refl).
Defined.

Example story_clip_of_S12 :
  announce_path (announce_story V2 demo_card "/sdcard/01/S12.wav" initial_shared)
  = "/sdcard/story1.wav".
Proof. reflexivity. Qed.
